(** * NiiVue: spatial canonicalisation, intensity calibration and ray compositing

    A shallow embedding of [src/nvimage.js] (the [NVImage] constructor,
    [calculateRAS], [calMinMax], [clone], [zeroImage], [zerosLike], the
    loaders [loadFromUrl] and [loadFromFile], [getImageMetadata] and
    [getValue]) and of the shaders of [src/shader-srcs.js] (the render and
    picking shaders with [GetBackPosition] and [applyClip], the slice,
    orientation and font shaders).

    JavaScript numbers are IEEE-754 binary64 values: they are modelled by
    [spec_float] with the binary64 parameters, so that NaN, signed zeros
    and infinities behave as in the source.  The raw image is a sequence
    of bytes, of which the typed arrays of the constructor are views.
    Calls that may throw return an [outcome].  The functions of the
    libraries (the NIfTI reader, gl-matrix, [fetch], the [FileReader]) are
    parameters.  GLSL [float]s of the shaders are idealised as exact
    rationals: what is proved of the shaders is proved in exact
    arithmetic, which the binary32 arithmetic of a GPU follows up to
    rounding. *)

From stdpp Require Import gmap list.
From Stdlib Require Import ZArith QArith Qround Lqa Lia List String Bool.
From Stdlib Require Import Floats.SpecFloat.
Import ListNotations.

(** ** JavaScript numbers *)

Module JS.

Definition number := spec_float.

Definition prec : Z := 53.
Definition emax : Z := 1024.

Definition NaN : number := S754_nan.
Definition zero : number := S754_zero false.

(** An integer literal, or an integer read from a typed array, as a number
    (round to nearest, ties to even; exact up to 2^53). *)
Definition ofZ (z : Z) : number := binary_normalize prec emax z 0 false.

Definition one : number := Eval vm_compute in ofZ 1.
Definition two : number := Eval vm_compute in ofZ 2.

Definition add (x y : number) : number := SFadd prec emax x y.
Definition sub (x y : number) : number := SFsub prec emax x y.
Definition mul (x y : number) : number := SFmul prec emax x y.
Definition div (x y : number) : number := SFdiv prec emax x y.

(** The global [isNaN] on a number. *)
Definition isNaN (x : number) : bool :=
  match x with S754_nan => true | _ => false end.

(** [isFinite] on a number. *)
Definition isFinite (x : number) : bool :=
  match x with S754_nan | S754_infinity _ => false | _ => true end.

(** [x === y] on numbers: false on NaN, true on zeros of either sign. *)
Definition strict_eq (x y : number) : bool := SFeqb x y.
Definition lt (x y : number) : bool := SFltb x y.
Definition gt (x y : number) : bool := SFltb y x.
Definition le (x y : number) : bool := SFleb x y.
Definition ge (x y : number) : bool := SFleb y x.

Definition Math_abs (x : number) : number := SFabs x.
Definition Math_sqrt (x : number) : number := SFsqrt prec emax x.

(** [Math.min] and [Math.max] of two arguments: NaN if either is NaN, and
    -0 is smaller than +0. *)
Definition Math_min (x y : number) : number :=
  if isNaN x || isNaN y then NaN
  else match x, y with
       | S754_zero sx, S754_zero sy => S754_zero (sx || sy)
       | _, _ => if lt y x then y else x
       end.

Definition Math_max (x y : number) : number :=
  if isNaN x || isNaN y then NaN
  else match x, y with
       | S754_zero sx, S754_zero sy => S754_zero (sx && sy)
       | _, _ => if lt x y then y else x
       end.

(** The exact value of a number as an integer, when it has one. *)
Definition toZ (x : number) : option Z :=
  match x with
  | S754_zero _ => Some 0%Z
  | S754_finite s m e =>
      let v := if s then Z.neg m else Z.pos m in
      match e with
      | Z0 => Some v
      | Zpos p => Some (v * 2 ^ Zpos p)%Z
      | Zneg p => if (v mod 2 ^ Zpos p =? 0)%Z then Some (v / 2 ^ Zpos p)%Z else None
      end
  | _ => None
  end.

(** [Math.round]: the closest integer, ties towards +Infinity; the sign of
    a zero result is the sign of the argument. *)
Definition Math_round (x : number) : number :=
  match x with
  | S754_finite s m (Zneg p) =>
      let v := if s then Z.neg m else Z.pos m in
      let r := ((2 * v + 2 ^ Zpos p) / (2 * 2 ^ Zpos p))%Z in
      if (r =? 0)%Z then S754_zero s else ofZ r
  | _ => x
  end.

(** [Math.fround]: rounding to the nearest binary32 value. *)
Definition Math_fround (x : number) : number :=
  match x with
  | S754_finite s m e =>
      match binary_round 24 128 s m e with
      | S754_finite s' m' e' => binary_round prec emax s' m' e'
      | y => y
      end
  | _ => x
  end.

(** A value that may be [undefined] (an array read past the end). *)
Inductive value :=
  | Undefined
  | Num (x : number).

(** [ToNumber]: [undefined] becomes NaN. *)
Definition toNumber (v : value) : number :=
  match v with Undefined => NaN | Num x => x end.

(** [v === w] on values. *)
Definition value_strict_eq (v w : value) : bool :=
  match v, w with
  | Undefined, Undefined => true
  | Num x, Num y => strict_eq x y
  | _, _ => false
  end.

(** [a[i]] on an array of numbers. *)
Definition array_get (a : list number) (i : nat) : value :=
  match nth_error a i with Some x => Num x | None => Undefined end.

(** [a[i] = v] on an ordinary array: a write past the end extends it. *)
Fixpoint array_set (a : list number) (i : nat) (v : number) : list number :=
  match i, a with
  | O, [] => [v]
  | O, _ :: t => v :: t
  | S i', [] => NaN :: array_set [] i' v
  | S i', h :: t => h :: array_set t i' v
  end.

(** What a call throws: a property read on [null], a typed array asked of
    a buffer whose length is no multiple of the element size, the string
    of line 236 of [nvimage.js], the [Error] of its line 651, a rejected
    promise, or whatever a library function throws. *)
Inductive exn :=
  | TypeError
  | RangeError
  | UnsupportedDatatype (datatypeCode : Z)
  | HttpError (statusText : String.string)
  | Rejected (reason : String.string)
  | LibraryError (what : String.string).

Inductive outcome (A : Type) :=
  | Returned (a : A)
  | Thrown (e : exn).
Arguments Returned {A} a.
Arguments Thrown {A} e.

Declare Scope js_scope.
Delimit Scope js_scope with js.
Bind Scope js_scope with number.
Infix "+" := add : js_scope.
Infix "-" := sub : js_scope.
Infix "*" := mul : js_scope.
Infix "/" := div : js_scope.

End JS.

(** ** The image object of [nvimage.js] *)

Module NVImage.
Import JS.

(** *** Header data

    The header is the object returned by the NIfTI reader: [dims] and
    [pixDims] are arrays of eight numbers, [affine] is an array of four
    rows of four numbers. *)

Record row4 := Row { e0 : number; e1 : number; e2 : number; e3 : number }.
Record mat44 := Mat { r0 : row4; r1 : row4; r2 : row4; r3 : row4 }.

Definition row_get (r : row4) (j : nat) : number :=
  match j with
  | 0 => e0 r | 1 => e1 r | 2 => e2 r | 3 => e3 r
  | _ => NaN
  end%nat.

Definition row_set (r : row4) (j : nat) (v : number) : row4 :=
  match j with
  | 0 => Row v (e1 r) (e2 r) (e3 r)
  | 1 => Row (e0 r) v (e2 r) (e3 r)
  | 2 => Row (e0 r) (e1 r) v (e3 r)
  | 3 => Row (e0 r) (e1 r) (e2 r) v
  | _ => r
  end%nat.

Definition mat_row (m : mat44) (i : nat) : row4 :=
  match i with
  | 0 => r0 m | 1 => r1 m | 2 => r2 m | 3 => r3 m
  | _ => Row NaN NaN NaN NaN
  end%nat.

(** [mtx[i][j]]; every use below has [i, j < 4]. *)
Definition mat_get (m : mat44) (i j : nat) : number := row_get (mat_row m i) j.

(** [mtx[i][j] = v], in place. *)
Definition mat_set (m : mat44) (i j : nat) (v : number) : mat44 :=
  match i with
  | 0 => Mat (row_set (r0 m) j v) (r1 m) (r2 m) (r3 m)
  | 1 => Mat (r0 m) (row_set (r1 m) j v) (r2 m) (r3 m)
  | 2 => Mat (r0 m) (r1 m) (row_set (r2 m) j v) (r3 m)
  | 3 => Mat (r0 m) (r1 m) (r2 m) (row_set (r3 m) j v)
  | _ => m
  end%nat.

Module Header.
Record t := Build {
  dims : list number;
  pixDims : list number;
  affine : mat44;
  quatern_b : number;
  quatern_c : number;
  quatern_d : number;
  qoffset_x : number;
  qoffset_y : number;
  qoffset_z : number;
  qform_code : number;
  sform_code : number;
  scl_slope : number;
  scl_inter : number;
  cal_min : number;
  cal_max : number;
  datatypeCode : Z
}.

Definition set_scl_slope (h : t) (v : number) : t :=
  Build (dims h) (pixDims h) (affine h) (quatern_b h) (quatern_c h)
    (quatern_d h) (qoffset_x h) (qoffset_y h) (qoffset_z h) (qform_code h)
    (sform_code h) v (scl_inter h) (cal_min h) (cal_max h) (datatypeCode h).

Definition set_scl_inter (h : t) (v : number) : t :=
  Build (dims h) (pixDims h) (affine h) (quatern_b h) (quatern_c h)
    (quatern_d h) (qoffset_x h) (qoffset_y h) (qoffset_z h) (qform_code h)
    (sform_code h) (scl_slope h) v (cal_min h) (cal_max h) (datatypeCode h).

Definition set_affine (h : t) (a : mat44) : t :=
  Build (dims h) (pixDims h) a (quatern_b h) (quatern_c h)
    (quatern_d h) (qoffset_x h) (qoffset_y h) (qoffset_z h) (qform_code h)
    (sform_code h) (scl_slope h) (scl_inter h) (cal_min h) (cal_max h)
    (datatypeCode h).

Definition set_pixDims (h : t) (p : list number) : t :=
  Build (dims h) p (affine h) (quatern_b h) (quatern_c h)
    (quatern_d h) (qoffset_x h) (qoffset_y h) (qoffset_z h) (qform_code h)
    (sform_code h) (scl_slope h) (scl_inter h) (cal_min h) (cal_max h)
    (datatypeCode h).

Definition set_datatypeCode (h : t) (c : Z) : t :=
  Build (dims h) (pixDims h) (affine h) (quatern_b h) (quatern_c h)
    (quatern_d h) (qoffset_x h) (qoffset_y h) (qoffset_z h) (qform_code h)
    (sform_code h) (scl_slope h) (scl_inter h) (cal_min h) (cal_max h) c.
End Header.

(** *** [isAffineOK] (constructor, lines 80-102) *)

(** First loop nest: [if (isNaN(mtx[i][j])) return false]. *)
Definition hasNaN (mtx : mat44) : bool :=
  existsb (fun i => existsb (fun j => isNaN (mat_get mtx i j)) (seq 0 4))
    (seq 0 4).

(** Second loop nest: the flags [iOK] and [jOK] after it. *)
Definition markNonZero (mtx : mat44) : list bool * list bool :=
  fold_left
    (fun st i =>
       fold_left
         (fun (flags : list bool * list bool) j =>
            if strict_eq (mat_get mtx i j) zero then flags
            else (<[i := true]> (fst flags), <[j := true]> (snd flags)))
         (seq 0 3) st)
    (seq 0 3)
    ([false; false; false; false], [false; false; false; false]).

(** [mtx[i][j]] is not zero. *)
Definition nonZero (m : mat44) (i j : nat) : bool :=
  negb (strict_eq (mat_get m i j) zero).

Definition isAffineOK (mtx : mat44) : bool :=
  if hasNaN mtx then false
  else
    let flags := markNonZero mtx in
    forallb (fun i => nth i (fst flags) false && nth i (snd flags) false)
      (seq 0 3).

(** *** Resolution of the affine (constructor, lines 103-177) *)

Section Constructor.

(** [Math.pow], which the language leaves implementation-approximated. *)
Variable Math_pow : number -> number -> number.

Local Open Scope js_scope.

(** [a = Math.sqrt(1.0 - (b^2 + c^2 + d^2))]. *)
Definition quatern_a (b c d : number) : number :=
  Math_sqrt (one - (Math_pow b two + Math_pow c two + Math_pow d two)).

Definition quatern_R (a b c d : number) : list (list number) :=
  [ [ a * a + b * b - c * c - d * d;
      two * b * c - two * a * d;
      two * b * d + two * a * c ];
    [ two * b * c + two * a * d;
      a * a + c * c - b * b - d * d;
      two * c * d - two * a * b ];
    [ two * b * d - two * a * c;
      two * c * d + two * a * b;
      a * a + d * d - c * c - b * b ] ].

(** [this.hdr.pixDims[0] === 0 ? 1 : this.hdr.pixDims[0]]. *)
Definition qfac (pixDims : list number) : number :=
  if value_strict_eq (array_get pixDims 0) (Num zero) then one
  else toNumber (array_get pixDims 0).

(** The two loops over [ctrOut] and [ctrIn], and the offset column; the
    array [this.hdr.affine] is updated in place, so its last row stays. *)
Definition qformAffine (hdr : Header.t) : mat44 :=
  let b := Header.quatern_b hdr in
  let c := Header.quatern_c hdr in
  let d := Header.quatern_d hdr in
  let a := quatern_a b c d in
  let qf := qfac (Header.pixDims hdr) in
  let R := quatern_R a b c d in
  let affine :=
    fold_left
      (fun affine ctrOut =>
         fold_left
           (fun affine ctrIn =>
              let v := nth ctrIn (nth ctrOut R []) NaN
                       * toNumber (array_get (Header.pixDims hdr) (ctrIn + 1)) in
              let affine := mat_set affine ctrOut ctrIn v in
              if Nat.eqb ctrIn 2
              then mat_set affine ctrOut ctrIn (mat_get affine ctrOut ctrIn * qf)
              else affine)
           (seq 0 3) affine)
      (seq 0 3) (Header.affine hdr) in
  let affine := mat_set affine 0 3 (Header.qoffset_x hdr) in
  let affine := mat_set affine 1 3 (Header.qoffset_y hdr) in
  let affine := mat_set affine 2 3 (Header.qoffset_z hdr) in
  affine.

(** [if (isNaN(x) || x === 0.0) x = 1.0] on a spacing read from [pixDims]. *)
Definition usableSpacing (x : value) : number :=
  if isNaN (toNumber x) || value_strict_eq x (Num zero) then one
  else toNumber x.

Definition diagonalAffine (x y z : number) : mat44 :=
  Mat (Row x zero zero zero)
      (Row zero y zero zero)
      (Row zero zero z zero)
      (Row zero zero zero one).

(** Lines 103-105. *)
Definition fixScaling (hdr : Header.t) : Header.t :=
  let hdr :=
    if isNaN (Header.scl_slope hdr) || strict_eq (Header.scl_slope hdr) zero
    then Header.set_scl_slope hdr one else hdr in
  if isNaN (Header.scl_inter hdr) then Header.set_scl_inter hdr zero else hdr.

(** Lines 106-157: the affine after the choice between the matrix form and
    the quaternion form, with the debug line logged. *)
Definition chooseAffine (useQFormNotSForm : bool) (hdr : Header.t)
  : Header.t * list string :=
  let affineOK := isAffineOK (Header.affine hdr) in
  if useQFormNotSForm || negb affineOK
     || gt (Header.qform_code hdr) (Header.sform_code hdr)
  then (Header.set_affine hdr (qformAffine hdr),
        ["spatial transform based on QForm"%string])
  else (hdr, []).

(** Lines 158-177: re-validation and the diagonal fallback. *)
Definition repairAffine (hdr : Header.t) : Header.t * list string :=
  if negb (isAffineOK (Header.affine hdr)) then
    let pd := Header.pixDims hdr in
    let x := usableSpacing (array_get pd 1) in
    let y := usableSpacing (array_get pd 2) in
    let z := usableSpacing (array_get pd 3) in
    let pd := array_set (array_set (array_set pd 1 x) 2 y) 3 z in
    (Header.set_affine (Header.set_pixDims hdr pd) (diagonalAffine x y z),
     ["Defective NIfTI: spatial transform does not make sense"%string])
  else (hdr, []).

(** The affine-resolution step of the constructor: the header it leaves in
    [this.hdr] and the lines it logs. *)
Definition resolveAffine (useQFormNotSForm : bool) (hdr : Header.t)
  : Header.t * list string :=
  let hdr := fixScaling hdr in
  let '(hdr, log1) := chooseAffine useQFormNotSForm hdr in
  let '(hdr, log2) := repairAffine hdr in
  (hdr, log1 ++ log2).

End Constructor.

(** The same notion in the words of the data model: no entry is NaN, and no
    row and no column of the upper-left 3x3 block is all zeros. *)
Definition wellFormed (m : mat44) : Prop :=
  (forall i j, (i < 4)%nat -> (j < 4)%nat -> isNaN (mat_get m i j) = false) /\
  (forall i, (i < 3)%nat ->
     exists j, (j < 3)%nat /\ strict_eq (mat_get m i j) zero = false) /\
  (forall j, (j < 3)%nat ->
     exists i, (i < 3)%nat /\ strict_eq (mat_get m i j) zero = false).

(** *** [calculateRAS] (lines 279-413) *)

(** [arrayEquals] on arrays of integers. *)
Fixpoint every_eq (a b : list Z) : bool :=
  match a, b with
  | [], _ => true
  | x :: a', y :: b' => Z.eqb x y && every_eq a' b'
  | _ :: _, [] => false
  end.

Definition arrayEquals (a b : list Z) : bool :=
  Nat.eqb (List.length a) (List.length b) && every_eq a b.

(** [a[i]] on an array of small integers ([ixyz], [perm], [flip]), all
    reads being in range. *)
Definition int_get (a : list Z) (i : nat) : Z := nth i a 0%Z.

(** Matrices of gl-matrix are flat arrays of [glMatrix.ARRAY_TYPE]. *)
Definition glmat := list number.

(** An element read from a matrix. *)
Definition glmat_get (a : glmat) (k : nat) : number := nth k a NaN.

Section GlMatrix.

(** The conversion applied when a number is stored into an array of
    [glMatrix.ARRAY_TYPE]: rounding to binary32 for the default
    [Float32Array], nothing for [Array].  A value read from such an array is
    already of the element type and is stored back unchanged. *)
Variable stored : number -> number.

(** [mat4.invert(out, a)] and [mat4.multiply(out, a, b)] of gl-matrix: the
    contents of [out] afterwards. *)
Variable mat4_invert : glmat -> glmat -> glmat.
Variable mat4_multiply : glmat -> glmat -> glmat.

Definition mat3_fromValues (m00 m01 m02 m10 m11 m12 m20 m21 m22 : number)
  : glmat :=
  map stored [m00; m01; m02; m10; m11; m12; m20; m21; m22].

Definition mat4_fromValues
  (m00 m01 m02 m03 m10 m11 m12 m13 m20 m21 m22 m23 m30 m31 m32 m33 : number)
  : glmat :=
  map stored [m00; m01; m02; m03; m10; m11; m12; m13;
              m20; m21; m22; m23; m30; m31; m32; m33].

(** [mat4.create()]: the identity; 0 and 1 are values of every element
    type. *)
Definition mat4_create : glmat :=
  [one; zero; zero; zero; zero; one; zero; zero;
   zero; zero; one; zero; zero; zero; zero; one].

Definition mat4_clone (a : glmat) : glmat := a.
Definition mat4_copy (out a : glmat) : glmat := a.
Definition mat4_identity (out : glmat) : glmat := mat4_create.

(** [m[k] = v] for a computed number [v]. *)
Definition glmat_set (m : glmat) (k : nat) (v : number) : glmat :=
  <[k := stored v]> m.

Local Open Scope Z_scope.

(** Lines 285-295. *)
Definition absR (a : mat44) : glmat :=
  mat3_fromValues
    (Math_abs (mat_get a 0 0)) (Math_abs (mat_get a 0 1))
    (Math_abs (mat_get a 0 2)) (Math_abs (mat_get a 1 0))
    (Math_abs (mat_get a 1 1)) (Math_abs (mat_get a 1 2))
    (Math_abs (mat_get a 2 0)) (Math_abs (mat_get a 2 1))
    (Math_abs (mat_get a 2 2)).

(** Lines 296-328. *)
Definition calculateRAS_ixyz (a : mat44) : list Z :=
  let absR := absR a in
  let ixyz := [1; 1; 1] in
  let ixyz :=
    if gt (glmat_get absR 3) (glmat_get absR 0) then <[0%nat := 2]> ixyz
    else ixyz in
  let ixyz :=
    if gt (glmat_get absR 6) (glmat_get absR 0)
       && gt (glmat_get absR 6) (glmat_get absR 3)
    then <[0%nat := 3]> ixyz else ixyz in
  let ixyz := <[1%nat := 1]> ixyz in
  let ixyz :=
    if int_get ixyz 0 =? 1 then
      if gt (glmat_get absR 4) (glmat_get absR 7) then <[1%nat := 2]> ixyz
      else <[1%nat := 3]> ixyz
    else if int_get ixyz 0 =? 2 then
      if gt (glmat_get absR 1) (glmat_get absR 7) then <[1%nat := 1]> ixyz
      else <[1%nat := 3]> ixyz
    else
      if gt (glmat_get absR 1) (glmat_get absR 4) then <[1%nat := 1]> ixyz
      else <[1%nat := 2]> ixyz in
  <[2%nat := 6 - int_get ixyz 1 - int_get ixyz 0]> ixyz.

(** Lines 329-332. *)
Definition calculateRAS_perm (a : mat44) : list Z :=
  let ixyz := calculateRAS_ixyz a in
  let perm := [1; 2; 3] in
  let perm := <[Z.to_nat (int_get ixyz 0 - 1) := 1]> perm in
  let perm := <[Z.to_nat (int_get ixyz 1 - 1) := 2]> perm in
  let perm := <[Z.to_nat (int_get ixyz 2 - 1) := 3]> perm in
  perm.

(** Lines 333-350. *)
Definition calculateRAS_rotM (a : mat44) : glmat :=
  mat4_fromValues
    (mat_get a 0 0) (mat_get a 0 1) (mat_get a 0 2) (mat_get a 0 3)
    (mat_get a 1 0) (mat_get a 1 1) (mat_get a 1 2) (mat_get a 1 3)
    (mat_get a 2 0) (mat_get a 2 1) (mat_get a 2 2) (mat_get a 2 3)
    zero zero zero one.

(** Lines 356-362: [R], a copy of [rotM] with permuted entries. *)
Definition calculateRAS_R (rotM : glmat) (perm : list Z) : glmat :=
  fold_left
    (fun R i =>
       fold_left
         (fun R j =>
            <[(i * 4 + j)%nat :=
                glmat_get rotM (Z.to_nat (Z.of_nat i * 4 + int_get perm j - 1))]> R)
         (seq 0 3) R)
    (seq 0 3) (mat4_copy mat4_create rotM).

(** Lines 363-372. *)
Definition calculateRAS_flip (a : mat44) : list Z :=
  let R := calculateRAS_R (calculateRAS_rotM a) (calculateRAS_perm a) in
  let flip := [0; 0; 0] in
  let flip := if lt (glmat_get R 0) zero then <[0%nat := 1]> flip else flip in
  let flip := if lt (glmat_get R 5) zero then <[1%nat := 1]> flip else flip in
  let flip := if lt (glmat_get R 10) zero then <[2%nat := 1]> flip else flip in
  flip.

(** What [calculateRAS] leaves in the image, together with its locals
    [perm] and [flip].  The corner points [mm000] ... [mm001] and the
    [obliqueRAS] matrix of [calculateOblique] are further fields, written
    from [rotM] and [matRAS] and read by nothing here. *)
Record RAS := BuildRAS {
  perm : list Z;
  flip : list Z;
  dimsRAS : list value;
  pixDimsRAS : list value;
  toRAS : glmat;
  matRAS : glmat
}.

Definition calculateRAS (hdr : Header.t) : RAS :=
  let a := Header.affine hdr in
  let header := hdr in
  let perm := calculateRAS_perm a in
  let rotM := calculateRAS_rotM a in
  let R := calculateRAS_R rotM perm in
  let flip := calculateRAS_flip a in
  let dim (k : nat) := array_get (Header.dims header) (Z.to_nat (int_get perm k)) in
  let pixDim (k : nat) :=
    array_get (Header.pixDims header) (Z.to_nat (int_get perm k)) in
  let dimsRAS := [array_get (Header.dims header) 0; dim 0%nat; dim 1%nat; dim 2%nat] in
  let pixDimsRAS :=
    [array_get (Header.pixDims header) 0; pixDim 0%nat; pixDim 1%nat; pixDim 2%nat] in
  if arrayEquals perm [1; 2; 3] && arrayEquals flip [0; 0; 0] then
    BuildRAS perm flip dimsRAS pixDimsRAS mat4_create (mat4_clone rotM)
  else
    let rotM := mat4_identity rotM in
    let rotM := glmat_set rotM (0 + 0 * 4) (ofZ (1 - int_get flip 0 * 2)) in
    let rotM := glmat_set rotM (1 + 1 * 4) (ofZ (1 - int_get flip 1 * 2)) in
    let rotM := glmat_set rotM (2 + 2 * 4) (ofZ (1 - int_get flip 2 * 2)) in
    let rotM :=
      glmat_set rotM (3 + 0 * 4)
        (mul (sub (toNumber (dim 0%nat)) one) (ofZ (int_get flip 0))) in
    let rotM :=
      glmat_set rotM (3 + 1 * 4)
        (mul (sub (toNumber (dim 1%nat)) one) (ofZ (int_get flip 1))) in
    let rotM :=
      glmat_set rotM (3 + 2 * 4)
        (mul (sub (toNumber (dim 2%nat)) one) (ofZ (int_get flip 2))) in
    let residualR := mat4_create in
    let residualR := mat4_invert residualR rotM in
    let residualR := mat4_multiply residualR R in
    let matRAS := mat4_clone residualR in
    let rotM :=
      mat4_fromValues zero zero zero zero zero zero zero zero
        zero zero zero zero zero zero zero one in
    let rotM :=
      glmat_set rotM (Z.to_nat (int_get perm 0 - 1 + 0 * 4))
        (ofZ (- int_get flip 0 * 2 + 1)) in
    let rotM :=
      glmat_set rotM (Z.to_nat (int_get perm 1 - 1 + 1 * 4))
        (ofZ (- int_get flip 1 * 2 + 1)) in
    let rotM :=
      glmat_set rotM (Z.to_nat (int_get perm 2 - 1 + 2 * 4))
        (ofZ (- int_get flip 2 * 2 + 1)) in
    let rotM := glmat_set rotM (3 + 0 * 4) (ofZ (int_get flip 0)) in
    let rotM := glmat_set rotM (3 + 1 * 4) (ofZ (int_get flip 1)) in
    let rotM := glmat_set rotM (3 + 2 * 4) (ofZ (int_get flip 2)) in
    BuildRAS perm flip dimsRAS pixDimsRAS (mat4_clone rotM) matRAS.

End GlMatrix.

(** The native affine as a flat 4x4 matrix with bottom row 0, 0, 0, 1. *)
Definition nativeAffine (a : mat44) : glmat :=
  [mat_get a 0 0; mat_get a 0 1; mat_get a 0 2; mat_get a 0 3;
   mat_get a 1 0; mat_get a 1 1; mat_get a 1 2; mat_get a 1 3;
   mat_get a 2 0; mat_get a 2 1; mat_get a 2 2; mat_get a 2 3;
   zero; zero; zero; one].

(** A header with the affine of an axial acquisition of 2 mm voxels. *)
Definition scannerHeader : Header.t :=
  Header.Build (map ofZ [3; 2; 2; 2; 1; 1; 1; 1]%Z)
    (map ofZ [1; 2; 2; 2; 0; 0; 0; 0]%Z)
    (Mat (Row two zero zero (ofZ (-90)))
         (Row zero two zero (ofZ (-126)))
         (Row zero zero two (ofZ (-72)))
         (Row zero zero zero one))
    zero zero zero zero zero zero zero one one zero zero zero 2.

(** The number 0.1, and a header with the affine of an axial acquisition
    of 0.1 mm voxels. *)
Definition tenth : number := Eval vm_compute in div (ofZ 1) (ofZ 10).

Definition fineHeader : Header.t :=
  Header.set_affine scannerHeader
    (Mat (Row tenth zero zero zero) (Row zero tenth zero zero)
         (Row zero zero tenth zero) (Row zero zero zero one)).

(** *** The datatype switch of the constructor (lines 185-237) *)

Definition DT_UNSIGNED_CHAR : Z := 2.
Definition DT_SIGNED_SHORT : Z := 4.
Definition DT_SIGNED_INT : Z := 8.
Definition DT_FLOAT : Z := 16.
Definition DT_DOUBLE : Z := 64.
Definition DT_RGB : Z := 128.
Definition DT_INT8 : Z := 256.
Definition DT_UINT16 : Z := 512.
Definition DT_UINT32 : Z := 768.
Definition DT_INT64 : Z := 1024.
Definition DT_RGBA32 : Z := 2304.

(** The raw image bytes [imgRaw]: an [ArrayBuffer] is a sequence of
    bytes. *)
Definition ArrayBuffer := list Byte.byte.

Definition byteValue (b : Byte.byte) : Z := Z.of_N (Byte.to_N b).

(** The first [n] groups of [k] bytes. *)
Fixpoint chunks (k n : nat) (bytes : list Byte.byte) : list (list Byte.byte) :=
  match n with
  | O => []
  | S n => firstn k bytes :: chunks k n (skipn k bytes)
  end.

(** The unsigned integer a group of bytes holds, least significant byte
    first: typed arrays read in the byte order of the platform, which is
    little-endian wherever the viewer runs. *)
Definition littleEndian (bytes : list Byte.byte) : Z :=
  fold_right (fun b acc => byteValue b + 256 * acc)%Z 0%Z bytes.

(** The unsigned elements of [k] bytes each that a buffer holds. *)
Definition words (k : nat) (imgRaw : ArrayBuffer) : list Z :=
  map littleEndian (chunks k (List.length imgRaw / k) imgRaw).

(** Two's complement: the signed reading of an unsigned integer of a
    given number of bits. *)
Definition signed (bits : Z) (u : Z) : Z :=
  if (u <? 2 ^ (bits - 1))%Z then u else (u - 2 ^ bits)%Z.

(** The IEEE-754 value of the bits [w] of a float with [mbits] bits of
    significand and [ebits] bits of exponent (23 and 8 for binary32, 52 and
    11 for binary64), as a number. *)
Definition decodeFloat (mbits ebits : Z) (w : Z) : number :=
  let s := (0 <? w / 2 ^ (mbits + ebits))%Z in
  let e := ((w / 2 ^ mbits) mod 2 ^ ebits)%Z in
  let m := (w mod 2 ^ mbits)%Z in
  let bias := (2 ^ (ebits - 1) - 1)%Z in
  let sgn (v : Z) := if s then (- v)%Z else v in
  if (e =? 2 ^ ebits - 1)%Z then
    if (m =? 0)%Z then S754_infinity s else NaN
  else if (e =? 0)%Z then
    if (m =? 0)%Z then S754_zero s
    else binary_normalize prec emax (sgn m) (1 - bias - mbits) s
  else binary_normalize prec emax (sgn (m + 2 ^ mbits)%Z) (e - bias - mbits) s.

(** The elements of each typed view the switch may take of the bytes
    ([new Int8Array(imgRaw)] and so on), when the view exists. *)
Definition asUint8 (imgRaw : ArrayBuffer) : list Z := map byteValue imgRaw.
Definition asInt8 (imgRaw : ArrayBuffer) : list Z :=
  map (fun b => signed 8 (byteValue b)) imgRaw.
Definition asUint16 (imgRaw : ArrayBuffer) : list Z := words 2 imgRaw.
Definition asInt16 (imgRaw : ArrayBuffer) : list Z :=
  map (signed 16) (words 2 imgRaw).
Definition asUint32 (imgRaw : ArrayBuffer) : list Z := words 4 imgRaw.
Definition asInt32 (imgRaw : ArrayBuffer) : list Z :=
  map (signed 32) (words 4 imgRaw).
Definition asBigInt64 (imgRaw : ArrayBuffer) : list Z :=
  map (signed 64) (words 8 imgRaw).
Definition asFloat32 (imgRaw : ArrayBuffer) : list number :=
  map (decodeFloat 23 8) (words 4 imgRaw).
Definition asFloat64 (imgRaw : ArrayBuffer) : list number :=
  map (decodeFloat 52 11) (words 8 imgRaw).

(** A typed array of elements of [k] bytes can be made of a buffer only
    when the byte length of the buffer is a multiple of [k]; the
    constructor throws a [RangeError] otherwise. *)
Definition aligned (k : nat) (imgRaw : ArrayBuffer) : bool :=
  Nat.eqb (List.length imgRaw mod k) 0.

(** The typed arrays [this.img] can be. *)
Inductive TypedArray :=
  | Uint8Array (a : list Z)
  | Int16Array (a : list Z)
  | Uint16Array (a : list Z)
  | Float32Array (a : list number)
  | Float64Array (a : list number).

(** The elements of a typed array as the numbers a read returns. *)
Definition elements (t : TypedArray) : list number :=
  match t with
  | Uint8Array a | Int16Array a | Uint16Array a => map ofZ a
  | Float32Array a | Float64Array a => a
  end.

(** The conversion of a store into an [Int16Array]. *)
Definition toInt16 (z : Z) : Z := ((z + 32768) mod 65536 - 32768)%Z.

(** [for (var i = 0; i < vx - 1; i++) this.img[i] = conv(src[i])], on a
    destination of [vx] zeros. *)
Definition widenLoop {A B : Type} (conv : A -> B) (d : A) (src : list A)
  (out : list B) : list B :=
  fold_left (fun img i => <[i := conv (nth i src d)]> img)
    (seq 0 (List.length src - 1)) out.

Definition widenInt8 (i8 : list Z) : list Z :=
  widenLoop toInt16 0%Z i8 (replicate (List.length i8) 0%Z).

Definition widenUint32 (u32 : list Z) : list number :=
  widenLoop ofZ 0%Z u32 (replicate (List.length u32) zero).

Definition widenInt32 (i32 : list Z) : list number :=
  widenLoop ofZ 0%Z i32 (replicate (List.length i32) zero).

(** [this.img[i] = Number(i64[i])]. *)
Definition widenInt64 (i64 : list Z) : list number :=
  widenLoop ofZ 0%Z i64 (replicate (List.length i64) zero).

(** The switch: the voxel array and the datatype code it leaves, or what
    it throws: a [RangeError] from the constructor of a typed array, the
    string of the [default] case on an unsupported datatype. *)
Definition convertVoxels (datatypeCode : Z) (imgRaw : ArrayBuffer)
  : outcome (TypedArray * Z) :=
  if (datatypeCode =? DT_UNSIGNED_CHAR)%Z then
    Returned (Uint8Array (asUint8 imgRaw), datatypeCode)
  else if (datatypeCode =? DT_SIGNED_SHORT)%Z then
    if aligned 2 imgRaw
    then Returned (Int16Array (asInt16 imgRaw), datatypeCode)
    else Thrown RangeError
  else if (datatypeCode =? DT_FLOAT)%Z then
    if aligned 4 imgRaw
    then Returned (Float32Array (asFloat32 imgRaw), datatypeCode)
    else Thrown RangeError
  else if (datatypeCode =? DT_DOUBLE)%Z then
    if aligned 8 imgRaw
    then Returned (Float64Array (asFloat64 imgRaw), datatypeCode)
    else Thrown RangeError
  else if (datatypeCode =? DT_RGB)%Z then
    Returned (Uint8Array (asUint8 imgRaw), datatypeCode)
  else if (datatypeCode =? DT_UINT16)%Z then
    if aligned 2 imgRaw
    then Returned (Uint16Array (asUint16 imgRaw), datatypeCode)
    else Thrown RangeError
  else if (datatypeCode =? DT_RGBA32)%Z then
    Returned (Uint8Array (asUint8 imgRaw), datatypeCode)
  else if (datatypeCode =? DT_INT8)%Z then
    Returned (Int16Array (widenInt8 (asInt8 imgRaw)), DT_SIGNED_SHORT)
  else if (datatypeCode =? DT_UINT32)%Z then
    if aligned 4 imgRaw
    then Returned (Float64Array (widenUint32 (asUint32 imgRaw)), DT_DOUBLE)
    else Thrown RangeError
  else if (datatypeCode =? DT_SIGNED_INT)%Z then
    if aligned 4 imgRaw
    then Returned (Float64Array (widenInt32 (asInt32 imgRaw)), DT_DOUBLE)
    else Thrown RangeError
  else if (datatypeCode =? DT_INT64)%Z then
    if aligned 8 imgRaw
    then Returned (Float64Array (widenInt64 (asBigInt64 imgRaw)), DT_DOUBLE)
    else Thrown RangeError
  else Thrown (UnsupportedDatatype datatypeCode).

(** The integer value of each element of a voxel array, when it has one. *)
Definition integerElements (t : TypedArray) : list (option Z) :=
  match t with
  | Uint8Array a | Int16Array a | Uint16Array a => map Some a
  | Float32Array a | Float64Array a => map toZ a
  end.

(** What the data model asks of a widening: every voxel of the source is
    found, with its value, at the same index of the voxel array. *)
Definition preservesEveryVoxel (src : list Z) (img : TypedArray) : Prop :=
  forall i v, nth_error src i = Some v ->
    nth_error (integerElements img) i = Some (Some v).

(** The sixteen bytes 01 00 00 00 00 00 00 00 FF FF FF FF FF FF FF FF. *)
Definition sixteenBytes : ArrayBuffer :=
  [Byte.x01; Byte.x00; Byte.x00; Byte.x00; Byte.x00; Byte.x00; Byte.x00;
   Byte.x00; Byte.xff; Byte.xff; Byte.xff; Byte.xff; Byte.xff; Byte.xff;
   Byte.xff; Byte.xff].

(** *** The image object *)

(** Voxel arrays live in a store and are held by reference. *)
Definition loc := positive.
Abbreviation store := (gmap loc TypedArray).

Record Image := BuildImage {
  name : String.string;
  id : String.string;
  colorMap : String.string;
  opacity : number;
  percentileFrac : number;
  ignoreZeroVoxels : bool;
  trustCalMinMax : bool;
  visible : bool;
  hdr : Header.t;
  img : loc;
  ras : option RAS;
  cal_min : value;
  cal_max : value;
  robust_min : value;
  robust_max : value;
  global_min : value;
  global_max : value
}.

Definition set_hdr (this : Image) (h : Header.t) : Image :=
  BuildImage (name this) (id this) (colorMap this) (opacity this)
    (percentileFrac this) (ignoreZeroVoxels this) (trustCalMinMax this)
    (visible this) h (img this) (ras this) (cal_min this) (cal_max this)
    (robust_min this) (robust_max this) (global_min this) (global_max this).

Definition set_ras (this : Image) (r : RAS) : Image :=
  BuildImage (name this) (id this) (colorMap this) (opacity this)
    (percentileFrac this) (ignoreZeroVoxels this) (trustCalMinMax this)
    (visible this) (hdr this) (img this) (Some r) (cal_min this)
    (cal_max this) (robust_min this) (robust_max this) (global_min this)
    (global_max this).

(** [this.cal_min = a; this.cal_max = b; this.robust_min = this.cal_min;
    this.robust_max = this.cal_max]. *)
Definition set_cal_robust (this : Image) (a b : value) : Image :=
  BuildImage (name this) (id this) (colorMap this) (opacity this)
    (percentileFrac this) (ignoreZeroVoxels this) (trustCalMinMax this)
    (visible this) (hdr this) (img this) (ras this) a b a b
    (global_min this) (global_max this).

(** [this.global_min = a; this.global_max = b]. *)
Definition set_global (this : Image) (a b : value) : Image :=
  BuildImage (name this) (id this) (colorMap this) (opacity this)
    (percentileFrac this) (ignoreZeroVoxels this) (trustCalMinMax this)
    (visible this) (hdr this) (img this) (ras this) (cal_min this)
    (cal_max this) (robust_min this) (robust_max this) a b.

(** *** [calMinMax] (lines 466-614) and [intensityRaw2Scaled] *)

(** [v != w], the loose inequality, on values. *)
Definition value_loose_neq (v w : value) : bool :=
  match v, w with
  | Undefined, Undefined => false
  | Num x, Num y => negb (strict_eq x y)
  | _, _ => true
  end.

(** Lines 617-620; the header may be updated. *)
Definition intensityRaw2Scaled (hdr : Header.t) (raw : value)
  : Header.t * number :=
  let hdr :=
    if strict_eq (Header.scl_slope hdr) zero then Header.set_scl_slope hdr one
    else hdr in
  (hdr, add (mul (toNumber raw) (Header.scl_slope hdr)) (Header.scl_inter hdr)).

(** The locals of the scan of lines 506-524. *)
Record Scan := BuildScan { mn : value; mx : value; nZero : Z; nNan : Z }.

(** One iteration of the scan, on the voxel [this.img[i]]. *)
Definition scanStep (ignoreZeroVoxels : bool) (st : Scan) (v : number) : Scan :=
  if isNaN v then BuildScan (mn st) (mx st) (nZero st) (nNan st + 1)
  else
    let isZero := strict_eq v zero in
    let nZero' := if isZero then (nZero st + 1)%Z else nZero st in
    if isZero && ignoreZeroVoxels then BuildScan (mn st) (mx st) nZero' (nNan st)
    else BuildScan (Num (Math_min v (toNumber (mn st))))
           (Num (Math_max v (toNumber (mx st)))) nZero' (nNan st).

Definition scanVoxels (ignoreZeroVoxels : bool) (img : list number) : Scan :=
  fold_left (scanStep ignoreZeroVoxels) img
    (BuildScan (array_get img 0) (array_get img 0) 0 0).

(** The histogram [hist]: an array of [nBins] counters, which a store at
    another integer key extends. *)
Definition nBins : Z := 1001.

Abbreviation histogram := (gmap Z number).

Definition hist_get (hist : histogram) (k : Z) : value :=
  match hist !! k with Some x => Num x | None => Undefined end.

(** [hist[k]++] for a number [k]; a key that is no integer (NaN, an
    infinity) names a property no counter reads. *)
Definition hist_incr (hist : histogram) (k : number) : histogram :=
  match toZ k with
  | Some z => <[z := add (toNumber (hist_get hist z)) one]> hist
  | None => hist
  end.

Definition hist_init : histogram :=
  list_to_map (map (fun i => (Z.of_nat i, zero)) (seq 0 (Z.to_nat nBins))).

(** Lines 546-559: both loops run [i] from 0 to [nVox] included. *)
Definition buildHistogram (ignoreZeroVoxels : bool) (img : list number)
  (mn scl : number) : histogram :=
  fold_left
    (fun hist i =>
       let v := array_get img i in
       if ignoreZeroVoxels && value_strict_eq v (Num zero) then hist
       else if isNaN (toNumber v) then hist
       else hist_incr hist (Math_round (mul (sub (toNumber v) mn) scl)))
    (seq 0 (List.length img + 1)) hist_init.

(** Lines 560-565: [while (n < n2pct) { n += hist[lo]; lo++; }]. *)
Fixpoint walkLo (fuel : nat) (hist : histogram) (n2pct n : number) (lo : Z)
  : option Z :=
  match fuel with
  | O => None
  | S fuel =>
      if lt n n2pct
      then walkLo fuel hist n2pct (add n (toNumber (hist_get hist lo))) (lo + 1)
      else Some lo
  end.

(** Lines 567-572: [while (n < n2pct) { hi--; n += hist[hi]; }]. *)
Fixpoint walkHi (fuel : nat) (hist : histogram) (n2pct n : number) (hi : Z)
  : option Z :=
  match fuel with
  | O => None
  | S fuel =>
      if lt n n2pct
      then walkHi fuel hist n2pct (add n (toNumber (hist_get hist (hi - 1))))
             (hi - 1)
      else Some hi
  end.

(** Lines 575-586: the loop [while (ok !== 0)]; [ok] is -1 whenever its
    body starts. *)
Fixpoint spread (fuel : nat) (hist : histogram) (lo hi : Z) : option (Z * Z) :=
  match fuel with
  | O => None
  | S fuel =>
      let ok := (-1)%Z in
      let '(lo, ok) :=
        if (0 <? lo)%Z then
          let lo := (lo - 1)%Z in
          (lo, if gt (toNumber (hist_get hist lo)) zero then 0%Z else ok)
        else (lo, ok) in
      let '(hi, ok) :=
        if negb (ok =? 0)%Z && (hi <? nBins - 1)%Z then
          let hi := (hi + 1)%Z in
          (hi, if gt (toNumber (hist_get hist hi)) zero then 0%Z else ok)
        else (hi, ok) in
      let ok := if (lo =? 0)%Z && (hi =? nBins - 1)%Z then 0%Z else ok in
      if (ok =? 0)%Z then Some (lo, hi) else spread fuel hist lo hi
  end.

Section CalMinMax.

(** The colour-map table of [./cmaps]: [colormap cm] is the pair of the
    [min] and [max] of the entry [cm.toLowerCase()], when [colorMaps()]
    lists that key. *)
Variable colormap : String.string -> option (value * value).

(** The condition of lines 467-472. *)
Definition trustsHeader (this : Image) : bool :=
  trustCalMinMax this && isFinite (Header.cal_min (hdr this))
  && isFinite (Header.cal_max (hdr this))
  && gt (Header.cal_max (hdr this)) (Header.cal_min (hdr this)).

(** Lines 487-494: [cmMin] and [cmMax]. *)
Definition colormapBounds (this : Image) : value * value :=
  match colormap (colorMap this) with
  | Some bounds => bounds
  | None => (Num zero, Num zero)
  end.

(** Lines 540-589, after the scan: the robust bounds [lo / scl + mn] and
    [hi / scl + mn] before scaling; [None] when a loop runs out of fuel. *)
Definition robustBins (fuel : nat) (ignoreZeroVoxels : bool)
  (img : list number) (mn mx n2pct : number) : option (number * number) :=
  let scl := div (ofZ (nBins - 1)) (sub mx mn) in
  let hist := buildHistogram ignoreZeroVoxels img mn scl in
  match walkLo fuel hist n2pct zero 0 with
  | None => None
  | Some lo =>
      let lo := (lo - 1)%Z in
      match walkHi fuel hist n2pct zero nBins with
      | None => None
      | Some hi =>
          let lohi := if (lo =? hi)%Z then spread fuel hist lo hi
                      else Some (lo, hi) in
          match lohi with
          | None => None
          | Some (lo, hi) =>
              Some (add (div (ofZ lo) scl) mn, add (div (ofZ hi) scl) mn)
          end
      end
  end.

(** [calMinMax]: the image afterwards, the array returned and the lines
    logged; [None] when a loop of the histogram walk runs out of fuel. *)
Definition calMinMax (fuel : nat) (this : Image) (img : list number)
  : option (Image * list value * list String.string) :=
  let h := hdr this in
  if trustsHeader this then
    let this := set_cal_robust this (Num (Header.cal_min h)) (Num (Header.cal_max h)) in
    let this := set_global this (Num (Header.cal_min h)) (Num (Header.cal_max h)) in
    Some (this,
          [Num (Header.cal_min h); Num (Header.cal_max h);
           Num (Header.cal_min h); Num (Header.cal_max h)], [])
  else
    let '(cmMin, cmMax) := colormapBounds this in
    if value_loose_neq cmMin cmMax then
      Some (set_cal_robust this cmMin cmMax, [cmMin; cmMax; cmMin; cmMax], [])
    else
      let s := scanVoxels (ignoreZeroVoxels this) img in
      let nVox := Z.of_nat (List.length img) in
      let '(h, mnScale) := intensityRaw2Scaled h (mn s) in
      let '(h, mxScale) := intensityRaw2Scaled h (mx s) in
      let this := set_hdr this h in
      let nZero := if negb (ignoreZeroVoxels this) then 0%Z else nZero s in
      let nZero := (nZero + nNan s)%Z in
      let n2pct := Math_round (mul (ofZ (nVox - nZero)) (percentileFrac this)) in
      if lt n2pct one || value_strict_eq (mn s) (mx s) then
        let this := set_cal_robust this (Num mnScale) (Num mxScale) in
        let this := set_global this (Num mnScale) (Num mxScale) in
        Some (this, [Num mnScale; Num mxScale; Num mnScale; Num mxScale],
              ["no variability in image intensity?"%string])
      else
        match robustBins fuel (ignoreZeroVoxels this) img
                (toNumber (mn s)) (toNumber (mx s)) n2pct with
        | None => None
        | Some (rawLo, rawHi) =>
            let '(h, pct2) := intensityRaw2Scaled h (Num rawLo) in
            let '(h, pct98) := intensityRaw2Scaled h (Num rawHi) in
            let this := set_hdr this h in
            let '(pct2, pct98) :=
              if lt (Header.cal_min h) (Header.cal_max h)
                 && ge (Header.cal_min h) mnScale
                 && le (Header.cal_max h) mxScale
              then (Header.cal_min h, Header.cal_max h)
              else (pct2, pct98) in
            let this := set_cal_robust this (Num pct2) (Num pct98) in
            let this := set_global this (Num mnScale) (Num mxScale) in
            Some (this, [Num pct2; Num pct98; Num mnScale; Num mxScale], [])
        end.

End CalMinMax.

(** The raw minimum and maximum the calibrator is asked for when zero
    voxels are ignored: those of the voxels that are neither zero nor NaN. *)
Definition countedVoxels (img : list number) : list number :=
  List.filter (fun v => negb (isNaN v) && negb (strict_eq v zero)) img.

Definition minOf (l : list number) : option number :=
  match l with
  | [] => None
  | x :: t => Some (fold_left (fun m v => Math_min v m) t x)
  end.

Definition maxOf (l : list number) : option number :=
  match l with
  | [] => None
  | x :: t => Some (fold_left (fun m v => Math_max v m) t x)
  end.

(** The voxels left out of the percentile count: the NaN voxels and, when
    zero voxels are ignored, the zero voxels. *)
Definition excludedVoxels (ignoreZeroVoxels : bool) (img : list number) : Z :=
  ((if ignoreZeroVoxels
    then Z.of_nat (List.length (List.filter (fun v => strict_eq v zero) img))
    else 0)
   + Z.of_nat (List.length (List.filter isNaN img)))%Z.

(** The rounded percentile count: [nVox] minus the excluded voxels, times
    [percentileFrac]. *)
Definition percentileCount (this : Image) (img : list number) : number :=
  Math_round
    (mul (ofZ (Z.of_nat (List.length img)
               - excludedVoxels (ignoreZeroVoxels this) img))
       (percentileFrac this)).

(** A raw intensity converted through [scl_slope] (1 when it is 0) and
    [scl_inter]. *)
Definition scaleRaw (h : Header.t) (raw : value) : number :=
  add (mul (toNumber raw)
         (if strict_eq (Header.scl_slope h) zero then one
          else Header.scl_slope h))
    (Header.scl_inter h).

(** A header with the identity affine, unit scaling and no declared
    calibration range; an image over it with the colour map gray. *)
Definition plainHeader : Header.t :=
  Header.Build (map ofZ [3; 3; 1; 1; 1; 1; 1; 1]%Z)
    (map ofZ [1; 1; 1; 1; 0; 0; 0; 0]%Z)
    (Mat (Row one zero zero zero) (Row zero one zero zero)
         (Row zero zero one zero) (Row zero zero zero one))
    zero zero zero zero zero zero zero one one zero zero zero DT_DOUBLE.

Definition imageOf (h : Header.t) (frac : number) (ignoreZero trust : bool)
  : Image :=
  BuildImage ""%string "id"%string "gray"%string one frac ignoreZero trust true
    h 1%positive None Undefined Undefined Undefined Undefined Undefined
    Undefined.

(** A colour-map table whose entries declare no bounds. *)
Definition noBounds : String.string -> option (value * value) := fun _ => None.

(** The voxels 0, 5, 7 and a buffer filled with 7. *)
Definition zeroFirst : list number := map ofZ [0; 5; 7]%Z.
Definition uniformSevens : list number := map ofZ [7; 7; 7; 7]%Z.

(** *** [clone], [zeroImage] and [zerosLike] (lines 742-760, 819-823) *)

(** [a.slice()]: a new array with the elements of [a]. *)
Definition slice (a : TypedArray) : TypedArray := a.

(** [a.fill(0)]. *)
Definition fill_zero (a : TypedArray) : TypedArray :=
  match a with
  | Uint8Array a => Uint8Array (replicate (List.length a) 0%Z)
  | Int16Array a => Int16Array (replicate (List.length a) 0%Z)
  | Uint16Array a => Uint16Array (replicate (List.length a) 0%Z)
  | Float32Array a => Float32Array (replicate (List.length a) zero)
  | Float64Array a => Float64Array (replicate (List.length a) zero)
  end.

(** The default [percentileFrac = 0.02]. *)
Definition default_percentileFrac : number :=
  Eval vm_compute in div (ofZ 2) (ofZ 100).

Section Clone.

Variable stored : number -> number.
Variable mat4_invert : glmat -> glmat -> glmat.
Variable mat4_multiply : glmat -> glmat -> glmat.
Variable colormap : String.string -> option (value * value).

(** [clone]: [None] when [this.img.slice()] throws because the image has no
    voxel array, or when [calMinMax] runs out of fuel.  [new NVImage()]
    leaves the defaults of the constructor; [Object.assign({}, this.hdr)]
    copies the fields of the header. *)
Definition clone (fuel : nat) (this : Image) (s : store)
  : option (Image * store) :=
  match s !! img this with
  | None => None
  | Some buf =>
      let l := fresh (dom s) in
      let s := <[l := slice buf]> s in
      let clonedImage :=
        BuildImage ""%string (id this) "gray"%string one
          default_percentileFrac false true true (hdr this) l None
          Undefined Undefined Undefined Undefined Undefined Undefined in
      let clonedImage :=
        set_ras clonedImage
          (calculateRAS stored mat4_invert mat4_multiply (hdr clonedImage)) in
      match calMinMax colormap fuel clonedImage (elements (slice buf)) with
      | None => None
      | Some (clonedImage, _, _) => Some (clonedImage, s)
      end
  end.

(** [zeroImage]: [None] when the image has no voxel array. *)
Definition zeroImage (this : Image) (s : store) : option store :=
  match s !! img this with
  | None => None
  | Some buf => Some (<[img this := fill_zero buf]> s)
  end.

Definition zerosLike (fuel : nat) (nvImage : Image) (s : store)
  : option (Image * store) :=
  match clone fuel nvImage s with
  | None => None
  | Some (zeroClone, s) =>
      match zeroImage zeroClone s with
      | None => None
      | Some s => Some (zeroClone, s)
      end
  end.

End Clone.

(** An image of four voxels and the store that holds its voxel array. *)
Definition someImage : Image :=
  BuildImage "t1"%string "id"%string "gray"%string one default_percentileFrac
    false true true
    (Header.Build (map ofZ [3; 2; 2; 1; 1; 1; 1; 1]%Z)
       (map ofZ [1; 1; 1; 1; 0; 0; 0; 0]%Z)
       (Mat (Row one zero zero zero) (Row zero one zero zero)
          (Row zero zero one zero) (Row zero zero zero one))
       zero zero zero zero zero zero zero one one zero zero zero
       DT_UNSIGNED_CHAR)
    1%positive None Undefined Undefined Undefined Undefined Undefined
    Undefined.

Definition someStore : store :=
  {[ 1%positive := Uint8Array [10; 20; 30; 40]%Z ]}.

End NVImage.

(** ** The volume-rendering fragment shader of [shader-srcs.js]

    GLSL [float]s are idealised as rationals; [length], [normalize], [sin]
    and [fract], which have no rational counterpart, only occur in the ray
    set-up, whose results are inputs here.  The colour [fColor] is the
    output modelled; the depth written to [gl_FragDepth] is not. *)

Module Shader.

Local Open Scope Q_scope.

Record vec3 := Vec3 { x : Q; y : Q; z : Q }.
Record vec4 := Vec4 { r : Q; g : Q; b : Q; a : Q }.

(** [v.xyz] (or [v.rgb]) and [vec4(v, w)]. *)
Definition xyz (v : vec4) : vec3 := Vec3 (r v) (g v) (b v).
Definition vec4_of (v : vec3) (w : Q) : vec4 := Vec4 (x v) (y v) (z v) w.

Definition add3 (u v : vec3) : vec3 := Vec3 (x u + x v) (y u + y v) (z u + z v).
Definition scale3 (v : vec3) (k : Q) : vec3 := Vec3 (x v * k) (y v * k) (z v * k).
Definition sub3_scalar (v : vec3) (k : Q) : vec3 := Vec3 (x v - k) (y v - k) (z v - k).
Definition dot (u v : vec3) : Q := x u * x v + y u * y v + z u * z v.

Definition add4 (u v : vec4) : vec4 :=
  Vec4 (r u + r v) (g u + g v) (b u + b v) (a u + a v).
Definition sub4 (u v : vec4) : vec4 :=
  Vec4 (r u - r v) (g u - g v) (b u - b v) (a u - a v).
Definition scale4 (k : Q) (v : vec4) : vec4 :=
  Vec4 (k * r v) (k * g v) (k * b v) (k * a v).

(** [v.a = w]. *)
Definition set_a (v : vec4) (w : Q) : vec4 := Vec4 (r v) (g v) (b v) w.

Definition ltb (p q : Q) : bool := negb (Qle_bool q p).
Definition leb (p q : Q) : bool := Qle_bool p q.
Definition eqb (p q : Q) : bool := Qeq_bool p q.

(** The built-ins [min], [max] and [mix]. *)
Definition min (p q : Q) : Q := if ltb q p then q else p.
Definition max (p q : Q) : Q := if ltb p q then q else p.
Definition mix (p q w : Q) : Q := p * (1 - w) + q * w.

Definition vec4_zero : vec4 := Vec4 0 0 0 0.

Definition earlyTermination : Q := 0.95.

(** The state of the compositing loop of the base volume (lines 124-136). *)
Record Accum := BuildAccum {
  samplePos : vec4;
  firstHit : vec4;
  backNearest : Q;
  colAcc : vec4
}.

(** The state of the compositing loop of the overlay (lines 160-170). *)
Record OverAccum := BuildOverAccum {
  overPos : vec4;
  overFarthest : Q;
  overAcc : vec4
}.

Section Kernel.

(** The uniforms. *)
Variable clipPlane : vec4.
Variable overlays : Q.
Variable backOpacity : Q.

(** [texture(volume, p)] and [texture(overlay, p)]. *)
Variable volume : vec3 -> vec4.
Variable overlay : vec3 -> vec4.

(** The built-in [pow]. *)
Variable pow : Q -> Q -> Q.

(** [applyClip] (lines 41-63, and the same text at lines 532-554 of the
    picking shader): the value returned and the two [inout] parameters
    [samplePos] and [len] afterwards. *)
Definition applyClip (dir : vec3) (samplePos : vec4) (len : Q)
  : vec4 * vec4 * Q :=
  let cdot := dot dir (xyz clipPlane) in
  if ltb 1.0 (a clipPlane) || eqb cdot 0.0 then (samplePos, samplePos, len)
  else
    let frontface := ltb 0.0 cdot in
    let clipThick := 2.0 in
    let dis :=
      (- a clipPlane - dot (xyz clipPlane) (sub3_scalar (xyz samplePos) 0.5))
      / cdot in
    let disBackFace :=
      (- (a clipPlane - clipThick)
       - dot (xyz clipPlane) (sub3_scalar (xyz samplePos) 0.5)) / cdot in
    if (frontface && leb len dis) || (negb frontface && leb dis 0.0) then
      let samplePos := set_a samplePos (len + 1.0) in
      (samplePos, samplePos, len)
    else
      let '(samplePos, len) :=
        if frontface then
          let dis := max 0.0 dis in
          (vec4_of (add3 (xyz samplePos) (scale3 dir dis)) dis,
           min disBackFace len)
        else (samplePos, len) in
      let '(samplePos, len) :=
        if negb frontface then
          let len := min dis len in
          let disBackFace := max 0.0 disBackFace in
          (vec4_of (add3 (xyz samplePos) (scale3 dir disBackFace)) disBackFace,
           len)
        else (samplePos, len) in
      (samplePos, samplePos, len).

(** The fast pass (lines 103-107 and 147-151) on the texture [tex]: the
    sample position when the loop ends. *)
Fixpoint fastPass (fuel : nat) (tex : vec3 -> vec4) (deltaDirFast : vec4)
  (len : Q) (samplePos : vec4) : option vec4 :=
  match fuel with
  | O => None
  | S fuel =>
      if leb (a samplePos) len then
        let val := a (tex (xyz samplePos)) in
        if ltb 0.01 val then Some samplePos
        else fastPass fuel tex deltaDirFast len (add4 samplePos deltaDirFast)
      else Some samplePos
  end.

(** The body of the compositing loop of lines 124-136: the state after it
    and whether it leaves the loop by [break]. *)
Definition compositeStep (deltaDir : vec4) (opacityCorrection : Q)
  (st : Accum) : Accum * bool :=
  let colorSample := volume (xyz (samplePos st)) in
  let samplePos := add4 (samplePos st) deltaDir in
  if ltb (a colorSample) 0.01
  then (BuildAccum samplePos (firstHit st) (backNearest st) (colAcc st), false)
  else
    let firstHit := if eqb (a (firstHit st)) 0.0 then samplePos else firstHit st in
    let backNearest := min (backNearest st) (a samplePos) in
    let colorSample :=
      set_a colorSample (1.0 - pow (1.0 - a colorSample) opacityCorrection) in
    let colorSample :=
      Vec4 (r colorSample * a colorSample) (g colorSample * a colorSample)
        (b colorSample * a colorSample) (a colorSample) in
    let colAcc := add4 (scale4 (1.0 - a (colAcc st)) colorSample) (colAcc st) in
    (BuildAccum samplePos firstHit backNearest colAcc,
     ltb earlyTermination (a colAcc)).

(** [while (samplePos.a <= len) { ... }]. *)
Fixpoint composite (fuel : nat) (deltaDir : vec4) (opacityCorrection len : Q)
  (st : Accum) : option Accum :=
  match fuel with
  | O => None
  | S fuel =>
      if leb (a (samplePos st)) len then
        let '(st, stop) := compositeStep deltaDir opacityCorrection st in
        if stop then Some st
        else composite fuel deltaDir opacityCorrection len st
      else Some st
  end.

(** The body of the compositing loop of the overlay (lines 160-170). *)
Definition overlayStep (deltaDir : vec4) (opacityCorrection : Q)
  (st : OverAccum) : OverAccum * bool :=
  let colorSample := overlay (xyz (overPos st)) in
  let samplePos := add4 (overPos st) deltaDir in
  if ltb (a colorSample) 0.01
  then (BuildOverAccum samplePos (overFarthest st) (overAcc st), false)
  else
    let colorSample :=
      set_a colorSample (1.0 - pow (1.0 - a colorSample) opacityCorrection) in
    let colorSample :=
      Vec4 (r colorSample * a colorSample) (g colorSample * a colorSample)
        (b colorSample * a colorSample) (a colorSample) in
    let colAcc := add4 (scale4 (1.0 - a (overAcc st)) colorSample) (overAcc st) in
    (BuildOverAccum samplePos (a samplePos) colAcc,
     ltb earlyTermination (a colAcc)).

Fixpoint compositeOverlay (fuel : nat) (deltaDir : vec4)
  (opacityCorrection len : Q) (st : OverAccum) : option OverAccum :=
  match fuel with
  | O => None
  | S fuel =>
      if leb (a (overPos st)) len then
        let '(st, stop) := overlayStep deltaDir opacityCorrection st in
        if stop then Some st
        else compositeOverlay fuel deltaDir opacityCorrection len st
      else Some st
  end.

(** The ray set-up of lines 82-88, 95 and 122: the start of the ray, its
    normalised direction, [len], [lenVox] and the jitter [ran]. *)
Record Ray := BuildRay {
  start : vec3;
  dir : vec3;
  len : Q;
  lenVox : Q;
  ran : Q
}.

(** The base pass of [main] (lines 89-139): the accumulated colour [colAcc]
    before the final rescaling of its alpha and the state of the loop, or
    the colour written by an early [return]. *)
Definition basePass (fuel : nat) (ray : Ray) : option (vec4 + Accum) :=
  let fColor := vec4_zero in
  if ltb (lenVox ray) 0.5 || ltb 3.0 (len ray) then Some (inl fColor)
  else
    let sliceSize := len ray / lenVox ray in
    let stepSize := sliceSize in
    let opacityCorrection := stepSize / sliceSize in
    let deltaDir := vec4_of (scale3 (dir ray) stepSize) stepSize in
    let samplePos := vec4_of (start ray) 0.0 in
    let '(_, samplePos, len) := applyClip (dir ray) samplePos (len ray) in
    let stepSizeFast := sliceSize * 1.9 in
    let deltaDirFast := vec4_of (scale3 (dir ray) stepSizeFast) stepSizeFast in
    match fastPass fuel volume deltaDirFast len samplePos with
    | None => None
    | Some samplePos =>
        if ltb len (a samplePos) && ltb overlays 1.0 then Some (inl fColor)
        else
          let samplePos := sub4 samplePos deltaDirFast in
          (* [if (samplePos.a < 0.0) vec4 samplePos = ...] declares a new
             variable in the scope of the [if]: nothing changes *)
          let colAcc := vec4_zero in
          let firstHit := colAcc in
          let backNearest := len in
          let samplePos := add4 samplePos (scale4 (ran ray) deltaDir) in
          match composite fuel deltaDir opacityCorrection len
                  (BuildAccum samplePos firstHit backNearest colAcc) with
          | None => None
          | Some st => Some (inr st)
          end
    end.

(** Line 138: the rescaling of the accumulated alpha. *)
Definition finalColor (colAcc : vec4) : vec4 :=
  set_a colAcc (a colAcc / earlyTermination * backOpacity).

(** The overlay pass of [main] (lines 141-181), from the colour [fColor]
    of the base pass and its [backNearest]. *)
Definition overlayPass (fuel : nat) (ray : Ray) (fColor : vec4)
  (backNearest : Q) : option vec4 :=
  let sliceSize := len ray / lenVox ray in
  let stepSize := sliceSize in
  let opacityCorrection := stepSize / sliceSize in
  let deltaDir := vec4_of (scale3 (dir ray) stepSize) stepSize in
  let len := len ray in
  let samplePos := vec4_of (start ray) 0.0 in
  let stepSizeFast := sliceSize * 1.9 in
  let deltaDirFast := vec4_of (scale3 (dir ray) stepSizeFast) stepSizeFast in
  match fastPass fuel overlay deltaDirFast len samplePos with
  | None => None
  | Some samplePos =>
      if ltb len (a samplePos) then Some fColor
      else
        let samplePos := sub4 samplePos deltaDirFast in
        let overFarthest := len in
        let colAcc := vec4_zero in
        let samplePos := add4 samplePos (scale4 (ran ray) deltaDir) in
        match compositeOverlay fuel deltaDir opacityCorrection len
                (BuildOverAccum samplePos overFarthest colAcc) with
        | None => None
        | Some st =>
            let 'BuildOverAccum _ overFarthest colAcc := st in
            let overMix := a colAcc in
            let overlayDepth := 0.3 in
            let overMix :=
              if leb (a fColor) 0.0 then 1.0
              else if ltb backNearest overFarthest then
                let dx := (overFarthest - backNearest) / 1.73 in
                let dx := a fColor * pow dx overlayDepth in
                overMix * (1.0 - dx)
              else overMix in
            Some (Vec4 (mix (r fColor) (r colAcc) overMix)
                       (mix (g fColor) (g colAcc) overMix)
                       (mix (b fColor) (b colAcc) overMix)
                       (max (a fColor) (a colAcc)))
        end
  end.

(** [main] of [fragRenderShader]: the colour [fColor] written for the
    pixel, or [None] when a loop runs out of fuel. *)
Definition main (fuel : nat) (ray : Ray) : option vec4 :=
  match basePass fuel ray with
  | None => None
  | Some (inl fColor) => Some fColor
  | Some (inr st) =>
      let fColor := finalColor (colAcc st) in
      if ltb overlays 1.0 then Some fColor
      else overlayPass fuel ray fColor (backNearest st)
  end.

End Kernel.

(** The position of the [k]-th sample of a ray marched from [p]. *)
Fixpoint rayPosition (p deltaDir : vec4) (k : nat) : vec4 :=
  match k with
  | O => p
  | S k => rayPosition (add4 p deltaDir) deltaDir k
  end.

(** A number of steps that exhausts a ray of length [q] steps. *)
Definition steps (q : Q) : nat := Z.to_nat (Qfloor q + 1).

(** [pow] at the integer part of its exponent. *)
Definition powInt (p q : Q) : Q := Qpower p (Qfloor q).

(** Textures: an opaque slab behind the plane z = 0.5, a uniformly opaque
    volume and an empty volume; a ray along the z axis across four voxels. *)
Definition slab (p : vec3) : vec4 :=
  if Qle_bool 0.5 (z p) then Vec4 0.8 0.4 0.2 1 else Vec4 0 0 0 0.
Definition opaqueVolume (p : vec3) : vec4 := Vec4 0.8 0.4 0.2 1.
Definition emptyVolume (p : vec3) : vec4 := vec4_zero.
Definition straightRay : Ray :=
  BuildRay (Vec3 0.5 0.5 0) (Vec3 0 0 1) 1 4 0.

(** The rescaling of line 138 in the arithmetic of the shader itself: a
    [float] is a binary32 value and each operation rounds to nearest. *)
Definition float32_of (n d : Z) : spec_float :=
  SFdiv 24 128 (binary_normalize 24 128 n 0 false)
    (binary_normalize 24 128 d 0 false).

Definition finalAlpha32 (alpha backOpacity : spec_float) : spec_float :=
  SFmul 24 128 (SFdiv 24 128 alpha (float32_of 95 100)) backOpacity.

(** The rational a finite float stands for. *)
Definition float_value (f : spec_float) : Q :=
  match f with
  | S754_finite s m e =>
      inject_Z (if s then Z.neg m else Z.pos m) * Qpower 2 e
  | _ => 0
  end.

End Shader.

(** ** The order of numbers *)

Module JSOrder.
Import JS.

(** The place of a number that is not NaN in the order of [<]: its class
    (negative infinity, negative, zero, positive, positive infinity), then
    its exponent and its significand. *)
Definition rank (x : number) : Z * Z * Z :=
  match x with
  | S754_nan => (0, 0, 0)
  | S754_infinity true => (-2, 0, 0)
  | S754_infinity false => (2, 0, 0)
  | S754_zero _ => (0, 0, 0)
  | S754_finite true m e => (-1, - e, Z.neg m)
  | S754_finite false m e => (1, e, Z.pos m)
  end%Z.

Definition lex_lt (p q : Z * Z * Z) : Prop :=
  let '(a, b, c) := p in
  let '(a', b', c') := q in
  (a < a' \/ (a = a' /\ (b < b' \/ (b = b' /\ c < c'))))%Z.

Definition lex_le (p q : Z * Z * Z) : Prop :=
  let '(a, b, c) := p in
  let '(a', b', c') := q in
  (a < a' \/ (a = a' /\ (b < b' \/ (b = b' /\ c <= c'))))%Z.

End JSOrder.

(** ** Construction and loading of images ([nvimage.js], lines 32-276 and
    636-733) *)

Module Loading.
Import JS NVImage.

(** What the constructor and the loaders show: a line, an array, a format
    with its argument or an exception passed to [log.debug], a message
    passed to [alert]. *)
Inductive event :=
  | Debug (line : String.string)
  | DebugArray (a : list value)
  | DebugFormat (format : String.string) (arg : number)
  | DebugExn (err : exn)
  | Alert (message : String.string).

(** [s.split(sep)] for a separator of one character: never empty. *)
Fixpoint split (sep : Ascii.ascii) (s : String.string) : list String.string :=
  match s with
  | EmptyString => [EmptyString]
  | String c s' =>
      if Ascii.eqb c sep then EmptyString :: split sep s'
      else match split sep s' with
           | [] => [String c EmptyString]
           | part :: parts => String c part :: parts
           end
  end.

(** The character [/]. *)
Definition slash : Ascii.ascii := Eval cbv in Ascii.ascii_of_nat 47.

(** [a.slice(-1)[0]] on an array that is not empty. *)
Definition slice_last (a : list String.string) : String.string :=
  List.last a EmptyString.

(** Line 68: [opacity > 1.0 ? 1.0 : opacity]. *)
Definition clampOpacity (opacity : number) : number :=
  if gt opacity one then one else opacity.

(** [Math.PI] and the literals 90, 180 and 0.1. *)
Definition Math_PI : number := S754_finite false 7074237752028440 (-51).
Definition n90 : number := Eval vm_compute in ofZ 90.
Definition n180 : number := Eval vm_compute in ofZ 180.
Definition n0_1 : number := Eval vm_compute in div (ofZ 1) (ofZ 10).

Section Loaders.

Variable Math_pow : number -> number -> number.
Variable stored : number -> number.
Variable mat4_invert : glmat -> glmat -> glmat.
Variable mat4_multiply : glmat -> glmat -> glmat.
Variable colormap : String.string -> option (value * value).

(** Further functions of gl-matrix: [mat4.transpose(out, a)],
    [vec4.transformMat4(out, a, m)] and [vec3.subtract(out, a, b)], by the
    contents of [out] afterwards, and [vec3.angle(a, b)]. *)
Variable mat4_transpose : glmat -> glmat -> glmat.
Variable vec4_transformMat4 : glmat -> glmat -> glmat -> glmat.
Variable vec3_subtract : glmat -> glmat -> glmat -> glmat.
Variable vec3_angle : glmat -> glmat -> number.

Definition vec3_fromValues (x y z : number) : glmat := map stored [x; y; z].
Definition vec4_fromValues (x y z w : number) : glmat :=
  map stored [x; y; z; w].

(** [vox2mm] (lines 416-423). *)
Definition vox2mm (XYZ : list number) (mtx : glmat) : glmat :=
  let sform := mat4_clone mtx in
  let sform := mat4_transpose sform sform in
  let pos :=
    vec4_fromValues (toNumber (array_get XYZ 0)) (toNumber (array_get XYZ 1))
      (toNumber (array_get XYZ 2)) one in
  let pos := vec4_transformMat4 pos pos sform in
  let pos3 :=
    vec3_fromValues (glmat_get pos 0) (glmat_get pos 1) (glmat_get pos 2) in
  pos3.

(** [calculateOblique] (lines 243-276): the matrix [obliqueRAS] and what
    is logged. *)
Definition calculateOblique (matRAS : glmat) (pixDimsRAS : list value)
  : glmat * list event :=
  let pixDim (k : nat) := toNumber (nth k pixDimsRAS Undefined) in
  let LPI := vox2mm [zero; zero; zero] matRAS in
  let X1mm := vox2mm [div one (pixDim 1%nat); zero; zero] matRAS in
  let Y1mm := vox2mm [zero; div one (pixDim 2%nat); zero] matRAS in
  let Z1mm := vox2mm [zero; zero; div one (pixDim 3%nat)] matRAS in
  let X1mm := vec3_subtract X1mm X1mm LPI in
  let Y1mm := vec3_subtract Y1mm Y1mm LPI in
  let Z1mm := vec3_subtract Z1mm Z1mm LPI in
  let oblique :=
    mat4_fromValues stored
      (glmat_get X1mm 0) (glmat_get X1mm 1) (glmat_get X1mm 2) zero
      (glmat_get Y1mm 0) (glmat_get Y1mm 1) (glmat_get Y1mm 2) zero
      (glmat_get Z1mm 0) (glmat_get Z1mm 1) (glmat_get Z1mm 2) zero
      zero zero zero one in
  let obliqueRAS := mat4_clone oblique in
  let degrees (angle : number) := mul angle (div n180 Math_PI) in
  let XY := Math_abs (sub n90 (degrees (vec3_angle X1mm Y1mm))) in
  let XZ := Math_abs (sub n90 (degrees (vec3_angle X1mm Z1mm))) in
  let YZ := Math_abs (sub n90 (degrees (vec3_angle Y1mm Z1mm))) in
  let maxShear := Math_max (Math_max XY XZ) YZ in
  (obliqueRAS,
   if gt maxShear n0_1
   then [DebugFormat "Warning: shear detected (gantry tilt) of %f degrees"
           maxShear]
   else []).

(** What [calculateRAS] logs (lines 388 and 410-412): nothing of its own
    when no rotation is required, the arrays [hdr.dims] and [dimsRAS]
    otherwise, and in both cases what [calculateOblique] logs. *)
Definition calculateRAS_log (hdr : Header.t) : list event :=
  let ras := calculateRAS stored mat4_invert mat4_multiply hdr in
  let oblique := snd (calculateOblique (matRAS ras) (pixDimsRAS ras)) in
  if arrayEquals (perm ras) [1; 2; 3]%Z && arrayEquals (flip ras) [0; 0; 0]%Z
  then oblique
  else [DebugArray (map Num (Header.dims hdr)); DebugArray (dimsRAS ras)]
       ++ oblique.

(** The NIfTI reader: [nifti.readHeader] (which returns [null] when it
    finds no header), [nifti.isCompressed], [nifti.decompress] and
    [nifti.readImage], by what each returns or throws. *)
Variable DataBuffer : Type.
Variable nifti_readHeader : DataBuffer -> outcome (option Header.t).
Variable nifti_isCompressed : DataBuffer -> outcome bool.
Variable nifti_decompress : DataBuffer -> outcome DataBuffer.
Variable nifti_readImage : Header.t -> DataBuffer -> outcome ArrayBuffer.

(** The identifier [uuidv4()] returns to the constructor. *)
Variable uuidv4 : String.string.

(** Lines 178-183: the raw image bytes [imgRaw]. *)
Definition readImage (hdr : Header.t) (dataBuffer : DataBuffer)
  : outcome ArrayBuffer :=
  match nifti_isCompressed dataBuffer with
  | Thrown e => Thrown e
  | Returned true =>
      match nifti_decompress dataBuffer with
      | Thrown e => Thrown e
      | Returned decompressed => nifti_readImage hdr decompressed
      end
  | Returned false => nifti_readImage hdr dataBuffer
  end.

(** The constructor on a data buffer (lines 65-241; without one it stops at
    line 76, as in [clone]): what it returns or throws, and what it has
    logged by then; [None] when [calMinMax] runs out of fuel.  The image
    holds its voxel array at a new location of the store. *)
Definition NVImage_new (fuel : nat) (s : store) (dataBuffer : DataBuffer)
  (name colorMap : String.string) (opacity : number) (trustCalMinMax : bool)
  (percentileFrac : number) (ignoreZeroVoxels visible useQFormNotSForm : bool)
  : option (outcome (Image * store) * list event) :=
  let opacity := clampOpacity opacity in
  match nifti_readHeader dataBuffer with
  | Thrown e => Some (Thrown e, [])
  | Returned None => Some (Thrown TypeError, [])
  | Returned (Some hdr) =>
      let '(hdr, log1) := resolveAffine Math_pow useQFormNotSForm hdr in
      let log1 := map Debug log1 in
      match readImage hdr dataBuffer with
      | Thrown e => Some (Thrown e, log1)
      | Returned imgRaw =>
          match convertVoxels (Header.datatypeCode hdr) imgRaw with
          | Thrown e => Some (Thrown e, log1)
          | Returned (voxels, code) =>
              let hdr := Header.set_datatypeCode hdr code in
              let l := fresh (dom s) in
              let s := <[l := voxels]> s in
              let this :=
                BuildImage name uuidv4 colorMap opacity percentileFrac
                  ignoreZeroVoxels trustCalMinMax visible hdr l None
                  Undefined Undefined Undefined Undefined Undefined
                  Undefined in
              let this :=
                set_ras this
                  (calculateRAS stored mat4_invert mat4_multiply hdr) in
              let log2 := calculateRAS_log hdr in
              match calMinMax colormap fuel this (elements voxels) with
              | None => None
              | Some (this, _, log3) =>
                  Some (Returned (this, s), log1 ++ log2 ++ map Debug log3)
              end
          end
      end
  end.

(** The response of [fetch]: [ok], [statusText] and the buffer
    [arrayBuffer()] resolves to, [None] when it is falsy. *)
Record Response := BuildResponse {
  ok : bool;
  statusText : String.string;
  arrayBuffer : option DataBuffer
}.

Variable fetch : String.string -> outcome Response.

(** [loadFromUrl] (lines 636-674): the image or [null], or what is thrown,
    with the events shown. *)
Definition loadFromUrl (fuel : nat) (s : store) (url : String.string)
  (name colorMap : String.string) (opacity : number) (trustCalMinMax : bool)
  (percentileFrac : number) (ignoreZeroVoxels visible : bool)
  : option (outcome (option Image * store) * list event) :=
  match fetch url with
  | Thrown e => Some (Thrown e, [])
  | Returned response =>
      if negb (ok response)
      then Some (Thrown (HttpError (statusText response)), [])
      else
        let urlParts := split slash url in
        let name := slice_last urlParts in
        match arrayBuffer response with
        | Some dataBuffer =>
            match NVImage_new fuel s dataBuffer name colorMap opacity
                    trustCalMinMax percentileFrac ignoreZeroVoxels visible
                    false with
            | None => None
            | Some (Thrown e, log) => Some (Thrown e, log)
            | Some (Returned (nvimage, s), log) =>
                Some (Returned (Some nvimage, s), log)
            end
        | None =>
            Some (Returned (None, s),
                  [Alert "Unable to load buffer properly from volume"%string])
        end
  end.

(** [readFileAsync] (lines 678-690) over the [FileReader]: its [result]
    when the read loads, the rejection when it fails. *)
Variable File : Type.
Variable FileReader_readAsArrayBuffer : File -> DataBuffer + String.string.

Definition readFileAsync (file : File) : outcome DataBuffer :=
  match FileReader_readAsArrayBuffer file with
  | inl result => Returned result
  | inr reason => Thrown (Rejected reason)
  end.

(** [loadFromFile] (lines 706-733): the image or [null], with the events
    shown; what the [try] block throws is logged. *)
Definition loadFromFile (fuel : nat) (s : store) (file : File)
  (name colorMap : String.string) (opacity : number) (trustCalMinMax : bool)
  (percentileFrac : number) (ignoreZeroVoxels visible : bool)
  : option (option Image * store * list event) :=
  match readFileAsync file with
  | Thrown err => Some (None, s, [DebugExn err])
  | Returned dataBuffer =>
      match NVImage_new fuel s dataBuffer name colorMap opacity
              trustCalMinMax percentileFrac ignoreZeroVoxels visible false with
      | None => None
      | Some (Thrown err, log) => Some (None, s, log ++ [DebugExn err])
      | Some (Returned (nvimage, s), log) => Some (Some nvimage, s, log)
      end
  end.

End Loaders.

Arguments BuildResponse {DataBuffer} ok statusText arrayBuffer.
Arguments ok {DataBuffer} r.
Arguments statusText {DataBuffer} r.
Arguments arrayBuffer {DataBuffer} r.

(** The datatype codes the switch of the constructor has a case for. *)
Definition supportedDatatypes : list Z :=
  [DT_UNSIGNED_CHAR; DT_SIGNED_SHORT; DT_FLOAT; DT_DOUBLE; DT_RGB; DT_UINT16;
   DT_RGBA32; DT_INT8; DT_UINT32; DT_SIGNED_INT; DT_INT64].

(** The size in bytes of an element of the typed array the switch makes of
    the raw bytes, for each supported datatype. *)
Definition elementSize (datatypeCode : Z) : nat :=
  if (datatypeCode =? DT_SIGNED_SHORT)%Z || (datatypeCode =? DT_UINT16)%Z
  then 2
  else if (datatypeCode =? DT_FLOAT)%Z || (datatypeCode =? DT_UINT32)%Z
          || (datatypeCode =? DT_SIGNED_INT)%Z
  then 4
  else if (datatypeCode =? DT_DOUBLE)%Z || (datatypeCode =? DT_INT64)%Z
  then 8
  else 1.

(** The datatype code that names the element type of a voxel array, for
    the scalar datatypes. *)
Definition elementTypeOf (t : TypedArray) : Z :=
  match t with
  | Uint8Array _ => DT_UNSIGNED_CHAR
  | Int16Array _ => DT_SIGNED_SHORT
  | Uint16Array _ => DT_UINT16
  | Float32Array _ => DT_FLOAT
  | Float64Array _ => DT_DOUBLE
  end.

(** What the widening loops do: the destination has the length of the
    source, and holds the converted source element at every index but the
    last, where it holds the zero it was allocated with. *)
Definition copiesAllButLast {A B : Type} (conv : A -> B) (zero : B)
  (src : list A) (out : list B) : Prop :=
  List.length out = List.length src /\
  forall i v, nth_error src i = Some v ->
    nth_error out i =
      Some (if Nat.ltb (S i) (List.length src) then conv v else zero).

End Loading.

(** ** Sample data *)

Module Samples.
Import JS NVImage Loading.

(** The voxels 3, NaN, -2, 0, 9, and the voxels NaN, 1, 2. *)
Definition mixedVoxels : list number := [ofZ 3; NaN; ofZ (-2); zero; ofZ 9].
Definition nanFirst : list number := [NaN; one; two].

(** The fifty voxels 0, 1, ..., 49. *)
Definition ramp : list number := map (fun i => ofZ (Z.of_nat i)) (seq 0 50).

(** The affine of a sagittal acquisition of 2 mm voxels. *)
Definition sagittalAffine : mat44 :=
  Mat (Row zero zero two (ofZ (-90)))
      (Row two zero zero (ofZ (-126)))
      (Row zero two zero (ofZ (-72)))
      (Row zero zero zero one).

(** A header whose affine has a NaN in its bottom row. *)
Definition brokenHeader : Header.t :=
  Header.set_affine scannerHeader
    (Mat (Row two zero zero zero) (Row zero two zero zero)
       (Row zero zero two zero) (Row NaN zero zero one)).

(** A reader that finds the header [scannerHeader], with a given datatype
    code, in every buffer, and returns the bytes it is given as the image;
    matrix functions that leave [out] as it is. *)
Definition readerOf (code : Z) (_ : ArrayBuffer) : outcome (option Header.t) :=
  Returned (Some (Header.set_datatypeCode scannerHeader code)).

Definition uncompressed (_ : ArrayBuffer) : outcome bool := Returned false.
Definition decompressed (b : ArrayBuffer) : outcome ArrayBuffer := Returned b.
Definition imageOfBuffer (_ : Header.t) (b : ArrayBuffer)
  : outcome ArrayBuffer := Returned b.

Definition keep2 (out _ : glmat) : glmat := out.
Definition keep3 (out _ _ : glmat) : glmat := out.
Definition rightAngle (_ _ : glmat) : number :=
  Eval vm_compute in div Math_PI two.

(** Three bytes, which no array of 16-bit elements can view. *)
Definition threeBytes : ArrayBuffer := [Byte.x01; Byte.x02; Byte.x03].

End Samples.

(** ** Voxel look-up ([nvimage.js], lines 782-852) *)

Module Query.
Import JS NVImage.

(** [Math.floor]. *)
Definition Math_floor (x : number) : number :=
  match x with
  | S754_finite s m (Zneg p) =>
      let v := if s then Z.neg m else Z.pos m in
      let r := (v / 2 ^ Zpos p)%Z in
      if (r =? 0)%Z then S754_zero false else ofZ r
  | _ => x
  end.

(** [a[k]] on a typed array, for a key [k] that is a number: an element
    when [k] is an integer index in range, [undefined] otherwise. *)
Definition typed_get (a : TypedArray) (k : number) : value :=
  match toZ k with
  | Some i =>
      if (0 <=? i)%Z && (i <? Z.of_nat (List.length (elements a)))%Z
      then array_get (elements a) (Z.to_nat i)
      else Undefined
  | None => Undefined
  end.

Record Metadata := BuildMetadata {
  md_id : String.string;
  md_datatypeCode : Z;
  nx : value;
  ny : value;
  nz : value;
  nt : number;
  dx : value;
  dy : value;
  dz : value;
  dt : value;
  bpv : number
}.

(** The literals 0.21, 0.72, 0.07 and 8. *)
Definition n0_21 : number := Eval vm_compute in div (ofZ 21) (ofZ 100).
Definition n0_72 : number := Eval vm_compute in div (ofZ 72) (ofZ 100).
Definition n0_07 : number := Eval vm_compute in div (ofZ 7) (ofZ 100).
Definition eight : number := Eval vm_compute in ofZ 8.

(** The luminance of lines 839-841 and 846-848. *)
Definition luminance (red green blue : number) : number :=
  Math_round (add (add (mul red n0_21) (mul green n0_72)) (mul blue n0_07)).

Section Methods.

(** The field [numBitsPerVoxel] of a header. *)
Variable numBitsPerVoxel : Header.t -> value.

(** [getImageMetadata] (lines 782-810). *)
Definition getImageMetadata (this : Image) : Metadata :=
  let dims := Header.dims (hdr this) in
  let pixDims := Header.pixDims (hdr this) in
  BuildMetadata (id this) (Header.datatypeCode (hdr this))
    (array_get dims 1) (array_get dims 2) (array_get dims 3)
    (Math_max one (toNumber (array_get dims 4)))
    (array_get pixDims 1) (array_get pixDims 2) (array_get pixDims 3)
    (array_get pixDims 4)
    (Math_floor (div (toNumber (numBitsPerVoxel (hdr this))) eight)).

Local Open Scope js_scope.

(** [getValue] (lines 834-852); [None] when the image has no voxel array
    and the read throws. *)
Definition getValue (this : Image) (s : store) (x y z : number)
  : option number :=
  let md := getImageMetadata this in
  let nx := toNumber (nx md) in
  let ny := toNumber (ny md) in
  match s !! img this with
  | None => None
  | Some img =>
      let read k := toNumber (typed_get img k) in
      if (Header.datatypeCode (hdr this) =? DT_RGBA32)%Z then
        let vx := ofZ 4 * (x + y * nx + z * nx * ny) in
        Some (luminance (read vx) (read (vx + one)) (read (vx + two)))
      else if (Header.datatypeCode (hdr this) =? DT_RGB)%Z then
        let vx := ofZ 3 * (x + y * nx + z * nx * ny) in
        Some (luminance (read vx) (read (vx + one)) (read (vx + two)))
      else
        let i := read (x + y * nx + z * nx * ny) in
        Some (Header.scl_slope (hdr this) * i + Header.scl_inter (hdr this))
  end.

End Methods.

End Query.

(** ** The other shaders of [shader-srcs.js]

    As for the render shader, [float]s are rationals.  Unsigned integers
    of 32 bits are integers reduced modulo 2^32. *)

Module Shaders.
Import Shader.

Local Open Scope Q_scope.

Record vec2 := Vec2 { x2 : Q; y2 : Q }.

(** A [mat4], by its four columns. *)
Record mat4 := Mat4 { col0 : vec4; col1 : vec4; col2 : vec4; col3 : vec4 }.

Definition dot4 (p q : vec4) : Q :=
  r p * r q + g p * g q + b p * b q + a p * a q.

(** [p * m], the product of a row vector and a matrix. *)
Definition vec_mat (p : vec4) (m : mat4) : vec4 :=
  Vec4 (dot4 p (col0 m)) (dot4 p (col1 m)) (dot4 p (col2 m))
    (dot4 p (col3 m)).

Definition sub3 (p q : vec3) : vec3 := Vec3 (x p - x q) (y p - y q) (z p - z q).
Definition mul3 (p q : vec3) : vec3 := Vec3 (x p * x q) (y p * y q) (z p * z q).
Definition div3 (p q : vec3) : vec3 := Vec3 (x p / x q) (y p / y q) (z p / z q).
Definition max3 (p q : vec3) : vec3 :=
  Vec3 (max (x p) (x q)) (max (y p) (y q)) (max (z p) (z q)).

(** The built-ins [abs] and [clamp]. *)
Definition abs (p : Q) : Q := if ltb p 0.0 then - p else p.

Definition clamp (p minVal maxVal : Q) : Q := min (max p minVal) maxVal.

(** [GetBackPosition] (lines 27-40 and 518-531).  Where a component of
    [rayDir] or of [volScale] is 0 the shader divides by zero and goes on
    with an infinity or a NaN, which the rationals do not have: the model
    gives no result there ([None]). *)
Definition GetBackPosition (rayDir volScale startPositionTex : vec3)
  : option vec3 :=
  if eqb (x rayDir) 0.0 || eqb (y rayDir) 0.0 || eqb (z rayDir) 0.0
     || eqb (x volScale) 0.0 || eqb (y volScale) 0.0 || eqb (z volScale) 0.0
  then None
  else
    let startPosition := mul3 startPositionTex volScale in
    let invR := Vec3 (1.0 / x rayDir) (1.0 / y rayDir) (1.0 / z rayDir) in
    let tbot := mul3 invR (sub3 (Vec3 0.0 0.0 0.0) startPosition) in
    let ttop := mul3 invR (sub3 volScale startPosition) in
    let tmax := max3 ttop tbot in
    let t := Vec2 (min (x tmax) (y tmax)) (min (x tmax) (z tmax)) in
    let endPosition :=
      add3 startPosition (scale3 rayDir (min (x2 t) (y2 t))) in
    let endPosition := div3 endPosition volScale in
    Some endPosition.

(** The conversion of a position in pixels to clip space, the first lines
    of [main] in the vertex shaders of slices, colour bars, lines and
    fonts (lines 194-197, 248-251, 274-277, 290-293). *)
Definition pixelFrac (canvasWidthHeight : vec2) (leftTopWidthHeight : vec4)
  (pos : vec3) : vec2 :=
  let frac_x :=
    (r leftTopWidthHeight + (x pos * b leftTopWidthHeight))
    / x2 canvasWidthHeight in
  let frac_y :=
    1.0 - ((g leftTopWidthHeight + ((1.0 - y pos) * a leftTopWidthHeight))
           / y2 canvasWidthHeight) in
  Vec2 (frac_x * 2.0 - 1.0) (frac_y * 2.0 - 1.0).

(** [main] of [vertSliceShader] (lines 192-205): [gl_Position] and
    [texPos]. *)
Definition vertSliceMain (axCorSag : Z) (slice : Q)
  (canvasWidthHeight : vec2) (leftTopWidthHeight : vec4) (pos : vec3)
  : vec4 * vec3 :=
  let frac := pixelFrac canvasWidthHeight leftTopWidthHeight pos in
  let gl_Position := Vec4 (x2 frac) (y2 frac) 0.0 1.0 in
  let texPos :=
    if (axCorSag =? 1)%Z then Vec3 (x pos) slice (y pos)
    else if (axCorSag =? 2)%Z then Vec3 slice (x pos) (y pos)
    else Vec3 (x pos) (y pos) slice in
  (gl_Position, texPos).

(** [main] of [vertFontShader] (lines 288-296): [gl_Position] and [vUV]. *)
Definition vertFontMain (canvasWidthHeight : vec2)
  (leftTopWidthHeight uvLeftTopWidthHeight : vec4) (pos : vec3)
  : vec4 * vec2 :=
  let frac := pixelFrac canvasWidthHeight leftTopWidthHeight pos in
  let gl_Position := Vec4 (x2 frac) (y2 frac) 0.0 1.0 in
  let vUV :=
    Vec2 (r uvLeftTopWidthHeight + (x pos * b uvLeftTopWidthHeight))
         (g uvLeftTopWidthHeight + ((1.0 - y pos) * a uvLeftTopWidthHeight)) in
  (gl_Position, vUV).

(** [main] of [fragSliceShader] (lines 216-228). *)
Definition fragSliceMain (overlays opacity : Q) (volume overlay : vec3 -> vec4)
  (texPos : vec3) : vec4 :=
  let color := vec4_of (xyz (volume texPos)) opacity in
  let ocolor :=
    if ltb overlays 1.0 then Vec4 0.0 0.0 0.0 0.0 else overlay texPos in
  let aout := a ocolor + (1.0 - a ocolor) * a color in
  if leb aout 0.0 then color
  else
    Vec4 ((r ocolor * a ocolor + r color * a color * (1.0 - a ocolor)) / aout)
         ((g ocolor * a ocolor + g color * a color * (1.0 - a ocolor)) / aout)
         ((b ocolor * a ocolor + b color * a color * (1.0 - a ocolor)) / aout)
         aout.

(** [median] and [main] of [fragFontShader] (lines 307-316). *)
Definition median (red green blue : Q) : Q :=
  max (min red green) (min (max red green) blue).

Definition fragFontMain (fontTexture : vec2 -> vec4) (fontColor : vec4)
  (screenPxRange : Q) (vUV : vec2) : vec4 :=
  let msd := xyz (fontTexture vUV) in
  let sd := median (x msd) (y msd) (z msd) in
  let screenPxDistance := screenPxRange * (sd - 0.5) in
  let opacity := clamp (screenPxDistance + 0.5) 0.0 1.0 in
  vec4_of (xyz fontColor) (a fontColor * opacity).

(** The end of [main] in [fragOrientShaderAtlas] and [fragOrientShader]
    (lines 379-389 and 417-427): the colour looked up at the column [f] of
    the row of the layer, and its blend over the colour of the layers
    below. *)
Definition layerBlend (colormap : vec2 -> vec4) (blend3D : vec3 -> vec4)
  (coordZ layer numLayers opacity : Q) (TexCoord : vec2) (f : Q) : vec4 :=
  let y := (2.0 * layer + 1.0) / (2.0 * numLayers) in
  let FragColor := colormap (Vec2 f y) in
  let FragColor := set_a FragColor (a FragColor * opacity) in
  if ltb layer 2.0 then FragColor
  else
    let texXY := Vec2 (x2 TexCoord * 0.5 + 0.5) (y2 TexCoord * 0.5 + 0.5) in
    let prevColor := blend3D (Vec3 (x2 texXY) (y2 texXY) coordZ) in
    let aout := a FragColor + (1.0 - a FragColor) * a prevColor in
    if leb aout 0.0 then FragColor
    else
      Vec4 ((r FragColor * a FragColor
             + r prevColor * a prevColor * (1.0 - a FragColor)) / aout)
           ((g FragColor * a FragColor
             + g prevColor * a prevColor * (1.0 - a FragColor)) / aout)
           ((b FragColor * a FragColor
             + b prevColor * a prevColor * (1.0 - a FragColor)) / aout)
           aout.

(** An unsigned integer of 32 bits. *)
Definition uint (n : Z) : Z := (n mod 2 ^ 32)%Z.

(** Line 377: [((idx - uint(1)) % uint(100)) + uint(1)]. *)
Definition atlasIndex (idx : Z) : Z :=
  uint ((uint (idx - uint 1) mod uint 100) + uint 1).

(** [main] of [fragOrientShaderAtlas] (lines 355-390), on a volume of
    labels. *)
Definition fragOrientAtlasMain (intensityVol : vec3 -> Z)
  (colormap : vec2 -> vec4) (blend3D : vec3 -> vec4)
  (coordZ layer numLayers opacity : Q) (xyzFrac : vec3) (mtx : mat4)
  (TexCoord : vec2) : vec4 :=
  let label (p : vec4) := intensityVol (xyz (vec_mat p mtx)) in
  let idx := label (Vec4 (x2 TexCoord) (y2 TexCoord) coordZ 1.0) in
  let FragColor := Vec4 0.0 0.0 0.0 0.0 in
  if (idx =? uint 0)%Z then FragColor
  else
    let inside :=
      if ltb 0.0 (x xyzFrac) then
        let tx := x2 TexCoord in
        let ty := y2 TexCoord in
        let R := label (Vec4 (tx + x xyzFrac) ty coordZ 1.0) in
        let L := label (Vec4 (tx - x xyzFrac) ty coordZ 1.0) in
        let A := label (Vec4 tx (ty + y xyzFrac) coordZ 1.0) in
        let P := label (Vec4 tx (ty - y xyzFrac) coordZ 1.0) in
        let S := label (Vec4 tx ty (coordZ + z xyzFrac) 1.0) in
        let I := label (Vec4 tx ty (coordZ - z xyzFrac) 1.0) in
        (idx =? R)%Z && (idx =? L)%Z && (idx =? A)%Z && (idx =? P)%Z
        && (idx =? S)%Z && (idx =? I)%Z
      else false in
    if inside then FragColor
    else
      let idx := atlasIndex idx in
      let fx := (inject_Z idx + 0.5) / 256.0 in
      layerBlend colormap blend3D coordZ layer numLayers opacity TexCoord fx.

(** Lines 410-413 of [fragOrientShader]: the intensity scaled and
    windowed between [cal_min] and [cal_max]. *)
Definition windowed (scl_slope scl_inter cal_max cal_min raw : Q) : Q :=
  let f := (scl_slope * raw) + scl_inter in
  let r := max 0.00001 (abs (cal_max - cal_min)) in
  let mn := min cal_min cal_max in
  mix 0.0 1.0 ((f - mn) / r).

(** [main] of [fragOrientShader] (lines 408-428). *)
Definition fragOrientMain (intensityVol : vec3 -> Q)
  (colormap : vec2 -> vec4) (blend3D : vec3 -> vec4)
  (coordZ layer numLayers scl_slope scl_inter cal_max cal_min opacity : Q)
  (mtx : mat4) (TexCoord : vec2) : vec4 :=
  let vx := vec_mat (Vec4 (x2 TexCoord) (y2 TexCoord) coordZ 1.0) mtx in
  let f :=
    windowed scl_slope scl_inter cal_max cal_min (intensityVol (xyz vx)) in
  layerBlend colormap blend3D coordZ layer numLayers opacity TexCoord f.

(** [main] of [fragRGBOrientShader] (lines 447-454), on a volume of four
    unsigned bytes per voxel. *)
Definition fragRGBOrientMain (intensityVol : vec3 -> Z * Z * Z * Z)
  (coordZ opacity : Q) (mtx : mat4) (hasAlpha : bool) (TexCoord : vec2)
  : vec4 :=
  let vx := vec_mat (Vec4 (x2 TexCoord) (y2 TexCoord) coordZ 1.0) mtx in
  let '(red, green, blue, alpha) := intensityVol (xyz vx) in
  let FragColor :=
    Vec4 (inject_Z red / 255.0) (inject_Z green / 255.0)
      (inject_Z blue / 255.0) (inject_Z alpha / 255.0) in
  let FragColor :=
    if negb hasAlpha
    then set_a FragColor
           (r FragColor * 0.21 + g FragColor * 0.72 + b FragColor * 0.07)
    else FragColor in
  set_a FragColor (a FragColor * opacity).

(** [float(id & 255) / 255.0], the identifier as an alpha. *)
Definition idAlpha (id : Z) : Q := inject_Z (Z.land id 255) / 255.0.

(** [main] of [fragDepthPickingShader] (lines 500-502). *)
Definition fragDepthPickingMain (id : Z) (vColor : vec3) : vec4 :=
  vec4_of vColor (idAlpha id).

(** What a fragment shader leaves: a colour written to its output, nothing
    written, or a discarded fragment. *)
Inductive fragment :=
  | Written (fColor : vec4)
  | Unwritten
  | Discarded.

(** The first loop of [main] in [fragVolumePickingShader] (lines 574-581):
    the colour written when a sample is hit, or the end of the loop. *)
Fixpoint pickVolume (fuel : nat) (volume : vec3 -> vec4) (id : Z)
  (deltaDirFast : vec4) (len : Q) (samplePos : vec4) : option (option vec4) :=
  match fuel with
  | O => None
  | S fuel =>
      if leb (a samplePos) len then
        let val := a (volume (xyz samplePos)) in
        if ltb 0.01 val then Some (Some (vec4_of (xyz samplePos) (idAlpha id)))
        else pickVolume fuel volume id deltaDirFast len
               (add4 samplePos deltaDirFast)
      else Some None
  end.

(** [main] of [fragVolumePickingShader] (lines 555-600). *)
Definition fragVolumePickingMain (clipPlane : vec4) (overlays : Q)
  (volume overlay : vec3 -> vec4) (id : Z) (fuel : nat) (ray : Ray)
  : option fragment :=
  if ltb (lenVox ray) 0.5 || ltb 3.0 (len ray) then Some Unwritten
  else
    let sliceSize := len ray / lenVox ray in
    let samplePos := vec4_of (start ray) 0.0 in
    let lenNoClip := len ray in
    let '(_, samplePos, len) :=
      applyClip clipPlane (dir ray) samplePos (len ray) in
    let stepSizeFast := sliceSize * 1.9 in
    let deltaDirFast := vec4_of (scale3 (dir ray) stepSizeFast) stepSizeFast in
    match pickVolume fuel volume id deltaDirFast len samplePos with
    | None => None
    | Some (Some fColor) => Some (Written fColor)
    | Some None =>
        if ltb overlays 1.0 then Some Discarded
        else
          let len := lenNoClip in
          let samplePos := vec4_of (start ray) 0.0 in
          let stepSizeFast := sliceSize * 1.9 in
          let deltaDirFast :=
            vec4_of (scale3 (dir ray) stepSizeFast) stepSizeFast in
          match fastPass fuel overlay deltaDirFast len samplePos with
          | None => None
          | Some samplePos =>
              if ltb len (a samplePos) then Some Unwritten
              else Some (Written (vec4_of (start ray) (idAlpha id)))
          end
    end.

(** A ray across the unit cube along its diagonal. *)
Definition diagonalDir : vec3 := Vec3 1 2 4.
Definition unitScale : vec3 := Vec3 1 1 1.
Definition cubeCentre : vec3 := Vec3 0.5 0.5 0.5.

End Shaders.

(** ** The number model on a few values *)

Module JSFacts.
Import JS.

Example Math_round_half_up :
  Math_round (div (ofZ 5) two) = ofZ 3 /\
  Math_round (div (ofZ (-5)) two) = ofZ (-2) /\
  Math_round (div (ofZ (-1)) (ofZ 5)) = S754_zero true /\
  Math_round (div one (ofZ 25)) = zero.
Proof. repeat split; vm_compute; reflexivity. Qed.

Example Math_min_max_zeros :
  Math_min zero (S754_zero true) = S754_zero true /\
  Math_max zero (S754_zero true) = zero /\
  Math_min (ofZ 3) NaN = NaN /\
  strict_eq zero (S754_zero true) = true /\
  strict_eq NaN NaN = false.
Proof. repeat split; reflexivity. Qed.

Example Math_fround_tenth :
  Math_fround (div one (ofZ 10)) = div (ofZ 13421773) (ofZ 134217728) /\
  Math_fround one = one /\ Math_fround zero = zero.
Proof. repeat split; vm_compute; reflexivity. Qed.

Example ofZ_rounds_beyond_2_53 :
  toZ (ofZ (2 ^ 53 + 1)) = Some (2 ^ 53)%Z /\
  toZ (ofZ (2 ^ 53)) = Some (2 ^ 53)%Z /\
  toZ (ofZ (-4294967295)) = Some (-4294967295)%Z.
Proof. repeat split; vm_compute; reflexivity. Qed.

Lemma strict_eq_refl x : isNaN x = false -> strict_eq x x = true.
Proof.
  destruct x as [s|s| |s m e]; try discriminate; intros _;
    unfold strict_eq, SFeqb; cbn.
  - reflexivity.
  - destruct s; reflexivity.
  - destruct s; rewrite Z.compare_refl, Pos.compare_cont_refl; reflexivity.
Qed.

Lemma add_NaN_r x : add x NaN = NaN.
Proof. destruct x as [s|s| |s m e]; reflexivity. Qed.

Lemma lt_NaN_l x : lt NaN x = false.
Proof. reflexivity. Qed.

Lemma Math_min_idem x : isNaN x = false -> Math_min x x = x.
Proof.
  intros H. unfold Math_min. rewrite H. cbn [orb].
  destruct x as [s|s| |s m e]; try discriminate.
  - rewrite orb_diag. reflexivity.
  - destruct (lt _ _); reflexivity.
  - destruct (lt _ _); reflexivity.
Qed.

Lemma Math_max_idem x : isNaN x = false -> Math_max x x = x.
Proof.
  intros H. unfold Math_max. rewrite H. cbn [orb].
  destruct x as [s|s| |s m e]; try discriminate.
  - rewrite andb_diag. reflexivity.
  - destruct (lt _ _); reflexivity.
  - destruct (lt _ _); reflexivity.
Qed.

End JSFacts.

(** ** Properties of the image object *)

Module NVImageFacts.
Import JS JSFacts NVImage.

Lemma lt3_cases (P : nat -> Prop) :
  P 0%nat -> P 1%nat -> P 2%nat -> forall i, (i < 3)%nat -> P i.
Proof. intros ? ? ? i Hi. do 3 (destruct i as [|i]; [assumption|]). lia. Qed.

Lemma markNonZero_flags m :
  markNonZero m =
  ([nonZero m 0 0 || nonZero m 0 1 || nonZero m 0 2;
    nonZero m 1 0 || nonZero m 1 1 || nonZero m 1 2;
    nonZero m 2 0 || nonZero m 2 1 || nonZero m 2 2; false],
   [nonZero m 0 0 || nonZero m 1 0 || nonZero m 2 0;
    nonZero m 0 1 || nonZero m 1 1 || nonZero m 2 1;
    nonZero m 0 2 || nonZero m 1 2 || nonZero m 2 2; false]).
Proof.
  destruct m as [[a00 a01 a02 a03] [a10 a11 a12 a13] [a20 a21 a22 a23] r].
  unfold markNonZero, nonZero. cbn.
  generalize (strict_eq a00 zero), (strict_eq a01 zero), (strict_eq a02 zero),
    (strict_eq a10 zero), (strict_eq a11 zero), (strict_eq a12 zero),
    (strict_eq a20 zero), (strict_eq a21 zero), (strict_eq a22 zero).
  clear. intros [] [] [] [] [] [] [] [] []; reflexivity.
Qed.

Lemma hasNaN_false m :
  hasNaN m = false <->
  forall i j, (i < 4)%nat -> (j < 4)%nat -> isNaN (mat_get m i j) = false.
Proof.
  unfold hasNaN. split.
  - intros H i j Hi Hj.
    destruct (isNaN (mat_get m i j)) eqn:E; [|reflexivity].
    rewrite <- H. symmetry. apply existsb_exists.
    exists i. split; [apply in_seq; lia|].
    apply existsb_exists. exists j. split; [apply in_seq; lia|exact E].
  - intros H. apply not_true_is_false. intros E.
    apply existsb_exists in E as (i & Hi & E).
    apply existsb_exists in E as (j & Hj & E).
    apply in_seq in Hi, Hj. rewrite H in E by lia. discriminate.
Qed.

(** [isAffineOK] decides well-formedness as the data model words it. *)
Lemma isAffineOK_wellFormed m : isAffineOK m = true <-> wellFormed m.
Proof.
  unfold isAffineOK, wellFormed. rewrite markNonZero_flags. cbn [fst snd].
  split.
  - destruct (hasNaN m) eqn:HN; [discriminate|].
    intros H. split; [apply hasNaN_false, HN|].
    cbn in H. rewrite !andb_true_iff, !orb_true_iff in H.
    unfold nonZero in H. rewrite !negb_true_iff in H.
    destruct H as ((Hr0 & Hc0) & (Hr1 & Hc1) & (Hr2 & Hc2) & _).
    split.
    + apply lt3_cases.
      * destruct Hr0 as [[H|H]|H];
          [exists 0%nat|exists 1%nat|exists 2%nat]; (split; [lia|exact H]).
      * destruct Hr1 as [[H|H]|H];
          [exists 0%nat|exists 1%nat|exists 2%nat]; (split; [lia|exact H]).
      * destruct Hr2 as [[H|H]|H];
          [exists 0%nat|exists 1%nat|exists 2%nat]; (split; [lia|exact H]).
    + apply lt3_cases.
      * destruct Hc0 as [[H|H]|H];
          [exists 0%nat|exists 1%nat|exists 2%nat]; (split; [lia|exact H]).
      * destruct Hc1 as [[H|H]|H];
          [exists 0%nat|exists 1%nat|exists 2%nat]; (split; [lia|exact H]).
      * destruct Hc2 as [[H|H]|H];
          [exists 0%nat|exists 1%nat|exists 2%nat]; (split; [lia|exact H]).
  - intros (HN & Hr & Hc).
    apply hasNaN_false in HN. rewrite HN.
    assert (R : forall i, (i < 3)%nat ->
              nonZero m i 0 || nonZero m i 1 || nonZero m i 2 = true).
    { intros i Hi. destruct (Hr i Hi) as (j & Hj & E).
      unfold nonZero. revert j Hj E. apply (lt3_cases (fun j => _ -> _));
        intros ->; cbn; rewrite ?orb_true_r; reflexivity. }
    assert (C : forall j, (j < 3)%nat ->
              nonZero m 0 j || nonZero m 1 j || nonZero m 2 j = true).
    { intros j Hj. destruct (Hc j Hj) as (i & Hi & E).
      unfold nonZero. revert i Hi E. apply (lt3_cases (fun i => _ -> _));
        intros ->; cbn; rewrite ?orb_true_r; reflexivity. }
    cbn. rewrite !R, !C by lia. reflexivity.
Qed.

Lemma usableSpacing_ok v :
  isNaN (usableSpacing v) = false /\ strict_eq (usableSpacing v) zero = false.
Proof.
  unfold usableSpacing.
  destruct v as [|x]; cbn; [split; reflexivity|].
  destruct (isNaN x) eqn:E1; cbn; [split; reflexivity|].
  destruct (strict_eq x zero) eqn:E2; cbn; [split; reflexivity|].
  split; assumption.
Qed.

Lemma diagonalAffine_ok x y z :
  isNaN x = false -> strict_eq x zero = false ->
  isNaN y = false -> strict_eq y zero = false ->
  isNaN z = false -> strict_eq z zero = false ->
  isAffineOK (diagonalAffine x y z) = true.
Proof.
  intros Hx Hx0 Hy Hy0 Hz Hz0.
  unfold isAffineOK. rewrite markNonZero_flags.
  unfold hasNaN, nonZero. cbn.
  rewrite Hx, Hy, Hz, Hx0, Hy0, Hz0. reflexivity.
Qed.

(** C1. For every header, the affine-resolution step of the constructor
    (a total function: it cannot throw) leaves a well-formed affine in the
    header: no entry is NaN and no row or column of the 3x3 block is all
    zeros.  When the affine chosen between the matrix form and the
    quaternion form passes the re-validation it is kept; when it fails, the
    result is the matrix with the three voxel spacings [pixDims[1]],
    [pixDims[2]], [pixDims[3]] on its diagonal, 1.0 standing for a spacing
    that is NaN or zero, a last diagonal entry of 1 and 0 everywhere
    else. *)
Theorem resolveAffine_well_formed :
  forall (Math_pow : number -> number -> number) (useQFormNotSForm : bool)
         (hdr : Header.t),
    let chosen :=
      fst (chooseAffine Math_pow useQFormNotSForm (fixScaling hdr)) in
    let resolved := fst (resolveAffine Math_pow useQFormNotSForm hdr) in
    let spacing (k : nat) :=
      let v := array_get (Header.pixDims hdr) k in
      if isNaN (toNumber v) || value_strict_eq v (Num zero) then one
      else toNumber v in
    wellFormed (Header.affine resolved) /\
    isAffineOK (Header.affine resolved) = true /\
    (isAffineOK (Header.affine chosen) = true ->
       Header.affine resolved = Header.affine chosen) /\
    (isAffineOK (Header.affine chosen) = false ->
       Header.affine resolved =
         Mat (Row (spacing 1%nat) zero zero zero)
             (Row zero (spacing 2%nat) zero zero)
             (Row zero zero (spacing 3%nat) zero)
             (Row zero zero zero one)).
Proof.
  intros Math_pow useQ hdr chosen resolved spacing.
  assert (Hpix : Header.pixDims
                   (fst (chooseAffine Math_pow useQ (fixScaling hdr)))
                 = Header.pixDims hdr).
  { unfold chooseAffine, fixScaling.
    repeat match goal with |- context [if ?c then _ else _] => destruct c end;
      reflexivity. }
  assert (Hres : resolved = fst (repairAffine chosen)).
  { subst resolved chosen. unfold resolveAffine.
    destruct (chooseAffine _ _ _) as [h l1]. cbn [fst].
    destruct (repairAffine h) as [h' l2]. reflexivity. }
  assert (OK : isAffineOK (Header.affine resolved) = true).
  { rewrite Hres. unfold repairAffine.
    destruct (isAffineOK (Header.affine chosen)) eqn:E; cbn [negb fst].
    - exact E.
    - cbn. apply diagonalAffine_ok; apply usableSpacing_ok. }
  split; [apply isAffineOK_wellFormed, OK|].
  split; [exact OK|].
  split.
  - intros E. rewrite Hres. unfold repairAffine. rewrite E. reflexivity.
  - intros E. rewrite Hres. unfold repairAffine. rewrite E. cbn.
    subst chosen spacing. rewrite Hpix. reflexivity.
Qed.

Lemma calculateRAS_perm_field stored inv mul hdr :
  perm (calculateRAS stored inv mul hdr)
  = calculateRAS_perm stored (Header.affine hdr).
Proof. unfold calculateRAS. destruct (_ && _); reflexivity. Qed.

Lemma calculateRAS_flip_field stored inv mul hdr :
  flip (calculateRAS stored inv mul hdr)
  = calculateRAS_flip stored (Header.affine hdr).
Proof. unfold calculateRAS. destruct (_ && _); reflexivity. Qed.

Lemma calculateRAS_ixyz_cases stored a :
  In (calculateRAS_ixyz stored a)
     [[1;2;3]; [1;3;2]; [2;1;3]; [2;3;1]; [3;1;2]; [3;2;1]]%Z.
Proof.
  unfold calculateRAS_ixyz.
  repeat match goal with
         | |- context [gt ?u ?v] => destruct (gt u v)
         end; cbn; tauto.
Qed.

Lemma calculateRAS_perm_cases stored a :
  In (calculateRAS_perm stored a)
     [[1;2;3]; [1;3;2]; [2;1;3]; [2;3;1]; [3;1;2]; [3;2;1]]%Z.
Proof.
  unfold calculateRAS_perm.
  pose proof (calculateRAS_ixyz_cases stored a) as H.
  cbn in H. decompose [or] H; try contradiction;
    match goal with E : _ = calculateRAS_ixyz _ _ |- _ => rewrite <- E end;
    cbn; tauto.
Qed.

(** C2. For every affine, well-formed or not, and whatever the element type
    of the gl-matrix arrays, [calculateRAS] computes a [perm] that is a
    permutation of 1, 2, 3 and a [flip] of three entries, each 0 or 1. *)
Theorem calculateRAS_perm_flip :
  forall (stored : number -> number)
         (mat4_invert mat4_multiply : glmat -> glmat -> glmat)
         (hdr : Header.t),
    let ras := calculateRAS stored mat4_invert mat4_multiply hdr in
    Permutation (perm ras) [1; 2; 3]%Z /\
    List.length (flip ras) = 3%nat /\
    Forall (fun f => f = 0 \/ f = 1)%Z (flip ras).
Proof.
  intros stored inv mul hdr ras. subst ras.
  rewrite calculateRAS_perm_field, calculateRAS_flip_field. split.
  - pose proof (calculateRAS_perm_cases stored (Header.affine hdr)) as H.
    cbn in H. decompose [or] H; try contradiction;
      match goal with E : _ = calculateRAS_perm _ _ |- _ => rewrite <- E end.
    + reflexivity.
    + apply perm_skip, perm_swap.
    + apply perm_swap.
    + etransitivity; [apply perm_skip, perm_swap|apply perm_swap].
    + etransitivity; [apply perm_swap|apply perm_skip, perm_swap].
    + etransitivity; [apply perm_swap|].
      etransitivity; [apply perm_skip, perm_swap|apply perm_swap].
  - unfold calculateRAS_flip.
    repeat match goal with
           | |- context [lt ?u ?v] => destruct (lt u v)
           end; cbn; (split; [reflexivity|]);
      repeat (apply Forall_cons; [lia|]); apply Forall_nil.
Qed.

(** The branch of lines 385-390. *)
Lemma calculateRAS_identity_branch stored inv mul hdr :
  perm (calculateRAS stored inv mul hdr) = [1; 2; 3]%Z ->
  flip (calculateRAS stored inv mul hdr) = [0; 0; 0]%Z ->
  toRAS (calculateRAS stored inv mul hdr) = mat4_create /\
  matRAS (calculateRAS stored inv mul hdr)
    = map stored (nativeAffine (Header.affine hdr)).
Proof.
  intros Hperm Hflip. unfold calculateRAS in *.
  destruct (arrayEquals _ _ && arrayEquals _ _) eqn:E.
  - split; reflexivity.
  - cbn [perm flip] in Hperm, Hflip. rewrite Hperm, Hflip in E. discriminate E.
Qed.

(** C5, amended. When the computed permutation is 1, 2, 3 and no axis is
    flipped, [calculateRAS] sets [toRAS] to the 4x4 identity, and [matRAS]
    to the native affine with bottom row 0, 0, 0, 1, each entry converted
    to the element type of the gl-matrix arrays (rounded to binary32 for
    the default [Float32Array]).  So [matRAS] is the native affine exactly
    if and only if the conversion changes none of its entries. *)
Theorem calculateRAS_identity :
  forall (stored : number -> number)
         (mat4_invert mat4_multiply : glmat -> glmat -> glmat)
         (hdr : Header.t),
    let ras := calculateRAS stored mat4_invert mat4_multiply hdr in
    let a := Header.affine hdr in
    perm ras = [1; 2; 3]%Z ->
    flip ras = [0; 0; 0]%Z ->
    toRAS ras =
      [one; zero; zero; zero; zero; one; zero; zero;
       zero; zero; one; zero; zero; zero; zero; one] /\
    matRAS ras =
      [stored (mat_get a 0 0); stored (mat_get a 0 1);
       stored (mat_get a 0 2); stored (mat_get a 0 3);
       stored (mat_get a 1 0); stored (mat_get a 1 1);
       stored (mat_get a 1 2); stored (mat_get a 1 3);
       stored (mat_get a 2 0); stored (mat_get a 2 1);
       stored (mat_get a 2 2); stored (mat_get a 2 3);
       stored zero; stored zero; stored zero; stored one] /\
    (matRAS ras = nativeAffine a <->
     forall v, In v (nativeAffine a) -> stored v = v).
Proof.
  intros stored inv mul hdr ras a Hperm Hflip. subst ras.
  destruct (calculateRAS_identity_branch stored inv mul hdr Hperm Hflip)
    as [Ht Hm].
  rewrite Ht, Hm. split; [reflexivity|]. split; [reflexivity|].
  fold a. generalize (nativeAffine a). intros l. split.
  - induction l as [|x l IH]; intros Hl v Hv; [destruct Hv|].
    cbn in Hl. inversion Hl as [[Hx Hl']].
    destruct Hv as [<-|Hv]; [exact Hx|exact (IH Hl' v Hv)].
  - intros Hrep. rewrite <- (map_id l) at 2.
    apply map_ext_in. exact Hrep.
Qed.

(** The header [scannerHeader], with matrices held in a [Float32Array]:
    its entries are binary32 values. *)
Lemma calculateRAS_identity_witness :
  let ras :=
    calculateRAS Math_fround (fun out _ => out) (fun a _ => a) scannerHeader in
  (perm ras = [1; 2; 3]%Z /\ flip ras = [0; 0; 0]%Z) /\
  toRAS ras =
    [one; zero; zero; zero; zero; one; zero; zero;
     zero; zero; one; zero; zero; zero; zero; one] /\
  matRAS ras = nativeAffine (Header.affine scannerHeader).
Proof.
  pose proof (calculateRAS_identity Math_fround (fun out _ => out)
                (fun a _ => a) scannerHeader) as H.
  cbv zeta in H.
  assert (Hp : perm (calculateRAS Math_fround (fun out _ => out)
                       (fun a _ => a) scannerHeader) = [1; 2; 3]%Z)
    by (vm_compute; reflexivity).
  assert (Hf : flip (calculateRAS Math_fround (fun out _ => out)
                       (fun a _ => a) scannerHeader) = [0; 0; 0]%Z)
    by (vm_compute; reflexivity).
  destruct (H Hp Hf) as (H1 & H2 & H3).
  split; [split; assumption|]. split; [exact H1|].
  apply H3. intros v Hv. cbn in Hv.
  repeat (destruct Hv as [<-|Hv]; [vm_compute; reflexivity|]). contradiction.
Defined.

(** C5, as stated, fails: gl-matrix holds its matrices in a
    [Float32Array].  For voxels of 0.1 mm the permutation is 1, 2, 3 and
    no axis is flipped, yet the first entry of [matRAS] is 0.1 rounded to
    binary32, which is not the 0.1 of the native affine. *)
Lemma calculateRAS_identity_rounds :
  exists hdr : Header.t,
    Header.affine hdr = Header.affine fineHeader /\
    forall mat4_invert mat4_multiply : glmat -> glmat -> glmat,
      let ras := calculateRAS Math_fround mat4_invert mat4_multiply hdr in
      perm ras = [1; 2; 3]%Z /\ flip ras = [0; 0; 0]%Z /\
      glmat_get (matRAS ras) 0 = Math_fround tenth /\
      Math_fround tenth <> tenth /\
      mat_get (Header.affine hdr) 0 0 = tenth /\
      matRAS ras <> nativeAffine (Header.affine hdr).
Proof.
  exists fineHeader. split; [reflexivity|]. intros inv mul ras.
  assert (Hp : perm ras = [1; 2; 3]%Z)
    by (subst ras; rewrite calculateRAS_perm_field; vm_compute; reflexivity).
  assert (Hf : flip ras = [0; 0; 0]%Z)
    by (subst ras; rewrite calculateRAS_flip_field; vm_compute; reflexivity).
  assert (Hne : Math_fround tenth <> tenth) by (vm_compute; discriminate).
  destruct (calculateRAS_identity_branch Math_fround inv mul fineHeader Hp Hf)
    as (_ & Hm).
  fold ras in Hm.
  assert (H0 : glmat_get (matRAS ras) 0 = Math_fround tenth)
    by (rewrite Hm; reflexivity).
  repeat split; try assumption.
  intros E. rewrite E in H0. apply Hne. symmetry. exact H0.
Qed.

Lemma fold_insert_length {B : Type} (f : nat -> B) (l : list nat)
  (out : list B) :
  List.length (fold_left (fun img i => <[i := f i]> img) l out)
  = List.length out.
Proof.
  revert out. induction l as [|i l IH]; intros out; cbn; [reflexivity|].
  rewrite IH. apply length_insert.
Qed.

Lemma lookup_nth_error {A : Type} (l : list A) (i : nat) :
  l !! i = nth_error l i.
Proof. revert i. induction l as [|h t IH]; intros [|i]; cbn; auto. Qed.

Lemma widenLoop_fold {A B : Type} (conv : A -> B) d src n out :
  forall i,
    fold_left (fun img i => <[i := conv (nth i src d)]> img) (seq 0 n) out
      !! i =
    if (i <? n)%nat && (i <? List.length out)%nat
    then Some (conv (nth i src d))
    else out !! i.
Proof.
  induction n as [|n IH]; intros i.
  - reflexivity.
  - rewrite seq_S, fold_left_app. cbn [fold_left Nat.add].
    set (acc := fold_left _ (seq 0 n) out) in *.
    assert (Hlen : List.length acc = List.length out)
      by apply (fold_insert_length (fun i => conv (nth i src d))).
    destruct (decide (i = n)) as [->|Hne].
    + destruct (Nat.ltb_spec n (List.length out)) as [Hlt|Hge].
      * rewrite list_lookup_insert_eq by lia.
        replace (n <? S n)%nat with true by (symmetry; apply Nat.ltb_lt; lia).
        reflexivity.
      * rewrite list_insert_ge by lia.
        rewrite andb_false_r, IH, Nat.ltb_irrefl. reflexivity.
    + rewrite list_lookup_insert_ne by congruence.
      rewrite IH.
      replace (i <? S n)%nat with (i <? n)%nat; [reflexivity|].
      destruct (Nat.ltb_spec i n), (Nat.ltb_spec i (S n)); try reflexivity; lia.
Qed.

(** The widening loop copies every voxel before the last one and leaves the
    last element of the destination as it was allocated. *)
Lemma widenLoop_spec {A B : Type} (conv : A -> B) d src out i :
  List.length out = List.length src ->
  nth_error (widenLoop conv d src out) i =
  if (i <? List.length src - 1)%nat then Some (conv (nth i src d))
  else nth_error out i.
Proof.
  intros Hlen. rewrite <- !lookup_nth_error. unfold widenLoop.
  rewrite widenLoop_fold.
  destruct (Nat.ltb_spec i (List.length src - 1)); [|reflexivity].
  replace (i <? List.length out)%nat with true; [reflexivity|].
  symmetry. apply Nat.ltb_lt. lia.
Qed.

Lemma widenInt8_last i8 :
  i8 <> [] ->
  nth_error (widenInt8 i8) (List.length i8 - 1) = Some 0%Z.
Proof.
  intros Hne. unfold widenInt8.
  rewrite widenLoop_spec by apply length_replicate.
  rewrite Nat.ltb_irrefl.
  rewrite <- lookup_nth_error. apply (lookup_replicate_2 (List.length i8) 0%Z).
  destruct i8; [congruence|cbn; lia].
Qed.

Lemma toInt16_small z : (-32768 <= z < 32768)%Z -> toInt16 z = z.
Proof. intros H. unfold toInt16. rewrite Z.mod_small by lia. lia. Qed.

(** Every voxel before the last one is widened with its value. *)
Lemma widenInt8_before_last i8 i v :
  nth_error i8 i = Some v -> (S i < List.length i8)%nat ->
  (-128 <= v <= 127)%Z ->
  nth_error (widenInt8 i8) i = Some v.
Proof.
  intros Hi Hlt Hv. unfold widenInt8.
  rewrite widenLoop_spec by apply length_replicate.
  replace (i <? List.length i8 - 1)%nat with true
    by (symmetry; apply Nat.ltb_lt; lia).
  rewrite (nth_error_nth _ _ _ Hi), toInt16_small by lia. reflexivity.
Qed.

(** C3. The widening loops run while [i < vx - 1] and so never copy the
    last voxel.  On the sixteen bytes of [sixteenBytes], whose last voxel
    is -1 as INT8, signed INT32 and INT64 and 4294967295 as UINT32, the
    constructor leaves 0 at the last index for each of the four widened
    datatypes: the voxel array does not hold every voxel of the source. *)
Theorem convertVoxels_drops_last_voxel :
  convertVoxels DT_INT8 sixteenBytes =
    Returned
      (Int16Array [1; 0; 0; 0; 0; 0; 0; 0; -1; -1; -1; -1; -1; -1; -1; 0]%Z,
       DT_SIGNED_SHORT) /\
  ~ preservesEveryVoxel (asInt8 sixteenBytes)
      (Int16Array (widenInt8 (asInt8 sixteenBytes))) /\
  convertVoxels DT_UINT32 sixteenBytes =
    Returned (Float64Array [ofZ 1; ofZ 0; ofZ 4294967295; zero], DT_DOUBLE) /\
  ~ preservesEveryVoxel (asUint32 sixteenBytes)
      (Float64Array (widenUint32 (asUint32 sixteenBytes))) /\
  convertVoxels DT_SIGNED_INT sixteenBytes =
    Returned (Float64Array [ofZ 1; ofZ 0; ofZ (-1); zero], DT_DOUBLE) /\
  ~ preservesEveryVoxel (asInt32 sixteenBytes)
      (Float64Array (widenInt32 (asInt32 sixteenBytes))) /\
  convertVoxels DT_INT64 sixteenBytes =
    Returned (Float64Array [ofZ 1; zero], DT_DOUBLE) /\
  ~ preservesEveryVoxel (asBigInt64 sixteenBytes)
      (Float64Array (widenInt64 (asBigInt64 sixteenBytes))).
Proof.
  repeat split; try (vm_compute; reflexivity).
  - intros H. specialize (H 15%nat (-1)%Z eq_refl).
    vm_compute in H. discriminate H.
  - intros H. specialize (H 3%nat 4294967295%Z eq_refl).
    vm_compute in H. discriminate H.
  - intros H. specialize (H 3%nat (-1)%Z eq_refl).
    vm_compute in H. discriminate H.
  - intros H. specialize (H 1%nat (-1)%Z eq_refl).
    vm_compute in H. discriminate H.
Qed.

Lemma scan_ignoring_zero l : forall st m0 x0,
  mn st = Num m0 -> mx st = Num x0 ->
  mn (fold_left (scanStep true) l st) =
    Num (fold_left (fun m v => Math_min v m) (countedVoxels l) m0) /\
  mx (fold_left (scanStep true) l st) =
    Num (fold_left (fun m v => Math_max v m) (countedVoxels l) x0).
Proof.
  induction l as [|v l IH]; intros st m0 x0 Hm Hx; cbn [fold_left].
  - cbn. auto.
  - unfold countedVoxels in *. cbn [List.filter].
    unfold scanStep at 2 4.
    destruct (isNaN v) eqn:EN; cbn [negb andb].
    + apply IH; assumption.
    + destruct (strict_eq v zero) eqn:EZ; cbn [negb andb].
      * apply IH; assumption.
      * cbn [fold_left]. rewrite Hm, Hx. cbn [toNumber]. apply IH; reflexivity.
Qed.

(** When the first voxel is neither zero nor NaN, the scan ignoring zero
    voxels does return the minimum and the maximum of the counted voxels. *)
Lemma scanVoxels_counted_first x0 t :
  isNaN x0 = false -> strict_eq x0 zero = false ->
  Some (mn (scanVoxels true (x0 :: t)))
  = option_map Num (minOf (countedVoxels (x0 :: t))) /\
  Some (mx (scanVoxels true (x0 :: t)))
  = option_map Num (maxOf (countedVoxels (x0 :: t))).
Proof.
  intros HN HZ. unfold scanVoxels. cbn [array_get nth_error].
  destruct (scan_ignoring_zero (x0 :: t) (BuildScan (Num x0) (Num x0) 0 0)
              x0 x0 eq_refl eq_refl) as [Hmn Hmx].
  rewrite Hmn, Hmx. unfold countedVoxels. cbn [List.filter].
  rewrite HN, HZ. cbn [negb andb minOf maxOf option_map fold_left].
  rewrite Math_min_idem, Math_max_idem by assumption. auto.
Qed.

(** C4. The scan seeds its minimum and maximum with [this.img[0]] before
    any voxel is tested.  On the voxels 0, 5, 7 with [ignoreZeroVoxels]
    set, the raw minimum it computes is the zero of index 0 and not 5, the
    minimum of the voxels that are neither zero nor NaN; [calMinMax]
    reports 0 as the global minimum. *)
Theorem calMinMax_counts_leading_zero :
  let img := zeroFirst in
  let this := imageOf plainHeader default_percentileFrac true false in
  minOf (countedVoxels img) = Some (ofZ 5) /\
  maxOf (countedVoxels img) = Some (ofZ 7) /\
  mn (scanVoxels (ignoreZeroVoxels this) img) = Num zero /\
  mx (scanVoxels (ignoreZeroVoxels this) img) = Num (ofZ 7) /\
  exists this',
    calMinMax noBounds 0 this img =
      Some (this', [Num zero; Num (ofZ 7); Num zero; Num (ofZ 7)],
            ["no variability in image intensity?"%string]) /\
    global_min this' = Num zero /\ global_max this' = Num (ofZ 7).
Proof.
  cbv zeta. repeat split; try (vm_compute; reflexivity).
  eexists. split; [vm_compute; reflexivity|]. split; reflexivity.
Qed.

Lemma scan_counts b l : forall st,
  nNan (fold_left (scanStep b) l st) =
    (nNan st + Z.of_nat (List.length (List.filter isNaN l)))%Z /\
  nZero (fold_left (scanStep b) l st) =
    (nZero st
     + Z.of_nat (List.length (List.filter (fun v => strict_eq v zero) l)))%Z.
Proof.
  induction l as [|v l IH]; intros st; cbn [fold_left List.filter].
  - cbn. lia.
  - destruct (IH (scanStep b st v)) as [H1 H2]. rewrite H1, H2.
    unfold scanStep.
    destruct (isNaN v) eqn:EN.
    + destruct v; try discriminate EN. cbn. lia.
    + destruct (strict_eq v zero) eqn:EZ; destruct b; cbn; lia.
Qed.

Lemma intensityRaw2Scaled_snd h raw :
  snd (intensityRaw2Scaled h raw) = scaleRaw h raw.
Proof.
  unfold intensityRaw2Scaled, scaleRaw. cbn [snd].
  destruct (strict_eq (Header.scl_slope h) zero); reflexivity.
Qed.

Lemma intensityRaw2Scaled_again h raw raw' :
  snd (intensityRaw2Scaled (fst (intensityRaw2Scaled h raw)) raw')
  = scaleRaw h raw'.
Proof.
  unfold intensityRaw2Scaled, scaleRaw. cbn [fst snd].
  destruct (strict_eq (Header.scl_slope h) zero) eqn:E; cbn.
  - reflexivity.
  - rewrite E. reflexivity.
Qed.

(** On a buffer uniformly filled with a value that is not NaN, the raw
    minimum and the raw maximum are that value, and they are equal. *)
Lemma scanVoxels_uniform b V n :
  isNaN V = false ->
  let s := scanVoxels b (replicate (S n) V) in
  mn s = Num V /\ mx s = Num V /\ value_strict_eq (mn s) (mx s) = true.
Proof.
  intros HN s.
  assert (H : forall k st, mn st = Num V -> mx st = Num V ->
            mn (fold_left (scanStep b) (replicate k V) st) = Num V /\
            mx (fold_left (scanStep b) (replicate k V) st) = Num V).
  { induction k as [|k IH]; intros st Hm Hx; cbn [replicate fold_left];
      [auto|].
    apply IH; unfold scanStep; rewrite HN;
      destruct (strict_eq V zero && b); cbn [mn mx]; try assumption;
      rewrite ?Hm, ?Hx; cbn [toNumber];
      rewrite ?Math_min_idem, ?Math_max_idem by exact HN; reflexivity. }
  destruct (H (S n) (BuildScan (Num V) (Num V) 0 0) eq_refl eq_refl)
    as [Hm Hx].
  subst s. unfold scanVoxels. cbn [replicate array_get nth_error].
  cbn [replicate] in Hm, Hx. rewrite Hm, Hx.
  repeat split. apply strict_eq_refl, HN.
Qed.

(** C6. On the scan path of [calMinMax] (the header range is not trusted
    and the colour map declares no distinct bounds), if the rounded
    percentile count is below 1 or the raw minimum equals the raw maximum,
    then no histogram is walked (the result needs no iteration of its
    loops), and [cal_min]/[cal_max], [robust_min]/[robust_max] and
    [global_min]/[global_max] are all the raw minimum and maximum converted
    through [scl_slope] and [scl_inter]. *)
Theorem calMinMax_no_variability :
  forall (colormap : String.string -> option (value * value)) (fuel : nat)
         (this : Image) (img : list number),
    trustsHeader this = false ->
    value_loose_neq (fst (colormapBounds colormap this))
      (snd (colormapBounds colormap this)) = false ->
    let s := scanVoxels (ignoreZeroVoxels this) img in
    lt (percentileCount this img) one = true \/
    value_strict_eq (mn s) (mx s) = true ->
    let lo := Num (scaleRaw (hdr this) (mn s)) in
    let hi := Num (scaleRaw (hdr this) (mx s)) in
    exists this',
      calMinMax colormap fuel this img =
        Some (this', [lo; hi; lo; hi],
              ["no variability in image intensity?"%string]) /\
      calMinMax colormap 0 this img = calMinMax colormap fuel this img /\
      cal_min this' = lo /\ cal_max this' = hi /\
      robust_min this' = lo /\ robust_max this' = hi /\
      global_min this' = lo /\ global_max this' = hi.
Proof.
  intros colormap fuel this img Htrust Hcm s Hguard lo hi.
  assert (G : lt (Math_round
                    (mul (ofZ (Z.of_nat (List.length img)
                                - ((if negb (ignoreZeroVoxels this) then 0
                                    else nZero s)
                                   + nNan s)))
                       (percentileFrac this))) one
              || value_strict_eq (mn s) (mx s) = true).
  { apply orb_true_iff.
    destruct Hguard as [H|H]; [left|right; exact H].
    rewrite <- H. unfold percentileCount, excludedVoxels. subst s.
    unfold scanVoxels.
    destruct (scan_counts (ignoreZeroVoxels this) img
                (BuildScan (array_get img 0) (array_get img 0) 0 0)) as [H1 H2].
    rewrite H1, H2. cbn [nNan nZero].
    destruct (ignoreZeroVoxels this); cbn [negb]; do 4 f_equal; lia. }
  set (h2 := fst (intensityRaw2Scaled
                    (fst (intensityRaw2Scaled (hdr this) (mn s))) (mx s))).
  assert (E : forall f, calMinMax colormap f this img =
     Some (set_global (set_cal_robust (set_hdr this h2) lo hi) lo hi,
           [lo; hi; lo; hi], ["no variability in image intensity?"%string])).
  { intros f. subst h2. unfold calMinMax. rewrite Htrust.
    destruct (colormapBounds colormap this) as [cmMin cmMax].
    cbn [fst snd] in Hcm. rewrite Hcm.
    fold s.
    pose proof (intensityRaw2Scaled_snd (hdr this) (mn s)) as S1.
    pose proof (intensityRaw2Scaled_again (hdr this) (mn s) (mx s)) as S2.
    destruct (intensityRaw2Scaled (hdr this) (mn s)) as [h1 mnScale].
    cbn [fst snd] in *.
    destruct (intensityRaw2Scaled h1 (mx s)) as [h2 mxScale].
    cbn [fst snd] in *. subst mnScale mxScale.
    cbn [ignoreZeroVoxels percentileFrac set_hdr].
    rewrite G. reflexivity. }
  eexists. split; [apply E|]. split; [rewrite !E; reflexivity|].
  repeat split; reflexivity.
Qed.

(** A buffer uniformly filled with 7 calibrates to the range 7 .. 7. *)
Lemma calMinMax_no_variability_witness :
  let this := imageOf plainHeader default_percentileFrac false false in
  let s := scanVoxels false uniformSevens in
  (trustsHeader this = false /\
   value_loose_neq (fst (colormapBounds noBounds this))
     (snd (colormapBounds noBounds this)) = false /\
   (lt (percentileCount this uniformSevens) one = true \/
    value_strict_eq (mn s) (mx s) = true)) /\
  exists this',
    calMinMax noBounds 0 this uniformSevens =
      Some (this', [Num (ofZ 7); Num (ofZ 7); Num (ofZ 7); Num (ofZ 7)],
            ["no variability in image intensity?"%string]) /\
    cal_min this' = Num (ofZ 7) /\ cal_max this' = Num (ofZ 7) /\
    global_min this' = Num (ofZ 7) /\ global_max this' = Num (ofZ 7).
Proof.
  cbv zeta.
  set (this := imageOf plainHeader default_percentileFrac false false).
  assert (H1 : trustsHeader this = false) by (vm_compute; reflexivity).
  assert (H2 : value_loose_neq (fst (colormapBounds noBounds this))
                 (snd (colormapBounds noBounds this)) = false)
    by (vm_compute; reflexivity).
  assert (H3 : lt (percentileCount this uniformSevens) one = true \/
               value_strict_eq
                 (mn (scanVoxels (ignoreZeroVoxels this) uniformSevens))
                 (mx (scanVoxels (ignoreZeroVoxels this) uniformSevens)) = true)
    by (right; vm_compute; reflexivity).
  split; [split; [exact H1|split; [exact H2|exact H3]]|].
  destruct (calMinMax_no_variability noBounds 0 _ _ H1 H2 H3)
    as (this' & E & _ & C1 & C2 & _ & _ & G1 & G2).
  exists this'. split; [exact E|]. repeat split; assumption.
Defined.

Lemma histogram_bounded (hist : gmap Z number) :
  exists lower upper : Z,
    (lower < 0 /\ nBins <= upper)%Z /\
    forall k, (k <= lower \/ upper <= k)%Z -> hist !! k = None.
Proof.
  induction hist as [|i x m Hi IH] using map_ind.
  - exists (-1)%Z, nBins. split; [unfold nBins; lia|].
    intros k _. apply lookup_empty.
  - destruct IH as (lo & up & Hb & IH).
    exists (Z.min lo (i - 1)), (Z.max up (i + 1)). split; [lia|].
    intros k Hk. rewrite lookup_insert_ne by lia. apply IH. lia.
Qed.

Ltac walk_done :=
  (split; [reflexivity|]); (split; [lia|]); split; intros;
  first [lia|congruence].

Lemma walkLo_terminates hist n2pct upper :
  (forall k, (upper <= k)%Z -> hist !! k = None) ->
  forall d n lo fuel,
    (upper - lo <= Z.of_nat d)%Z -> (d + 2 <= fuel)%nat ->
    exists lo', walkLo fuel hist n2pct n lo = Some lo' /\
                (lo <= lo')%Z /\ (lt n n2pct = true -> lo < lo')%Z /\
                (lt n n2pct = false -> lo' = lo).
Proof.
  intros Hup. induction d as [|d IH]; intros n lo fuel Hd Hf.
  - destruct fuel as [|[|fuel]]; try lia. cbn [walkLo].
    destruct (lt n n2pct) eqn:E.
    + unfold hist_get. rewrite Hup by lia. cbn [toNumber].
      rewrite add_NaN_r, lt_NaN_l.
      exists (lo + 1)%Z. walk_done.
    + exists lo. walk_done.
  - destruct fuel as [|fuel]; try lia. cbn [walkLo].
    destruct (lt n n2pct) eqn:E.
    + destruct (IH (add n (toNumber (hist_get hist lo))) (lo + 1)%Z fuel)
        as (lo' & Hw & Hle & _); try lia. rewrite Hw.
      exists lo'. walk_done.
    + exists lo. walk_done.
Qed.

Lemma walkHi_terminates hist n2pct lower :
  (forall k, (k <= lower)%Z -> hist !! k = None) ->
  forall d n hi fuel,
    (hi - 1 - lower <= Z.of_nat d)%Z -> (d + 2 <= fuel)%nat ->
    exists hi', walkHi fuel hist n2pct n hi = Some hi' /\
                (hi' <= hi)%Z /\ (lt n n2pct = true -> hi' < hi)%Z /\
                (lt n n2pct = false -> hi' = hi).
Proof.
  intros Hlow. induction d as [|d IH]; intros n hi fuel Hd Hf.
  - destruct fuel as [|[|fuel]]; try lia. cbn [walkHi].
    destruct (lt n n2pct) eqn:E.
    + unfold hist_get. rewrite Hlow by lia. cbn [toNumber].
      rewrite add_NaN_r, lt_NaN_l.
      exists (hi - 1)%Z. walk_done.
    + exists hi. walk_done.
  - destruct fuel as [|fuel]; try lia. cbn [walkHi].
    destruct (lt n n2pct) eqn:E.
    + destruct (IH (add n (toNumber (hist_get hist (hi - 1)))) (hi - 1)%Z fuel)
        as (hi' & Hw & Hle & _); try lia. rewrite Hw.
      exists hi'. walk_done.
    + exists hi. walk_done.
Qed.

Lemma spread_terminates hist :
  forall fuel lo hi,
    (0 <= lo)%Z -> (hi <= nBins - 1)%Z ->
    (lo + (nBins - 1 - hi) < Z.of_nat fuel)%Z ->
    exists r, spread fuel hist lo hi = Some r.
Proof.
  induction fuel as [|fuel IH]; intros lo hi Hlo Hhi Hd; [lia|].
  cbn [spread].
  repeat first
    [ progress cbn [negb andb]
    | match goal with
      | |- context [if ?c then _ else _] => destruct c eqn:?
      end ];
    try (eexists; reflexivity);
    rewrite ?andb_true_iff, ?andb_false_iff, ?Z.ltb_lt, ?Z.ltb_ge,
      ?Z.eqb_eq, ?Z.eqb_neq in *.
  all: try (apply IH; lia).
  exfalso.
  match goal with H : _ \/ _ |- _ => destruct H as [H|H]; [discriminate H|] end.
  assert (lo = 0)%Z as -> by lia. assert (hi = nBins - 1)%Z as -> by lia.
  match goal with H : _ <> 0%Z |- _ => apply H; reflexivity end.
Qed.

Lemma robustBins_terminates ignoreZero img mn mx n2pct :
  exists fuel0, forall fuel, (fuel0 <= fuel)%nat ->
    exists r, robustBins fuel ignoreZero img mn mx n2pct = Some r.
Proof.
  unfold robustBins.
  set (hist := buildHistogram _ _ _ _).
  destruct (histogram_bounded hist) as (lower & upper & [Hl Hu] & Hout).
  exists (Z.to_nat (upper - lower) + Z.to_nat nBins + 2)%nat.
  intros fuel Hfuel.
  destruct (walkLo_terminates hist n2pct upper
              (fun k H => Hout k (or_intror H)) (Z.to_nat upper) zero 0%Z fuel)
    as (lo & -> & Hlo0 & Hlo1 & Hlo2); [lia|lia|].
  destruct (walkHi_terminates hist n2pct lower
              (fun k H => Hout k (or_introl H)) (Z.to_nat (nBins - lower)) zero
              nBins fuel)
    as (hi & -> & Hhi0 & Hhi1 & Hhi2); [lia|unfold nBins in *; lia|].
  destruct (lo - 1 =? hi)%Z eqn:E; [|eauto].
  apply Z.eqb_eq in E.
  destruct (lt zero n2pct) eqn:En.
  - destruct (spread_terminates hist fuel (lo - 1) hi) as ([lo' hi'] & ->);
      [lia|lia|unfold nBins in *; lia|]. eauto.
  - unfold nBins in *. lia.
Qed.

Section CloneFacts.
Variable stored : number -> number.
Variable mat4_invert mat4_multiply : glmat -> glmat -> glmat.
Variable colormap : String.string -> option (value * value).

Lemma calMinMax_terminates this img :
  exists fuel0, forall fuel, (fuel0 <= fuel)%nat ->
    exists r, calMinMax colormap fuel this img = Some r.
Proof.
  unfold calMinMax.
  destruct (trustsHeader this); [exists 0%nat; eauto|].
  destruct (colormapBounds colormap this) as [cmMin cmMax].
  destruct (value_loose_neq cmMin cmMax); [exists 0%nat; eauto|].
  destruct (intensityRaw2Scaled (hdr this) _) as [h1 mnScale].
  destruct (intensityRaw2Scaled h1 _) as [h2 mxScale].
  destruct (lt _ one || _); [exists 0%nat; eauto|].
  match goal with
  | |- context [robustBins _ ?i ?g ?a ?b ?n] =>
      destruct (robustBins_terminates i g a b n) as (fuel0 & H)
  end.
  exists fuel0. intros fuel Hf. destruct (H fuel Hf) as ([rawLo rawHi] & ->).
  destruct (intensityRaw2Scaled h2 _) as [h3 pct2].
  destruct (intensityRaw2Scaled h3 _) as [h4 pct98].
  destruct (_ && _ && _); eauto.
Qed.

Lemma calMinMax_img fuel this img this' r l :
  calMinMax colormap fuel this img = Some (this', r, l) ->
  NVImage.img this' = NVImage.img this.
Proof.
  unfold calMinMax.
  repeat match goal with
         | |- context [let '(_, _) := ?x in _] => destruct x
         | |- context [match ?x with Some _ => _ | None => _ end] => destruct x
         | |- context [if ?c then _ else _] => destruct c
         end; intros H; inversion H; reflexivity.
Qed.

Lemma clone_store fuel this s clonedImage s' :
  clone stored mat4_invert mat4_multiply colormap fuel this s
    = Some (clonedImage, s') ->
  exists buf,
    s !! img this = Some buf /\
    img clonedImage = fresh (dom s) /\
    s' = <[img clonedImage := buf]> s.
Proof.
  unfold clone. destruct (s !! img this) as [buf|] eqn:E; [|discriminate].
  destruct (calMinMax _ _ _ _) as [[[c r] l]|] eqn:EC; [|discriminate].
  intros H. inversion H; subst. exists buf. split; [reflexivity|].
  apply calMinMax_img in EC. cbn in EC. rewrite EC. auto.
Qed.

Lemma clone_returns this s buf :
  s !! img this = Some buf ->
  exists fuel0, forall fuel, (fuel0 <= fuel)%nat ->
    exists clonedImage s',
      clone stored mat4_invert mat4_multiply colormap fuel this s
        = Some (clonedImage, s').
Proof.
  intros E. unfold clone. rewrite E.
  match goal with
  | |- context [calMinMax _ _ ?c ?i] =>
      destruct (calMinMax_terminates c i) as (fuel0 & H)
  end.
  exists fuel0. intros fuel Hf. destruct (H fuel Hf) as ([[c r] l] & ->). eauto.
Qed.

(** C10. [clone] of an image that has a voxel array returns (given enough
    fuel for the loops of [calMinMax]) an image whose voxel array is a new
    array with the same elements: whatever is later written into the
    array of the clone, in particular the zeros of [zeroImage] as in
    [zerosLike], the voxel array of the original image is unchanged. *)
Theorem clone_buffer_independent :
  forall (this : Image) (s : store) (buf : TypedArray),
    s !! img this = Some buf ->
    (exists fuel clonedImage s',
       clone stored mat4_invert mat4_multiply colormap fuel this s
         = Some (clonedImage, s')) /\
    (forall fuel clonedImage s',
       clone stored mat4_invert mat4_multiply colormap fuel this s
         = Some (clonedImage, s') ->
       img clonedImage <> img this /\
       s' !! img clonedImage = Some buf /\
       s' !! img this = Some buf /\
       (forall buf', <[img clonedImage := buf']> s' !! img this = Some buf) /\
       (forall s'', zeroImage clonedImage s' = Some s'' ->
          s'' !! img this = Some buf /\
          s'' !! img clonedImage = Some (fill_zero buf))) /\
    (forall fuel zeroClone s',
       zerosLike stored mat4_invert mat4_multiply colormap fuel this s
         = Some (zeroClone, s') ->
       s' !! img this = Some buf /\
       s' !! img zeroClone = Some (fill_zero buf)).
Proof.
  intros this s buf Hbuf.
  assert (Frame : forall fuel clonedImage s',
       clone stored mat4_invert mat4_multiply colormap fuel this s
         = Some (clonedImage, s') ->
       img clonedImage <> img this /\
       s' !! img clonedImage = Some buf /\
       s' !! img this = Some buf /\
       (forall buf', <[img clonedImage := buf']> s' !! img this = Some buf) /\
       (forall s'', zeroImage clonedImage s' = Some s'' ->
          s'' !! img this = Some buf /\
          s'' !! img clonedImage = Some (fill_zero buf))).
  { intros fuel c s' Hc.
    destruct (clone_store _ _ _ _ _ Hc) as (buf0 & Hb & Hl & ->).
    rewrite Hbuf in Hb. inversion Hb; subst buf0.
    assert (Hne : img c <> img this).
    { rewrite Hl. intros Heq.
      apply (is_fresh (dom s)). rewrite Heq. apply elem_of_dom. eauto. }
    split; [exact Hne|].
    split; [apply lookup_insert_eq|].
    split; [rewrite lookup_insert_ne by exact Hne; exact Hbuf|].
    split.
    - intros buf'. rewrite !lookup_insert_ne by exact Hne. exact Hbuf.
    - intros s'' Hz. unfold zeroImage in Hz.
      rewrite lookup_insert_eq in Hz. inversion Hz; subst s''.
      split.
      + rewrite !lookup_insert_ne by exact Hne. exact Hbuf.
      + apply lookup_insert_eq. }
  split; [|split; [exact Frame|]].
  - destruct (clone_returns this s buf Hbuf) as (fuel0 & H).
    exists fuel0. apply H. lia.
  - intros fuel z s' Hz. unfold zerosLike in Hz.
    destruct (clone _ _ _ _ _ _ _) as [[c s1]|] eqn:Hc; [|discriminate].
    destruct (zeroImage c s1) as [s2|] eqn:Hz2; [|discriminate].
    inversion Hz; subst.
    destruct (Frame _ _ _ Hc) as (_ & _ & _ & _ & H). apply H. exact Hz2.
Qed.
End CloneFacts.

(** [zerosLike] on an image of four voxels. *)
Lemma clone_buffer_independent_witness :
  someStore !! img someImage = Some (Uint8Array [10; 20; 30; 40]%Z) /\
  exists zeroClone s',
    zerosLike (fun x => x) (fun out _ => out) (fun a _ => a) (fun _ => None)
      2000 someImage someStore = Some (zeroClone, s') /\
    s' !! img someImage = Some (Uint8Array [10; 20; 30; 40]%Z) /\
    s' !! img zeroClone = Some (Uint8Array [0; 0; 0; 0]%Z).
Proof.
  assert (H0 : someStore !! img someImage
               = Some (Uint8Array [10; 20; 30; 40]%Z)) by reflexivity.
  split; [exact H0|].
  destruct (clone_buffer_independent (fun x => x) (fun out _ => out)
              (fun a _ => a) (fun _ => None) someImage someStore _ H0)
    as (_ & _ & H).
  destruct (zerosLike (fun x => x) (fun out _ => out) (fun a _ => a)
              (fun _ => None) 2000 someImage someStore) as [[z s']|] eqn:E.
  - exists z, s'. split; [reflexivity|]. apply (H 2000%nat z s'). exact E.
  - vm_compute in E. discriminate E.
Defined.

End NVImageFacts.

(** ** Properties of the fragment shader *)

Module ShaderFacts.
Import Shader.
Local Open Scope Q_scope.

Lemma ltb_lt p q : ltb p q = true <-> p < q.
Proof.
  unfold ltb. rewrite negb_true_iff. split.
  - intros H. apply Qnot_le_lt. intros Hle. apply Qle_bool_iff in Hle. congruence.
  - intros H. apply not_true_is_false. intros Hle. apply Qle_bool_iff in Hle. lra.
Qed.

Lemma ltb_ge p q : ltb p q = false <-> q <= p.
Proof.
  unfold ltb. rewrite negb_false_iff. apply Qle_bool_iff.
Qed.

Lemma leb_le p q : leb p q = true <-> p <= q.
Proof. apply Qle_bool_iff. Qed.

Lemma leb_gt p q : leb p q = false <-> q < p.
Proof.
  unfold leb. split.
  - intros H. apply Qnot_le_lt. intros Hle. apply Qle_bool_iff in Hle. congruence.
  - intros H. apply not_true_is_false. intros Hle. apply Qle_bool_iff in Hle. lra.
Qed.

(** C9. For every ray direction, sample position and traversal length, a
    clip plane whose offset component is above 1.0 makes [applyClip]
    return at once: the value returned is the sample position, and the
    [inout] sample position and traversal length are unmodified. *)
Theorem applyClip_disabled :
  forall (clipPlane : vec4) (dir : vec3) (samplePos : vec4) (len : Q),
    1 < a clipPlane ->
    applyClip clipPlane dir samplePos len = (samplePos, samplePos, len).
Proof.
  intros clipPlane dir samplePos len H. unfold applyClip.
  replace (ltb 1.0 (a clipPlane)) with true; [reflexivity|].
  symmetry. apply ltb_lt. lra.
Qed.

(** A clip plane of offset 2. *)
Lemma applyClip_disabled_witness :
  1 < a (Vec4 0 0 1 2) /\
  applyClip (Vec4 0 0 1 2) (Vec3 0 0 1) (Vec4 0.5 0.5 0 0) 1
  = (Vec4 0.5 0.5 0 0, Vec4 0.5 0.5 0 0, 1).
Proof.
  assert (H : 1 < a (Vec4 0 0 1 2)) by reflexivity.
  split; [exact H|].
  apply (applyClip_disabled (Vec4 0 0 1 2) (Vec3 0 0 1) (Vec4 0.5 0.5 0 0) 1 H).
Defined.

Section Compositing.
Variable volume : vec3 -> vec4.
Variable pow : Q -> Q -> Q.
Hypothesis pow_one : forall p q, q == 1 -> pow p q == p.

Lemma compositeStep_transparent deltaDir oc st :
  a (volume (xyz (samplePos st))) < 0.01 ->
  compositeStep volume pow deltaDir oc st =
    (BuildAccum (add4 (samplePos st) deltaDir) (firstHit st) (backNearest st)
       (colAcc st), false).
Proof.
  intros H. unfold compositeStep.
  replace (ltb _ 0.01) with true; [reflexivity|].
  symmetry. apply ltb_lt. exact H.
Qed.

Lemma composite_all_transparent deltaDir oc len :
  (forall p, a (volume p) < 0.01) ->
  forall fuel st st',
    composite volume pow fuel deltaDir oc len st = Some st' ->
    colAcc st' = colAcc st.
Proof.
  intros Hall. induction fuel as [|fuel IH]; intros st st' H; [discriminate|].
  cbn [composite] in H.
  destruct (leb (a (samplePos st)) len).
  - rewrite compositeStep_transparent in H by apply Hall.
    apply IH in H. exact H.
  - inversion H. reflexivity.
Qed.

Lemma compositeStep_opaque deltaDir oc st :
  oc == 1 ->
  a (volume (xyz (samplePos st))) == 1 ->
  let sample := volume (xyz (samplePos st)) in
  let st' := fst (compositeStep volume pow deltaDir oc st) in
  snd (compositeStep volume pow deltaDir oc st) = true /\
  a (colAcc st') == 1 /\
  r (colAcc st') == (1 - a (colAcc st)) * r sample + r (colAcc st) /\
  g (colAcc st') == (1 - a (colAcc st)) * g sample + g (colAcc st) /\
  b (colAcc st') == (1 - a (colAcc st)) * b sample + b (colAcc st).
Proof.
  intros Hoc Hop sample st'. subst st'. unfold compositeStep. fold sample.
  assert (Hnt : ltb (a sample) 0.01 = false) by (apply ltb_ge; subst sample; lra).
  rewrite Hnt. cbn [fst snd colAcc add4 scale4 set_a a r g b].
  assert (Hp : pow (1.0 - a sample) oc == 0).
  { rewrite pow_one by exact Hoc. subst sample. lra. }
  assert (Ha : (1.0 - a (colAcc st)) * (1.0 - pow (1.0 - a sample) oc)
               + a (colAcc st) == 1).
  { rewrite Hp. ring. }
  split; [apply ltb_lt; rewrite Ha; reflexivity|].
  split; [exact Ha|].
  rewrite Hp. repeat split; ring.
Qed.
Lemma rayPosition_mono p deltaDir k :
  0 <= a deltaDir -> a p <= a (rayPosition p deltaDir k).
Proof.
  intros H. revert p. induction k as [|k IH]; intros p; cbn [rayPosition].
  - lra.
  - specialize (IH (add4 p deltaDir)). cbn [add4 a] in IH. lra.
Qed.

Lemma composite_first_opaque deltaDir oc len :
  oc == 1 -> 0 <= a deltaDir ->
  forall k st fuel,
    (forall j, (j < k)%nat ->
       a (volume (xyz (rayPosition (samplePos st) deltaDir j))) < 0.01) ->
    a (volume (xyz (rayPosition (samplePos st) deltaDir k))) == 1 ->
    a (rayPosition (samplePos st) deltaDir k) <= len ->
    (k < fuel)%nat ->
    let sample := volume (xyz (rayPosition (samplePos st) deltaDir k)) in
    exists st',
      composite volume pow fuel deltaDir oc len st = Some st' /\
      a (colAcc st') == 1 /\
      r (colAcc st') == (1 - a (colAcc st)) * r sample + r (colAcc st) /\
      g (colAcc st') == (1 - a (colAcc st)) * g sample + g (colAcc st) /\
      b (colAcc st') == (1 - a (colAcc st)) * b sample + b (colAcc st).
Proof.
  intros Hoc Hdd. induction k as [|k IH]; intros st fuel Hbefore Hop Hlen Hfuel sample;
    (destruct fuel as [|fuel]; [lia|]); cbn [composite].
  - cbn [rayPosition] in *.
    replace (leb (a (samplePos st)) len) with true
      by (symmetry; apply leb_le; exact Hlen).
    destruct (compositeStep_opaque deltaDir oc st Hoc Hop) as (Hstop & Hrest).
    destruct (compositeStep volume pow deltaDir oc st) as [st1 stop].
    cbn [fst snd] in *. subst stop. exists st1. split; [reflexivity|exact Hrest].
  - pose proof (rayPosition_mono (samplePos st) deltaDir (S k) Hdd) as Hmono.
    replace (leb (a (samplePos st)) len) with true
      by (symmetry; apply leb_le; lra).
    rewrite compositeStep_transparent by (apply (Hbefore 0%nat); lia).
    apply (IH (BuildAccum (add4 (samplePos st) deltaDir) (firstHit st)
                 (backNearest st) (colAcc st)) fuel).
    + intros j Hj. apply (Hbefore (S j)). lia.
    + exact Hop.
    + exact Hlen.
    + lia.
Qed.

(** C7. In the compositing loop, with the opacity correction equal to 1:
    a sample whose alpha is below 0.01 leaves [colAcc] unchanged, so that
    a ray of such samples ends with the [colAcc] it started with; and when
    the first sample that is not below the threshold, the [k]-th of the
    ray, has alpha 1, the loop ends at that sample (by [break]: [k + 1]
    iterations are all it runs) with accumulated alpha 1, above the
    early-termination threshold, and with the colour of that sample
    composited over the prior colour, which is the colour of the sample
    itself when the accumulator was empty. *)
Theorem composite_transparent_opaque :
  forall (deltaDir : vec4) (opacityCorrection len : Q) (st : Accum),
    opacityCorrection == 1 ->
    0 <= a deltaDir ->
    (a (volume (xyz (samplePos st))) < 0.01 ->
       colAcc (fst (compositeStep volume pow deltaDir opacityCorrection st))
         = colAcc st) /\
    ((forall p, a (volume p) < 0.01) ->
       forall fuel st',
         composite volume pow fuel deltaDir opacityCorrection len st = Some st' ->
         colAcc st' = colAcc st) /\
    (forall k : nat,
       (forall j, (j < k)%nat ->
          a (volume (xyz (rayPosition (samplePos st) deltaDir j))) < 0.01) ->
       a (volume (xyz (rayPosition (samplePos st) deltaDir k))) == 1 ->
       a (rayPosition (samplePos st) deltaDir k) <= len ->
       let sample := volume (xyz (rayPosition (samplePos st) deltaDir k)) in
       exists st',
         composite volume pow (S k) deltaDir opacityCorrection len st = Some st' /\
         a (colAcc st') == 1 /\
         earlyTermination < a (colAcc st') /\
         r (colAcc st') == (1 - a (colAcc st)) * r sample + r (colAcc st) /\
         g (colAcc st') == (1 - a (colAcc st)) * g sample + g (colAcc st) /\
         b (colAcc st') == (1 - a (colAcc st)) * b sample + b (colAcc st) /\
         (colAcc st = vec4_zero ->
            r (colAcc st') == r sample /\ g (colAcc st') == g sample /\
            b (colAcc st') == b sample)).
Proof.
  intros deltaDir oc len st Hoc Hdd. split; [|split].
  - intros H. rewrite compositeStep_transparent by exact H. reflexivity.
  - intros Hall fuel st' H.
    apply (composite_all_transparent deltaDir oc len Hall fuel st st' H).
  - intros k Hbefore Hop Hlen sample.
    destruct (composite_first_opaque deltaDir oc len Hoc Hdd k st (S k)
                Hbefore Hop Hlen (Nat.lt_succ_diag_r k))
      as (st' & Hc & Ha & Hr & Hg & Hb).
    exists st'. split; [exact Hc|]. split; [exact Ha|].
    split; [rewrite Ha; reflexivity|].
    split; [exact Hr|]. split; [exact Hg|]. split; [exact Hb|].
    intros Hz. rewrite Hz in Hr, Hg, Hb. cbn in Hr, Hg, Hb.
    fold sample in Hr, Hg, Hb.
    repeat split; [rewrite Hr|rewrite Hg|rewrite Hb]; ring.
Qed.
End Compositing.

Lemma powInt_one p q : q == 1 -> powInt p q == p.
Proof.
  intros H. unfold powInt. rewrite (Qfloor_comp q 1 H).
  change (Qfloor 1) with 1%Z. cbn. ring.
Qed.

(** A ray that meets the opaque [slab] at its third sample. *)
Lemma composite_transparent_opaque_witness :
  let st := BuildAccum (Vec4 0.5 0.5 0 0) vec4_zero 1 vec4_zero in
  let deltaDir := Vec4 0 0 0.25 0.25 in
  ((forall p q, q == 1 -> powInt p q == p) /\ 1 == 1 /\ 0 <= a deltaDir) /\
  exists st',
    composite slab powInt 3 deltaDir 1 1 st = Some st' /\
    a (colAcc st') == 1 /\ r (colAcc st') == 0.8 /\
    g (colAcc st') == 0.4 /\ b (colAcc st') == 0.2.
Proof.
  cbv zeta.
  assert (Hoc : 1 == 1) by reflexivity.
  assert (Hdd : 0 <= a (Vec4 0 0 0.25 0.25)) by (cbn; lra).
  split; [split; [exact powInt_one|split; [exact Hoc|exact Hdd]]|].
  destruct (composite_transparent_opaque slab powInt powInt_one
              (Vec4 0 0 0.25 0.25) 1 1
              (BuildAccum (Vec4 0.5 0.5 0 0) vec4_zero 1 vec4_zero) Hoc Hdd)
    as (_ & _ & H).
  destruct (H 2%nat) as (st' & Hc & Ha & _ & _ & _ & _ & Hz).
  - intros j Hj. destruct j as [|[|j]]; [reflexivity|reflexivity|lia].
  - reflexivity.
  - cbn. lra.
  - destruct (Hz eq_refl) as (Hr & Hg & Hb).
    exists st'. split; [exact Hc|]. split; [exact Ha|].
    split; [exact Hr|]. split; [exact Hg|exact Hb].
Defined.
(** C8, as stated, fails: on a uniformly opaque volume, with background
    opacity 1, the first sample brings the accumulated alpha to 1, and the
    final alpha is 1 / 0.95, above 1: 20/19 in exact arithmetic. *)
Lemma main_alpha_exceeds_one :
  0 <= 1 <= 1 /\
  exists fColor,
    main (Vec4 0 0 1 2) 0 1 opaqueVolume emptyVolume powInt 10 straightRay
      = Some fColor /\
    a fColor == 20 # 19 /\
    ~ (0 <= a fColor <= 1).
Proof.
  split; [lra|].
  eexists. split; [vm_compute; reflexivity|].
  split; [reflexivity|]. cbn. intros [_ H]. revert H. apply Qlt_not_le. reflexivity.
Qed.

(** In the binary32 arithmetic of the shader the same input gives slightly
    more than 20/19: [1.0 / 0.95] rounds to 8830114 * 2^-23, about
    1.0526316166.  The bounds proved below are those of exact arithmetic;
    the shader meets them up to such rounding. *)
Lemma finalAlpha32_exceeds_exact :
  finalAlpha32 (float32_of 1 1) (float32_of 1 1)
    = S754_finite false 8830114 (-23) /\
  20 # 19 < float_value (finalAlpha32 (float32_of 1 1) (float32_of 1 1)) /\
  float_value (finalAlpha32 (float32_of 1 1) (float32_of 1 1)) - (20 # 19)
    < 1 # 10000000.
Proof.
  assert (E : finalAlpha32 (float32_of 1 1) (float32_of 1 1)
              = S754_finite false 8830114 (-23)) by (vm_compute; reflexivity).
  rewrite E. split; [reflexivity|]. split; vm_compute; reflexivity.
Qed.

Section Bounds.
Variable tex : vec3 -> vec4.
Variable pow : Q -> Q -> Q.
Hypothesis pow_one : forall p q, q == 1 -> pow p q == p.
Hypothesis tex_alpha : forall p, 0 <= a (tex p) <= 1.

Lemma blend_alpha A s : 0 <= A <= 1 -> 0 <= s <= 1 -> 0 <= (1.0 - A) * s + A <= 1.
Proof. intros [? ?] [? ?]. split; nra. Qed.

Lemma compositeStep_alpha deltaDir oc st :
  oc == 1 -> 0 <= a (colAcc st) <= 1 ->
  0 <= a (colAcc (fst (compositeStep tex pow deltaDir oc st))) <= 1.
Proof.
  intros Hoc HA. unfold compositeStep.
  destruct (ltb _ 0.01); cbn [fst colAcc]; [exact HA|].
  cbn [add4 scale4 set_a a].
  rewrite pow_one by exact Hoc.
  apply blend_alpha; [exact HA|].
  pose proof (tex_alpha (xyz (samplePos st))). lra.
Qed.

Lemma composite_alpha deltaDir oc len :
  oc == 1 ->
  forall fuel st st',
    composite tex pow fuel deltaDir oc len st = Some st' ->
    0 <= a (colAcc st) <= 1 -> 0 <= a (colAcc st') <= 1.
Proof.
  intros Hoc. induction fuel as [|fuel IH]; intros st st' H HA; [discriminate|].
  cbn [composite] in H.
  destruct (leb (a (samplePos st)) len).
  - pose proof (compositeStep_alpha deltaDir oc st Hoc HA) as H1.
    destruct (compositeStep tex pow deltaDir oc st) as [st1 stop].
    cbn [fst] in H1. destruct stop.
    + inversion H; subst. exact H1.
    + apply (IH st1 st' H H1).
  - inversion H; subst. exact HA.
Qed.

Lemma overlayStep_alpha deltaDir oc st :
  oc == 1 -> 0 <= a (overAcc st) <= 1 ->
  0 <= a (overAcc (fst (overlayStep tex pow deltaDir oc st))) <= 1.
Proof.
  intros Hoc HA. unfold overlayStep.
  destruct (ltb _ 0.01); cbn [fst overAcc]; [exact HA|].
  cbn [add4 scale4 set_a a].
  rewrite pow_one by exact Hoc.
  apply blend_alpha; [exact HA|].
  pose proof (tex_alpha (xyz (overPos st))). lra.
Qed.

Lemma compositeOverlay_alpha deltaDir oc len :
  oc == 1 ->
  forall fuel st st',
    compositeOverlay tex pow fuel deltaDir oc len st = Some st' ->
    0 <= a (overAcc st) <= 1 -> 0 <= a (overAcc st') <= 1.
Proof.
  intros Hoc. induction fuel as [|fuel IH]; intros st st' H HA; [discriminate|].
  cbn [compositeOverlay] in H.
  destruct (leb (a (overPos st)) len).
  - pose proof (overlayStep_alpha deltaDir oc st Hoc HA) as H1.
    destruct (overlayStep tex pow deltaDir oc st) as [st1 stop].
    cbn [fst] in H1. destruct stop.
    + inversion H; subst. exact H1.
    + apply (IH st1 st' H H1).
  - inversion H; subst. exact HA.
Qed.

Lemma steps_bound len p step :
  0 < step -> len - p < inject_Z (Z.of_nat (steps ((len - p) / step))) * step.
Proof.
  intros Hs. unfold steps.
  pose proof (Qlt_floor ((len - p) / step)) as H.
  assert (Hle : inject_Z (Qfloor ((len - p) / step) + 1)
                <= inject_Z (Z.of_nat (Z.to_nat (Qfloor ((len - p) / step) + 1)))).
  { rewrite <- Zle_Qle. lia. }
  assert (Hq : len - p == (len - p) / step * step) by (field; lra).
  rewrite Hq at 1. nra.
Qed.

Lemma fastPass_terminates deltaDirFast len :
  0 < a deltaDirFast ->
  forall n samplePos,
    len - a samplePos < inject_Z (Z.of_nat n) * a deltaDirFast ->
    exists end_, forall fuel, (n < fuel)%nat ->
      fastPass fuel tex deltaDirFast len samplePos = Some end_.
Proof.
  intros Hs. induction n as [|n IH]; intros pos Hn.
  - exists pos. intros fuel Hf. destruct fuel as [|fuel]; [lia|]. cbn [fastPass].
    replace (leb (a pos) len) with false; [reflexivity|].
    symmetry. apply leb_gt. change (inject_Z (Z.of_nat 0)) with 0 in Hn. lra.
  - destruct (leb (a pos) len) eqn:E.
    + destruct (ltb 0.01 (a (tex (xyz pos)))) eqn:E2.
      * exists pos. intros fuel Hf. destruct fuel as [|fuel]; [lia|]. cbn [fastPass].
        rewrite E, E2. reflexivity.
      * destruct (IH (add4 pos deltaDirFast)) as (r & Hr).
        { cbn [add4 a]. rewrite Nat2Z.inj_succ, <- Z.add_1_r, inject_Z_plus in Hn.
          change (inject_Z 1) with 1 in Hn. lra. }
        exists r. intros fuel Hf. destruct fuel as [|fuel]; [lia|]. cbn [fastPass].
        rewrite E, E2. apply Hr. lia.
    + exists pos. intros fuel Hf. destruct fuel as [|fuel]; [lia|]. cbn [fastPass].
      rewrite E. reflexivity.
Qed.

Lemma composite_terminates deltaDir oc len :
  0 < a deltaDir ->
  forall n st,
    len - a (samplePos st) < inject_Z (Z.of_nat n) * a deltaDir ->
    exists end_, forall fuel, (n < fuel)%nat ->
      composite tex pow fuel deltaDir oc len st = Some end_.
Proof.
  intros Hs. induction n as [|n IH]; intros st Hn.
  - exists st. intros fuel Hf. destruct fuel as [|fuel]; [lia|]. cbn [composite].
    replace (leb (a (samplePos st)) len) with false; [reflexivity|].
    symmetry. apply leb_gt. change (inject_Z (Z.of_nat 0)) with 0 in Hn. lra.
  - destruct (leb (a (samplePos st)) len) eqn:E.
    + destruct (compositeStep tex pow deltaDir oc st) as [st1 stop] eqn:E2.
      destruct stop.
      * exists st1. intros fuel Hf. destruct fuel as [|fuel]; [lia|]. cbn [composite].
        rewrite E, E2. reflexivity.
      * destruct (IH st1) as (r & Hr).
        { assert (Hpos : samplePos st1 = add4 (samplePos st) deltaDir).
          { revert E2. unfold compositeStep.
            destruct (ltb _ 0.01); intros H; inversion H; reflexivity. }
          rewrite Hpos. cbn [add4 a].
          rewrite Nat2Z.inj_succ, <- Z.add_1_r, inject_Z_plus in Hn.
          change (inject_Z 1) with 1 in Hn. lra. }
        exists r. intros fuel Hf. destruct fuel as [|fuel]; [lia|]. cbn [composite].
        rewrite E, E2. apply Hr. lia.
    + exists st. intros fuel Hf. destruct fuel as [|fuel]; [lia|]. cbn [composite].
      rewrite E. reflexivity.
Qed.

Lemma compositeOverlay_terminates deltaDir oc len :
  0 < a deltaDir ->
  forall n st,
    len - a (overPos st) < inject_Z (Z.of_nat n) * a deltaDir ->
    exists end_, forall fuel, (n < fuel)%nat ->
      compositeOverlay tex pow fuel deltaDir oc len st = Some end_.
Proof.
  intros Hs. induction n as [|n IH]; intros st Hn.
  - exists st. intros fuel Hf. destruct fuel as [|fuel]; [lia|]. cbn [compositeOverlay].
    replace (leb (a (overPos st)) len) with false; [reflexivity|].
    symmetry. apply leb_gt. change (inject_Z (Z.of_nat 0)) with 0 in Hn. lra.
  - destruct (leb (a (overPos st)) len) eqn:E.
    + destruct (overlayStep tex pow deltaDir oc st) as [st1 stop] eqn:E2.
      destruct stop.
      * exists st1. intros fuel Hf. destruct fuel as [|fuel]; [lia|].
        cbn [compositeOverlay].
        rewrite E, E2. reflexivity.
      * destruct (IH st1) as (r & Hr).
        { assert (Hpos : overPos st1 = add4 (overPos st) deltaDir).
          { revert E2. unfold overlayStep.
            destruct (ltb _ 0.01); intros H; inversion H; reflexivity. }
          rewrite Hpos. cbn [add4 a].
          rewrite Nat2Z.inj_succ, <- Z.add_1_r, inject_Z_plus in Hn.
          change (inject_Z 1) with 1 in Hn. lra. }
        exists r. intros fuel Hf. destruct fuel as [|fuel]; [lia|].
        cbn [compositeOverlay].
        rewrite E, E2. apply Hr. lia.
    + exists st. intros fuel Hf. destruct fuel as [|fuel]; [lia|]. cbn [compositeOverlay].
      rewrite E. reflexivity.
Qed.
End Bounds.
Lemma sliceSize_pos len lenVox :
  0 < len -> ltb lenVox 0.5 = false ->
  0 < len / lenVox /\ len / lenVox / (len / lenVox) == 1.
Proof.
  intros Hlen Hvox. apply ltb_ge in Hvox.
  assert (H : 0 < len / lenVox) by (apply Qlt_shift_div_l; lra).
  split; [exact H|]. field. split; lra.
Qed.

Section Main.
Variable clipPlane : vec4.
Variable overlays : Q.
Variable backOpacity : Q.
Variable volume : vec3 -> vec4.
Variable overlay : vec3 -> vec4.
Variable pow : Q -> Q -> Q.
Hypothesis pow_one : forall p q, q == 1 -> pow p q == p.
Hypothesis backOpacity_range : 0 <= backOpacity <= 1.
Hypothesis volume_alpha : forall p, 0 <= a (volume p) <= 1.
Hypothesis overlay_alpha : forall p, 0 <= a (overlay p) <= 1.

Lemma basePass_alpha fuel ray :
  0 < len ray ->
  match basePass clipPlane overlays volume pow fuel ray with
  | Some (inl fColor) => fColor = vec4_zero
  | Some (inr st) => 0 <= a (colAcc st) <= 1
  | None => True
  end.
Proof.
  intros Hlen. unfold basePass.
  destruct (ltb (lenVox ray) 0.5) eqn:Evox; cbn [orb]; [reflexivity|].
  destruct (ltb 3.0 (len ray)); [reflexivity|].
  destruct (sliceSize_pos _ _ Hlen Evox) as [Hpos Hoc].
  destruct (applyClip clipPlane (dir ray) _ (len ray)) as [[ret pos] len'].
  destruct (fastPass _ _ _ _ _) as [pos1|]; [|exact I].
  destruct (_ && _); [reflexivity|].
  destruct (composite _ _ _ _ _ _ _) as [st|] eqn:E; [|exact I].
  apply (composite_alpha volume pow pow_one volume_alpha _ _ _ Hoc _ _ _ E).
  cbn. lra.
Qed.

Lemma finalColor_alpha colAcc :
  0 <= a colAcc <= 1 ->
  0 <= a (finalColor backOpacity colAcc) <= backOpacity / earlyTermination.
Proof.
  intros [H0 H1]. unfold finalColor, earlyTermination. cbn [set_a a].
  destruct backOpacity_range as [B0 B1].
  assert (E1 : a colAcc / 0.95 * backOpacity == a colAcc * backOpacity * (20 # 19))
    by (field).
  assert (E2 : backOpacity / 0.95 == backOpacity * (20 # 19)) by field.
  rewrite E1, E2. split; nra.
Qed.

Lemma max_bounds p q lo hi : lo <= p <= hi -> lo <= q <= hi -> lo <= max p q <= hi.
Proof. intros. unfold max. destruct (ltb p q); assumption. Qed.

Lemma overlayPass_alpha fuel ray fColor backNearest out :
  0 < len ray -> ltb (lenVox ray) 0.5 = false ->
  0 <= a fColor <= 1 / earlyTermination ->
  overlayPass overlay pow fuel ray fColor backNearest = Some out ->
  0 <= a out <= 1 / earlyTermination.
Proof.
  intros Hlen Evox HF. unfold overlayPass.
  destruct (sliceSize_pos _ _ Hlen Evox) as [Hpos Hoc].
  destruct (fastPass _ _ _ _ _) as [pos1|]; [|discriminate].
  destruct (ltb (len ray) (a pos1)); [intros H; inversion H; subst; exact HF|].
  destruct (compositeOverlay _ _ _ _ _ _ _) as [st|] eqn:E; [|discriminate].
  pose proof (compositeOverlay_alpha overlay pow pow_one overlay_alpha
                _ _ _ Hoc _ _ _ E) as HA.
  destruct st as [p f c]. cbn [overAcc] in HA.
  intros H; inversion H; subst. cbn [a].
  apply max_bounds; [exact HF|].
  assert (0 <= a c <= 1) as [? ?] by (apply HA; cbn; lra).
  unfold earlyTermination. split; [assumption|].
  apply Qle_trans with 1; [assumption|]. apply Qle_shift_div_l; lra.
Qed.
Lemma basePass_terminates ray :
  0 < len ray ->
  exists r N, forall fuel, (N < fuel)%nat ->
    basePass clipPlane overlays volume pow fuel ray = Some r.
Proof.
  intros Hlen. unfold basePass.
  destruct (ltb (lenVox ray) 0.5) eqn:Evox; cbn [orb];
    [exists (inl vec4_zero), 0%nat; reflexivity|].
  destruct (ltb 3.0 (len ray)); [exists (inl vec4_zero), 0%nat; reflexivity|].
  destruct (sliceSize_pos _ _ Hlen Evox) as [Hpos Hoc].
  destruct (applyClip clipPlane (dir ray) _ (len ray)) as [[ret pos] len'].
  set (sliceSize := len ray / lenVox ray) in *.
  set (deltaDirFast := vec4_of (scale3 (dir ray) (sliceSize * 1.9)) (sliceSize * 1.9)).
  set (deltaDir := vec4_of (scale3 (dir ray) sliceSize) sliceSize).
  assert (HF : 0 < a deltaDirFast) by (cbn; nra).
  assert (HD : 0 < a deltaDir) by (cbn; exact Hpos).
  destruct (fastPass_terminates volume deltaDirFast len' HF _ pos
              (steps_bound len' (a pos) (a deltaDirFast) HF)) as (pos1 & H1).
  set (n1 := steps ((len' - a pos) / a deltaDirFast)) in *.
  destruct (ltb len' (a pos1) && ltb overlays 1.0) eqn:Emiss.
  - exists (inl vec4_zero), n1. intros fuel Hf. rewrite (H1 fuel Hf), Emiss. reflexivity.
  - set (st0 := BuildAccum (add4 (sub4 pos1 deltaDirFast) (scale4 (ran ray) deltaDir))
                  vec4_zero len' vec4_zero).
    destruct (composite_terminates volume pow deltaDir (sliceSize / sliceSize)
                len' HD _ st0
                (steps_bound len' (a (samplePos st0)) (a deltaDir) HD))
      as (st1 & H2).
    set (n2 := steps ((len' - a (samplePos st0)) / a deltaDir)) in *.
    exists (inr st1), (Nat.max n1 n2). intros fuel Hf.
    rewrite (H1 fuel) by lia. rewrite Emiss.
    fold st0. rewrite (H2 fuel) by lia. reflexivity.
Qed.

Lemma overlayPass_terminates ray fColor backNearest :
  0 < len ray -> ltb (lenVox ray) 0.5 = false ->
  exists r N, forall fuel, (N < fuel)%nat ->
    overlayPass overlay pow fuel ray fColor backNearest = Some r.
Proof.
  intros Hlen Evox. unfold overlayPass.
  destruct (sliceSize_pos _ _ Hlen Evox) as [Hpos Hoc].
  set (sliceSize := len ray / lenVox ray) in *.
  set (deltaDirFast := vec4_of (scale3 (dir ray) (sliceSize * 1.9)) (sliceSize * 1.9)).
  set (deltaDir := vec4_of (scale3 (dir ray) sliceSize) sliceSize).
  set (pos := vec4_of (start ray) 0.0).
  assert (HF : 0 < a deltaDirFast) by (cbn; nra).
  assert (HD : 0 < a deltaDir) by (cbn; exact Hpos).
  destruct (fastPass_terminates overlay deltaDirFast (len ray) HF _ pos
              (steps_bound (len ray) (a pos) (a deltaDirFast) HF)) as (pos1 & H1).
  set (n1 := steps ((len ray - a pos) / a deltaDirFast)) in *.
  destruct (ltb (len ray) (a pos1)) eqn:Emiss.
  - exists fColor, n1. intros fuel Hf. rewrite (H1 fuel Hf), Emiss. reflexivity.
  - set (st0 := BuildOverAccum (add4 (sub4 pos1 deltaDirFast) (scale4 (ran ray) deltaDir))
                  (len ray) vec4_zero).
    destruct (compositeOverlay_terminates overlay pow deltaDir (sliceSize / sliceSize)
                (len ray) HD _ st0
                (steps_bound (len ray) (a (overPos st0)) (a deltaDir) HD)) as (st1 & H2).
    set (n2 := steps ((len ray - a (overPos st0)) / a deltaDir)) in *.
    destruct st1 as [p1 f1 c1].
    eexists. exists (Nat.max n1 n2). intros fuel Hf.
    rewrite (H1 fuel) by lia. rewrite Emiss.
    fold st0. rewrite (H2 fuel) by lia. reflexivity.
Qed.

(** C8, amended. In exact arithmetic (the [float]s of the shader taken as
    rationals, without the rounding of binary32): for every ray of positive
    length, with background opacity and texture alphas in [0, 1] (and
    [pow p 1 = p]), [main] returns a colour, and its alpha lies between 0
    and 1 / 0.95; when no overlay is enabled it is at most the background
    opacity divided by 0.95. *)
Theorem main_alpha_range :
  forall ray : Ray,
    0 < len ray ->
    (exists fuel fColor,
       main clipPlane overlays backOpacity volume overlay pow fuel ray
         = Some fColor) /\
    (forall fuel fColor,
       main clipPlane overlays backOpacity volume overlay pow fuel ray
         = Some fColor ->
       0 <= a fColor <= 1 / earlyTermination /\
       (overlays < 1 -> a fColor <= backOpacity / earlyTermination)).
Proof.
  intros ray Hlen.
  assert (Hb : backOpacity / earlyTermination <= 1 / earlyTermination).
  { destruct backOpacity_range. unfold earlyTermination.
    apply Qle_shift_div_l; [lra|].
    assert (E : backOpacity / 0.95 * 0.95 == backOpacity) by field. rewrite E. lra. }
  split.
  - destruct (basePass_terminates ray Hlen) as (r & N & HB).
    unfold main.
    destruct r as [c|st].
    + exists (S N), c. rewrite HB by lia. reflexivity.
    + destruct (ltb overlays 1.0) eqn:Eo.
      * exists (S N). eexists. rewrite HB by lia. reflexivity.
      * assert (Evox : ltb (lenVox ray) 0.5 = false).
        { specialize (HB (S N) (Nat.lt_succ_diag_r N)). unfold basePass in HB.
          destruct (ltb (lenVox ray) 0.5); [discriminate HB|reflexivity]. }
        destruct (overlayPass_terminates ray (finalColor backOpacity (colAcc st))
                    (backNearest st) Hlen Evox) as (out & M & HO).
        exists (S (Nat.max N M)), out.
        rewrite HB by lia. apply HO. lia.
  - intros fuel fColor. unfold main.
    pose proof (basePass_alpha fuel ray Hlen) as HA.
    destruct (basePass clipPlane overlays volume pow fuel ray) as [[c|st]|] eqn:EB;
      [| |discriminate].
    + intros H; inversion H; subst. cbn. destruct backOpacity_range.
      split; [split; [lra|]|intros _].
      * unfold earlyTermination. apply Qle_shift_div_l; lra.
      * unfold earlyTermination. apply Qle_shift_div_l; lra.
    + pose proof (finalColor_alpha (colAcc st) HA) as HFc.
      destruct (ltb overlays 1.0) eqn:Eo.
      * intros H; inversion H; subst. split; [split; lra|intros _; lra].
      * intros H. split.
        -- apply (overlayPass_alpha fuel ray _ _ _ Hlen) in H; [exact H| |split; lra].
           unfold basePass in EB.
           destruct (ltb (lenVox ray) 0.5); [discriminate EB|reflexivity].
        -- intros Ho. apply ltb_ge in Eo. lra.
Qed.
End Main.

(** The ray of the counterexample, within the amended bounds. *)
Lemma main_alpha_range_witness :
  ((forall p q, q == 1 -> powInt p q == p) /\ 0 <= 1 <= 1 /\
   (forall p, 0 <= a (opaqueVolume p) <= 1) /\
   (forall p, 0 <= a (emptyVolume p) <= 1) /\ 0 < len straightRay) /\
  exists fColor,
    main (Vec4 0 0 1 2) 0 1 opaqueVolume emptyVolume powInt 10 straightRay
      = Some fColor /\
    0 <= a fColor <= 1 / earlyTermination.
Proof.
  assert (H1 : 0 <= 1 <= 1) by lra.
  assert (H2 : forall p, 0 <= a (opaqueVolume p) <= 1) by (intros p; cbn; lra).
  assert (H3 : forall p, 0 <= a (emptyVolume p) <= 1) by (intros p; cbn; lra).
  assert (H4 : 0 < len straightRay) by reflexivity.
  split;
    [repeat split; try apply H2; try apply H3; try exact powInt_one;
     try exact H4; lra|].
  destruct (main_alpha_range (Vec4 0 0 1 2) 0 1 opaqueVolume emptyVolume powInt
              powInt_one H1 H2 H3 straightRay H4) as [_ H].
  destruct (main (Vec4 0 0 1 2) 0 1 opaqueVolume emptyVolume powInt 10 straightRay)
    as [c|] eqn:E.
  - exists c. split; [reflexivity|]. apply (H 10%nat c E).
  - vm_compute in E. discriminate E.
Defined.

End ShaderFacts.

(** ** The order of numbers *)

Module JSOrderFacts.
Import JS JSOrder.

Lemma lt_rank x y :
  isNaN x = false -> isNaN y = false ->
  (lt x y = true <-> lex_lt (rank x) (rank y)).
Proof.
  destruct x as [sx|sx| |sx mx ex], y as [sy|sy| |sy my ey];
    try discriminate; intros _ _; unfold lt, SFltb, SFcompare;
    try (destruct sx); try (destruct sy); cbn; try (split; [discriminate|lia]);
    try (split; [lia|reflexivity]); try (split; [reflexivity|lia]).
  - change (PosDef.Pos.compare_cont Eq mx my) with (Pos.compare mx my).
    destruct (Z.compare_spec ex ey); cbn;
      [destruct (Pos.compare_spec mx my); cbn| |];
      (split; [intros; try discriminate; lia|intros; try reflexivity; lia]).
  - change (PosDef.Pos.compare_cont Eq mx my) with (Pos.compare mx my).
    destruct (Z.compare_spec ex ey); cbn;
      [destruct (Pos.compare_spec mx my); cbn| |];
      (split; [intros; try discriminate; lia|intros; try reflexivity; lia]).
Qed.

Lemma le_rank x y :
  isNaN x = false -> isNaN y = false ->
  (le x y = true <-> lex_le (rank x) (rank y)).
Proof.
  destruct x as [sx|sx| |sx mx ex], y as [sy|sy| |sy my ey];
    try discriminate; intros _ _; unfold le, SFleb, SFcompare;
    try (destruct sx); try (destruct sy); cbn; try (split; [discriminate|lia]);
    try (split; [lia|reflexivity]); try (split; [reflexivity|lia]).
  - change (PosDef.Pos.compare_cont Eq mx my) with (Pos.compare mx my).
    destruct (Z.compare_spec ex ey); cbn;
      [destruct (Pos.compare_spec mx my); cbn| |];
      (split; [intros; try discriminate; lia|intros; try reflexivity; lia]).
  - change (PosDef.Pos.compare_cont Eq mx my) with (Pos.compare mx my).
    destruct (Z.compare_spec ex ey); cbn;
      [destruct (Pos.compare_spec mx my); cbn| |];
      (split; [intros; try discriminate; lia|intros; try reflexivity; lia]).
Qed.

Lemma le_refl x : isNaN x = false -> le x x = true.
Proof.
  intros H. apply le_rank; [assumption..|].
  destruct (rank x) as [[a b] c]. cbn. lia.
Qed.

Lemma le_trans x y z :
  isNaN y = false -> le x y = true -> le y z = true -> le x z = true.
Proof.
  intros Hy Hxy Hyz.
  assert (Hx : isNaN x = false)
    by (destruct x; try reflexivity; discriminate Hxy).
  assert (Hz : isNaN z = false)
    by (destruct z; try reflexivity; destruct y; discriminate Hyz).
  apply le_rank in Hxy, Hyz; try assumption. apply le_rank; try assumption.
  destruct (rank x) as [[a b] c], (rank y) as [[a' b'] c'],
    (rank z) as [[a'' b''] c'']. cbn in *. lia.
Qed.

Lemma not_lt_le x y :
  isNaN x = false -> isNaN y = false -> lt x y = false -> le y x = true.
Proof.
  intros Hx Hy H. apply le_rank; try assumption.
  assert (N : ~ lex_lt (rank x) (rank y)).
  { intros L. apply lt_rank in L; try assumption. congruence. }
  destruct (rank x) as [[a b] c], (rank y) as [[a' b'] c']. cbn in *. lia.
Qed.

Lemma lt_le x y : lt x y = true -> le x y = true.
Proof.
  intros H.
  assert (Hx : isNaN x = false)
    by (destruct x; try reflexivity; discriminate H).
  assert (Hy : isNaN y = false)
    by (destruct y; try reflexivity; destruct x; discriminate H).
  apply lt_rank in H; try assumption. apply le_rank; try assumption.
  destruct (rank x) as [[a b] c], (rank y) as [[a' b'] c']. cbn in *. lia.
Qed.

Lemma Math_min_spec x y :
  isNaN x = false -> isNaN y = false ->
  (Math_min x y = x \/ Math_min x y = y) /\
  isNaN (Math_min x y) = false /\
  le (Math_min x y) x = true /\ le (Math_min x y) y = true.
Proof.
  intros Hx Hy. unfold Math_min. rewrite Hx, Hy. cbn [orb].
  assert (G : forall r, r = (if lt y x then y else x) ->
            (r = x \/ r = y) /\ isNaN r = false /\
            le r x = true /\ le r y = true).
  { intros r ->. destruct (lt y x) eqn:E.
    - repeat split; auto using le_refl, lt_le.
    - repeat split; auto using le_refl, not_lt_le. }
  destruct x as [sx|sx| |sx mx ex], y as [sy|sy| |sy my ey];
    try discriminate; try (apply G; reflexivity).
  destruct sx, sy; cbn; repeat split; auto.
Qed.

Lemma Math_max_spec x y :
  isNaN x = false -> isNaN y = false ->
  (Math_max x y = x \/ Math_max x y = y) /\
  isNaN (Math_max x y) = false /\
  le x (Math_max x y) = true /\ le y (Math_max x y) = true.
Proof.
  intros Hx Hy. unfold Math_max. rewrite Hx, Hy. cbn [orb].
  assert (G : forall r, r = (if lt x y then y else x) ->
            (r = x \/ r = y) /\ isNaN r = false /\
            le x r = true /\ le y r = true).
  { intros r ->. destruct (lt x y) eqn:E.
    - repeat split; auto using le_refl, lt_le.
    - repeat split; auto using le_refl, not_lt_le. }
  destruct x as [sx|sx| |sx mx ex], y as [sy|sy| |sy my ey];
    try discriminate; try (apply G; reflexivity).
  destruct sx, sy; cbn; repeat split; auto.
Qed.

End JSOrderFacts.

(** ** Further properties of the image object *)

Module ConstructorFacts.
Import JS JSFacts NVImage NVImageFacts Loading Samples.

Lemma fixScaling_affine hdr :
  Header.affine (fixScaling hdr) = Header.affine hdr /\
  Header.pixDims (fixScaling hdr) = Header.pixDims hdr.
Proof.
  unfold fixScaling.
  repeat match goal with |- context [if ?c then _ else _] => destruct c end;
    split; reflexivity.
Qed.

Lemma fixScaling_ok hdr :
  let h := fixScaling hdr in
  isNaN (Header.scl_slope h) = false /\
  strict_eq (Header.scl_slope h) zero = false /\
  isNaN (Header.scl_inter h) = false.
Proof.
  unfold fixScaling.
  destruct (isNaN (Header.scl_slope hdr)) eqn:E1;
    destruct (strict_eq (Header.scl_slope hdr) zero) eqn:E2;
    destruct (isNaN (Header.scl_inter hdr)) eqn:E3; cbn;
    rewrite ?E1, ?E2, ?E3; cbn; rewrite ?E1, ?E2, ?E3; repeat split.
Qed.

Lemma resolveAffine_scl Math_pow useQ hdr :
  Header.scl_slope (fst (resolveAffine Math_pow useQ hdr))
    = Header.scl_slope (fixScaling hdr) /\
  Header.scl_inter (fst (resolveAffine Math_pow useQ hdr))
    = Header.scl_inter (fixScaling hdr) /\
  Header.datatypeCode (fst (resolveAffine Math_pow useQ hdr))
    = Header.datatypeCode hdr /\
  Header.dims (fst (resolveAffine Math_pow useQ hdr)) = Header.dims hdr.
Proof.
  unfold resolveAffine, chooseAffine, repairAffine, fixScaling.
  repeat match goal with |- context [if ?c then _ else _] => destruct c end;
    repeat split; reflexivity.
Qed.

(** X1. After the constructor has resolved the header, the intensity scaling
    is usable: [scl_slope] is neither NaN nor zero and [scl_inter] is not
    NaN; a slope and an intercept that were usable are kept; and
    [intensityRaw2Scaled] no longer changes the header. *)
Theorem resolveAffine_scaling_usable :
  forall (Math_pow : number -> number -> number) (useQFormNotSForm : bool)
         (hdr : Header.t),
    let resolved := fst (resolveAffine Math_pow useQFormNotSForm hdr) in
    isNaN (Header.scl_slope resolved) = false /\
    strict_eq (Header.scl_slope resolved) zero = false /\
    isNaN (Header.scl_inter resolved) = false /\
    (isNaN (Header.scl_slope hdr) || strict_eq (Header.scl_slope hdr) zero
       = false -> Header.scl_slope resolved = Header.scl_slope hdr) /\
    (isNaN (Header.scl_inter hdr) = false ->
       Header.scl_inter resolved = Header.scl_inter hdr) /\
    (forall raw, fst (intensityRaw2Scaled resolved raw) = resolved).
Proof.
  intros Math_pow useQ hdr resolved. subst resolved.
  destruct (resolveAffine_scl Math_pow useQ hdr) as (Hs & Hi & _).
  destruct (fixScaling_ok hdr) as (H1 & H2 & H3). cbv zeta in *.
  rewrite Hs, Hi. repeat split; try assumption.
  - intros E. unfold fixScaling. rewrite E.
    destruct (isNaN (Header.scl_inter hdr)); reflexivity.
  - intros E. unfold fixScaling.
    destruct (isNaN (Header.scl_slope hdr) || _); cbn; rewrite E; reflexivity.
  - intros raw. unfold intensityRaw2Scaled. rewrite Hs, H2. reflexivity.
Qed.

Lemma qformAffine_bottom_row Math_pow hdr :
  r3 (qformAffine Math_pow hdr) = r3 (Header.affine hdr).
Proof. reflexivity. Qed.

Lemma hasNaN_bottom m j :
  (j < 4)%nat -> isNaN (mat_get m 3 j) = true -> hasNaN m = true.
Proof.
  intros Hj HN. destruct (hasNaN m) eqn:E; [reflexivity|].
  rewrite (proj1 (hasNaN_false m) E 3%nat j) in HN by lia. discriminate.
Qed.

(** X2. The quaternion branch writes the affine of the header in place and
    never touches its bottom row.  So when an entry of the bottom row of
    the affine read from the file is NaN, the quaternion form is tried and
    cannot pass the validation either: the constructor logs both lines and
    always ends with the matrix that has the three voxel spacings
    [pixDims[1]], [pixDims[2]], [pixDims[3]] on its diagonal, 1.0 standing
    for a spacing that is NaN or zero, a last diagonal entry of 1 and 0
    everywhere else. *)
Theorem resolveAffine_bottom_row_NaN :
  forall (Math_pow : number -> number -> number) (useQFormNotSForm : bool)
         (hdr : Header.t) (j : nat),
    (j < 4)%nat ->
    isNaN (mat_get (Header.affine hdr) 3 j) = true ->
    let spacing (k : nat) :=
      let v := array_get (Header.pixDims hdr) k in
      if isNaN (toNumber v) || value_strict_eq v (Num zero) then one
      else toNumber v in
    snd (resolveAffine Math_pow useQFormNotSForm hdr) =
      ["spatial transform based on QForm"%string;
       "Defective NIfTI: spatial transform does not make sense"%string] /\
    Header.affine (fst (resolveAffine Math_pow useQFormNotSForm hdr)) =
      Mat (Row (spacing 1%nat) zero zero zero)
          (Row zero (spacing 2%nat) zero zero)
          (Row zero zero (spacing 3%nat) zero)
          (Row zero zero zero one).
Proof.
  intros Math_pow useQ hdr j Hj HN spacing.
  destruct (fixScaling_affine hdr) as [Ha Hp].
  assert (N1 : isAffineOK (Header.affine (fixScaling hdr)) = false).
  { unfold isAffineOK. rewrite Ha, (hasNaN_bottom _ j Hj HN). reflexivity. }
  assert (N2 : isAffineOK (qformAffine Math_pow (fixScaling hdr)) = false).
  { unfold isAffineOK. rewrite (hasNaN_bottom _ j Hj); [reflexivity|].
    unfold mat_get, mat_row. rewrite qformAffine_bottom_row, Ha. exact HN. }
  unfold resolveAffine, chooseAffine. rewrite N1.
  rewrite orb_true_r. cbn [negb orb].
  unfold repairAffine. cbn [Header.affine Header.set_affine]. rewrite N2.
  cbn [negb fst snd app Header.affine Header.set_affine Header.set_pixDims
       Header.pixDims].
  rewrite Hp. split; reflexivity.
Qed.

(** A header whose affine has a NaN in its bottom row, and spacings of
    2 mm. *)
Lemma resolveAffine_bottom_row_NaN_witness :
  isNaN (mat_get (Header.affine brokenHeader) 3 0) = true /\
  Header.affine (fst (resolveAffine (fun _ _ => zero) false brokenHeader)) =
    Mat (Row two zero zero zero) (Row zero two zero zero)
        (Row zero zero two zero) (Row zero zero zero one).
Proof.
  assert (H : isNaN (mat_get (Header.affine brokenHeader) 3 0) = true)
    by reflexivity.
  split; [exact H|].
  destruct (resolveAffine_bottom_row_NaN (fun _ _ => zero) false brokenHeader
              0%nat ltac:(lia) H) as [_ E].
  rewrite E. vm_compute. reflexivity.
Defined.

Lemma chunks_length k n bytes : List.length (chunks k n bytes) = n.
Proof.
  revert bytes. induction n as [|n IH]; intros bytes; cbn; [reflexivity|].
  rewrite IH. reflexivity.
Qed.

Lemma words_length k imgRaw :
  List.length (words k imgRaw) = (List.length imgRaw / k)%nat.
Proof. unfold words. rewrite length_map. apply chunks_length. Qed.

Lemma widenLoop_length {A B : Type} (conv : A -> B) (d : A) (z : B) src :
  List.length (widenLoop conv d src (replicate (List.length src) z))
  = List.length src.
Proof.
  unfold widenLoop.
  rewrite (fold_insert_length (fun i => conv (nth i src d))).
  apply length_replicate.
Qed.

Lemma aligned_spec k imgRaw :
  aligned k imgRaw = true <-> (List.length imgRaw mod k = 0)%nat.
Proof. unfold aligned. apply Nat.eqb_eq. Qed.

(** The number of elements of each view. *)
Lemma view_lengths imgRaw :
  let n := List.length imgRaw in
  List.length (asUint8 imgRaw) = n /\ List.length (asInt8 imgRaw) = n /\
  List.length (asUint16 imgRaw) = (n / 2)%nat /\
  List.length (asInt16 imgRaw) = (n / 2)%nat /\
  List.length (asUint32 imgRaw) = (n / 4)%nat /\
  List.length (asInt32 imgRaw) = (n / 4)%nat /\
  List.length (asBigInt64 imgRaw) = (n / 8)%nat /\
  List.length (asFloat32 imgRaw) = (n / 4)%nat /\
  List.length (asFloat64 imgRaw) = (n / 8)%nat.
Proof.
  unfold asUint8, asInt8, asUint16, asInt16, asUint32, asInt32, asBigInt64,
    asFloat32, asFloat64.
  rewrite ?length_map, !words_length. repeat split; reflexivity.
Qed.

Ltac datatype_cases c :=
  unfold convertVoxels, supportedDatatypes;
  repeat match goal with
         | |- context [(c =? ?k)%Z] => destruct (Z.eqb_spec c k)
         end.

Lemma convertVoxels_throws :
  forall (datatypeCode : Z) (imgRaw : ArrayBuffer),
    (convertVoxels datatypeCode imgRaw
       = Thrown (UnsupportedDatatype datatypeCode) <->
     ~ In datatypeCode supportedDatatypes) /\
    (convertVoxels datatypeCode imgRaw = Thrown RangeError <->
     In datatypeCode supportedDatatypes /\
     (List.length imgRaw mod elementSize datatypeCode <> 0)%nat) /\
    (forall e, convertVoxels datatypeCode imgRaw = Thrown e ->
       e = UnsupportedDatatype datatypeCode \/ e = RangeError).
Proof.
  intros c raw.
  assert (Hal : forall k, aligned k raw = false <->
                          (List.length raw mod k <> 0)%nat).
  { intros k. unfold aligned. apply Nat.eqb_neq. }
  assert (Hal' : forall k, aligned k raw = true <->
                           (List.length raw mod k = 0)%nat)
    by (intros k; apply aligned_spec).
  datatype_cases c; subst; cbn [elementSize Z.eqb orb Pos.eqb];
    try (destruct (aligned _ raw) eqn:EA;
         [apply Hal' in EA|apply Hal in EA]);
    (split; [|split]);
    try (split; [discriminate|intros H; exfalso; apply H; cbn; tauto]);
    try (split; [discriminate|intros [_ H]; exfalso; apply H; reflexivity]);
    try (split; [discriminate|intros [_ H]; exfalso; exact (H EA)]);
    try (split; [intros _; split; [cbn; tauto|exact EA]|reflexivity]);
    try (intros e E; inversion E; tauto).
  - split; [intros _ H|reflexivity].
    cbn in H. decompose [or] H; try contradiction; congruence.
  - split; [discriminate|intros [H _]].
    cbn in H. decompose [or] H; try contradiction; congruence.
Qed.

Lemma convertVoxels_returns :
  forall (datatypeCode : Z) (imgRaw : ArrayBuffer) img code,
    convertVoxels datatypeCode imgRaw = Returned (img, code) ->
    In datatypeCode supportedDatatypes /\
    (List.length imgRaw mod elementSize datatypeCode = 0)%nat /\
    ~ In code [DT_INT8; DT_UINT32; DT_SIGNED_INT; DT_INT64] /\
    (code = elementTypeOf img \/
     (code = DT_RGB \/ code = DT_RGBA32) /\
     elementTypeOf img = DT_UNSIGNED_CHAR) /\
    List.length (elements img)
      = (List.length imgRaw / elementSize datatypeCode)%nat.
Proof.
  intros c raw img code.
  destruct (view_lengths raw) as (L1 & L2 & L3 & L4 & L5 & L6 & L7 & L8 & L9).
  cbv zeta in *.
  datatype_cases c; subst; cbn [elementSize Z.eqb orb Pos.eqb];
    try (destruct (aligned _ raw) eqn:EA; [apply aligned_spec in EA|]);
    intros E; inversion E; subst; clear E;
    (split; [cbn; tauto|]);
    (split; [first [exact EA|apply Nat.mod_1_r]|]);
    (split; [unfold DT_INT8, DT_UINT32, DT_SIGNED_INT, DT_INT64,
               DT_UNSIGNED_CHAR, DT_SIGNED_SHORT, DT_FLOAT, DT_DOUBLE,
               DT_RGB, DT_UINT16, DT_RGBA32; cbn; lia|]);
    (split; [cbn; tauto|]);
    cbn [elements];
    unfold widenInt8, widenUint32, widenInt32, widenInt64;
    rewrite ?length_map, ?widenLoop_length, ?Nat.div_1_r; assumption.
Qed.

(** X3. What the datatype switch of the constructor throws, and when.  It
    throws the string of its [default] case exactly on the datatype codes
    it has no case for, and a [RangeError] exactly on a supported code
    whose typed array has elements of a size that does not divide the byte
    length of the raw image; it throws nothing else.  When it returns, the
    byte length is a multiple of the element size and the voxel array has
    as many elements as the quotient; the code left in the header is never
    one of the four widened datatypes, and it names the element type of the
    voxel array (the bytes of RGB and RGBA32 voxels being held in a
    [Uint8Array]). *)
Theorem convertVoxels_supported :
  forall (datatypeCode : Z) (imgRaw : ArrayBuffer),
    (convertVoxels datatypeCode imgRaw
       = Thrown (UnsupportedDatatype datatypeCode) <->
     ~ In datatypeCode supportedDatatypes) /\
    (convertVoxels datatypeCode imgRaw = Thrown RangeError <->
     In datatypeCode supportedDatatypes /\
     (List.length imgRaw mod elementSize datatypeCode <> 0)%nat) /\
    (forall e, convertVoxels datatypeCode imgRaw = Thrown e ->
       e = UnsupportedDatatype datatypeCode \/ e = RangeError) /\
    (forall img code,
       convertVoxels datatypeCode imgRaw = Returned (img, code) ->
       In datatypeCode supportedDatatypes /\
       (List.length imgRaw mod elementSize datatypeCode = 0)%nat /\
       ~ In code [DT_INT8; DT_UINT32; DT_SIGNED_INT; DT_INT64] /\
       (code = elementTypeOf img \/
        (code = DT_RGB \/ code = DT_RGBA32) /\
        elementTypeOf img = DT_UNSIGNED_CHAR) /\
       List.length (elements img)
         = (List.length imgRaw / elementSize datatypeCode)%nat).
Proof.
  intros c raw.
  destruct (convertVoxels_throws c raw) as (H1 & H2 & H3).
  split; [exact H1|]. split; [exact H2|]. split; [exact H3|].
  apply convertVoxels_returns.
Qed.

Lemma widenLoop_copies {A B : Type} (conv : A -> B) (d : A) (z : B) src :
  copiesAllButLast conv z src
    (widenLoop conv d src (replicate (List.length src) z)).
Proof.
  split.
  - unfold widenLoop.
    rewrite (fold_insert_length (fun i => conv (nth i src d))).
    apply length_replicate.
  - intros i v Hi.
    rewrite widenLoop_spec by apply length_replicate.
    assert (Hlt : (i < List.length src)%nat)
      by (apply nth_error_Some; congruence).
    destruct (Nat.ltb_spec i (List.length src - 1)) as [H|H];
      destruct (Nat.ltb_spec (S i) (List.length src)) as [H'|H']; try lia.
    + rewrite (nth_error_nth _ _ _ Hi). reflexivity.
    + rewrite <- lookup_nth_error. apply lookup_replicate_2. exact Hlt.
Qed.

Lemma byteValue_range b : (0 <= byteValue b <= 255)%Z.
Proof.
  unfold byteValue. pose proof (Byte.to_N_bounded b) as H.
  split; [apply N2Z.is_nonneg|].
  change 255%Z with (Z.of_N 255). apply N2Z.inj_le. exact H.
Qed.

Lemma asInt8_range imgRaw v :
  In v (asInt8 imgRaw) -> (-128 <= v <= 127)%Z.
Proof.
  unfold asInt8. rewrite in_map_iff. intros (b & <- & _).
  pose proof (byteValue_range b) as H. unfold signed.
  change (2 ^ (8 - 1))%Z with 128%Z. change (2 ^ 8)%Z with 256%Z.
  destruct (Z.ltb_spec (byteValue b) 128); lia.
Qed.

(** X4. The four widening cases of the switch.  The INT8 case returns for
    every raw buffer; the UINT32 and SIGNED_INT cases return when the byte
    length is a multiple of 4 and the INT64 case when it is a multiple of
    8, and throw a [RangeError] otherwise.  When a case returns, the array
    has as many elements as the view it reads, the datatype is relabelled
    (INT8 as SIGNED_SHORT; UINT32, SIGNED_INT and INT64 as DOUBLE), and the
    array holds the source voxel (as the nearest number, for the 64-bit
    targets) at every index but the last one, which keeps the zero of the
    allocation. *)
Theorem convertVoxels_widening :
  forall imgRaw : ArrayBuffer,
    let n := List.length imgRaw in
    (exists out,
       convertVoxels DT_INT8 imgRaw
         = Returned (Int16Array out, DT_SIGNED_SHORT) /\
       copiesAllButLast (fun v => v) 0%Z (asInt8 imgRaw) out) /\
    ((n mod 4 = 0)%nat ->
     (exists out,
        convertVoxels DT_UINT32 imgRaw
          = Returned (Float64Array out, DT_DOUBLE) /\
        copiesAllButLast ofZ zero (asUint32 imgRaw) out) /\
     (exists out,
        convertVoxels DT_SIGNED_INT imgRaw
          = Returned (Float64Array out, DT_DOUBLE) /\
        copiesAllButLast ofZ zero (asInt32 imgRaw) out)) /\
    ((n mod 4 <> 0)%nat ->
     convertVoxels DT_UINT32 imgRaw = Thrown RangeError /\
     convertVoxels DT_SIGNED_INT imgRaw = Thrown RangeError) /\
    ((n mod 8 = 0)%nat ->
     exists out,
       convertVoxels DT_INT64 imgRaw
         = Returned (Float64Array out, DT_DOUBLE) /\
       copiesAllButLast ofZ zero (asBigInt64 imgRaw) out) /\
    ((n mod 8 <> 0)%nat ->
     convertVoxels DT_INT64 imgRaw = Thrown RangeError).
Proof.
  intros imgRaw n. subst n.
  assert (Hal : forall k, (List.length imgRaw mod k = 0)%nat ->
                          aligned k imgRaw = true)
    by (intros k; apply aligned_spec).
  assert (Hal' : forall k, (List.length imgRaw mod k <> 0)%nat ->
                           aligned k imgRaw = false)
    by (intros k; unfold aligned; apply Nat.eqb_neq).
  split; [|split; [|split; [|split]]].
  - eexists. split; [reflexivity|].
    destruct (widenLoop_copies toInt16 0%Z 0%Z (asInt8 imgRaw)) as [H1 H2].
    unfold widenInt8.
    split; [exact H1|]. intros i v Hi. rewrite (H2 i v Hi).
    rewrite toInt16_small; [reflexivity|].
    pose proof (asInt8_range imgRaw v (nth_error_In _ _ Hi)). lia.
  - intros H. split; eexists.
    + split; [unfold convertVoxels; rewrite !(Hal 4%nat H); reflexivity
             |apply widenLoop_copies].
    + split; [unfold convertVoxels; rewrite !(Hal 4%nat H); reflexivity
             |apply widenLoop_copies].
  - intros H. split; unfold convertVoxels; rewrite !(Hal' 4%nat H);
      reflexivity.
  - intros H. eexists.
    split; [unfold convertVoxels; rewrite !(Hal 8%nat H); reflexivity
           |apply widenLoop_copies].
  - intros H. unfold convertVoxels; rewrite !(Hal' 8%nat H). reflexivity.
Qed.

End ConstructorFacts.

(** ** Further properties of the reorientation *)

Module OrientationFacts.
Import JS JSFacts JSOrder JSOrderFacts NVImage NVImageFacts Samples.

Lemma every_eq_refl a : every_eq a a = true.
Proof.
  induction a as [|x a IH]; cbn; [reflexivity|].
  rewrite Z.eqb_refl. exact IH.
Qed.

(** X5. On arrays of integers, [arrayEquals] holds exactly of equal arrays. *)
Theorem arrayEquals_spec :
  forall a b : list Z, arrayEquals a b = true <-> a = b.
Proof.
  intros a b. unfold arrayEquals. split.
  - rewrite andb_true_iff, Nat.eqb_eq. intros [Hlen H].
    revert b Hlen H. induction a as [|x a IH]; intros [|y b] Hlen H;
      try discriminate; [reflexivity|].
    cbn in H. apply andb_true_iff in H as [Hx H]. apply Z.eqb_eq in Hx.
    subst y. f_equal. apply IH; [cbn in Hlen; lia|exact H].
  - intros ->. rewrite Nat.eqb_refl, every_eq_refl. reflexivity.
Qed.

Lemma calculateRAS_dims_fields stored inv mul hdr :
  let ras := calculateRAS stored inv mul hdr in
  let p k := Z.to_nat (nth k (perm ras) 0%Z) in
  dimsRAS ras =
    map (array_get (Header.dims hdr)) [0%nat; p 0%nat; p 1%nat; p 2%nat] /\
  pixDimsRAS ras =
    map (array_get (Header.pixDims hdr)) [0%nat; p 0%nat; p 1%nat; p 2%nat].
Proof.
  cbv zeta. rewrite calculateRAS_perm_field.
  unfold calculateRAS. destruct (_ && _); split; reflexivity.
Qed.

(** X6. [calculateRAS] reorders the three spatial axes by one permutation: the
    voxel counts [dimsRAS] and the voxel spacings [pixDimsRAS] are the
    native ones taken at the same three indices, a rearrangement of 1, 2,
    3, which are the entries of [perm]; entry 0 of each array is copied. *)
Theorem calculateRAS_axes_permuted :
  forall (stored : number -> number)
         (mat4_invert mat4_multiply : glmat -> glmat -> glmat)
         (hdr : Header.t),
    let ras := calculateRAS stored mat4_invert mat4_multiply hdr in
    exists i j k : nat,
      Permutation [i; j; k] [1; 2; 3]%nat /\
      perm ras = [Z.of_nat i; Z.of_nat j; Z.of_nat k] /\
      dimsRAS ras = map (array_get (Header.dims hdr)) [0; i; j; k]%nat /\
      pixDimsRAS ras = map (array_get (Header.pixDims hdr)) [0; i; j; k]%nat.
Proof.
  intros stored inv mul hdr ras.
  destruct (calculateRAS_dims_fields stored inv mul hdr) as [Hd Hp].
  cbv zeta in Hd, Hp. fold ras in Hd, Hp. rewrite Hd, Hp.
  assert (E : perm ras = calculateRAS_perm stored (Header.affine hdr))
    by apply calculateRAS_perm_field.
  rewrite E.
  pose proof (calculateRAS_perm_cases stored (Header.affine hdr)) as H.
  cbn in H. decompose [or] H; try contradiction;
    match goal with E : _ = calculateRAS_perm _ _ |- _ => rewrite <- E end;
    [exists 1%nat, 2%nat, 3%nat|exists 1%nat, 3%nat, 2%nat
    |exists 2%nat, 1%nat, 3%nat|exists 2%nat, 3%nat, 1%nat
    |exists 3%nat, 1%nat, 2%nat|exists 3%nat, 2%nat, 1%nat];
    (split; [|repeat split; reflexivity]).
  - reflexivity.
  - apply perm_skip, perm_swap.
  - apply perm_swap.
  - etransitivity; [apply perm_skip, perm_swap|apply perm_swap].
  - etransitivity; [apply perm_swap|apply perm_skip, perm_swap].
  - etransitivity; [apply perm_swap|].
    etransitivity; [apply perm_skip, perm_swap|apply perm_swap].
Qed.

(** Facts of the order from comparisons read as booleans. *)
Ltac order_facts :=
  repeat match goal with
    | H : gt ?u ?v = true |- _ =>
        apply (proj1 (lt_rank v u ltac:(assumption) ltac:(assumption))) in H
    | H : gt ?u ?v = false |- _ =>
        apply (not_lt_le v u ltac:(assumption) ltac:(assumption)) in H;
        apply (proj1 (le_rank u v ltac:(assumption) ltac:(assumption))) in H
    end.

Ltac order_goal :=
  match goal with
  | |- le ?u ?v = true =>
      apply (proj2 (le_rank u v ltac:(assumption) ltac:(assumption)))
  | |- lt ?u ?v = true =>
      apply (proj2 (lt_rank u v ltac:(assumption) ltac:(assumption)))
  end.

Ltac order_lia :=
  repeat match goal with
    | H : context [rank ?u] |- _ =>
        let a := fresh "a" in let b := fresh "b" in let c := fresh "c" in
        destruct (rank u) as [[a b] c]
    | |- context [rank ?u] =>
        let a := fresh "a" in let b := fresh "b" in let c := fresh "c" in
        destruct (rank u) as [[a b] c]
    end;
  cbn [lex_lt lex_le] in *; lia.

(** X7. The native axes are assigned to the world axes by the largest
    component of their direction, compared as gl-matrix holds it: [absR]
    is a gl-matrix array, so the absolute values compared are those of the
    entries of the affine converted to its element type (rounded to
    binary32 for the default [Float32Array]), and two entries that differ
    only beyond that precision tie.  When the stored entries of the first
    two columns are not NaN, the first native axis goes to the world axis
    [rx] on which the first column has its largest stored absolute value
    ([perm[rx]] is 1), the first such axis in case of a tie; the second
    native axis goes to the one [ry] of the two other world axes on which
    the second column has the larger stored absolute value ([perm[ry]] is
    2), the later one in case of a tie. *)
Theorem calculateRAS_dominant_axis :
  forall (stored : number -> number) (a : mat44),
    let A r c := stored (Math_abs (mat_get a r c)) in
    (forall r c, (r < 3)%nat -> (c < 2)%nat -> isNaN (A r c) = false) ->
    exists rx ry : nat,
      (rx < 3)%nat /\ (ry < 3)%nat /\ rx <> ry /\
      nth rx (calculateRAS_perm stored a) 0%Z = 1%Z /\
      nth ry (calculateRAS_perm stored a) 0%Z = 2%Z /\
      (forall r, (r < 3)%nat -> le (A r 0%nat) (A rx 0%nat) = true) /\
      (forall r, (r < rx)%nat -> lt (A r 0%nat) (A rx 0%nat) = true) /\
      (forall r, (r < 3)%nat -> r <> rx ->
         le (A r 1%nat) (A ry 1%nat) = true) /\
      (forall r, (r < 3)%nat -> r <> rx -> (ry < r)%nat ->
         lt (A r 1%nat) (A ry 1%nat) = true).
Proof.
  intros stored a A HN.
  assert (E0 : glmat_get (absR stored a) 0 = A 0%nat 0%nat) by reflexivity.
  assert (E1 : glmat_get (absR stored a) 1 = A 0%nat 1%nat) by reflexivity.
  assert (E3 : glmat_get (absR stored a) 3 = A 1%nat 0%nat) by reflexivity.
  assert (E4 : glmat_get (absR stored a) 4 = A 1%nat 1%nat) by reflexivity.
  assert (E6 : glmat_get (absR stored a) 6 = A 2%nat 0%nat) by reflexivity.
  assert (E7 : glmat_get (absR stored a) 7 = A 2%nat 1%nat) by reflexivity.
  unfold calculateRAS_perm, calculateRAS_ixyz. cbv zeta.
  rewrite E0, E1, E3, E4, E6, E7. clear E0 E1 E3 E4 E6 E7. clearbody A.
  pose proof (HN 0%nat 0%nat ltac:(lia) ltac:(lia)) as N0.
  pose proof (HN 1%nat 0%nat ltac:(lia) ltac:(lia)) as N3.
  pose proof (HN 2%nat 0%nat ltac:(lia) ltac:(lia)) as N6.
  pose proof (HN 0%nat 1%nat ltac:(lia) ltac:(lia)) as N1.
  pose proof (HN 1%nat 1%nat ltac:(lia) ltac:(lia)) as N4.
  pose proof (HN 2%nat 1%nat ltac:(lia) ltac:(lia)) as N7.
  clear HN.
  destruct (gt (A 1%nat 0%nat) (A 0%nat 0%nat)) eqn:G30;
    destruct (gt (A 2%nat 0%nat) (A 0%nat 0%nat)) eqn:G60;
    destruct (gt (A 2%nat 0%nat) (A 1%nat 0%nat)) eqn:G63; cbn;
    [destruct (gt (A 0%nat 1%nat) (A 1%nat 1%nat)) eqn:G14;
       [exists 2%nat, 0%nat|exists 2%nat, 1%nat]
    |destruct (gt (A 0%nat 1%nat) (A 2%nat 1%nat)) eqn:G17;
       [exists 1%nat, 0%nat|exists 1%nat, 2%nat]
    |destruct (gt (A 0%nat 1%nat) (A 2%nat 1%nat)) eqn:G17;
       [exists 1%nat, 0%nat|exists 1%nat, 2%nat]
    |destruct (gt (A 0%nat 1%nat) (A 2%nat 1%nat)) eqn:G17;
       [exists 1%nat, 0%nat|exists 1%nat, 2%nat]
    |destruct (gt (A 0%nat 1%nat) (A 1%nat 1%nat)) eqn:G14;
       [exists 2%nat, 0%nat|exists 2%nat, 1%nat]
    |destruct (gt (A 1%nat 1%nat) (A 2%nat 1%nat)) eqn:G47;
       [exists 0%nat, 1%nat|exists 0%nat, 2%nat]
    |destruct (gt (A 1%nat 1%nat) (A 2%nat 1%nat)) eqn:G47;
       [exists 0%nat, 1%nat|exists 0%nat, 2%nat]
    |destruct (gt (A 1%nat 1%nat) (A 2%nat 1%nat)) eqn:G47;
       [exists 0%nat, 1%nat|exists 0%nat, 2%nat]];
    cbn; (do 5 (split; [first [lia|reflexivity]|])); order_facts;
    (split; [apply lt3_cases; order_goal; order_lia|]);
    (split; [intros r Hr; destruct r as [|[|[|r]]]; try lia;
             order_goal; order_lia|]);
    (split; [apply (lt3_cases (fun r => _ -> _)); intros ?; try lia;
             order_goal; order_lia|]);
    apply (lt3_cases (fun r => _ -> _ -> _)); intros ? ?; try lia;
    order_goal; order_lia.
Qed.

(** A sagittal acquisition: the first voxel axis runs along the second
    world axis and the second voxel axis along the third. *)
Lemma calculateRAS_dominant_axis_witness :
  let A r c := Math_fround (Math_abs (mat_get sagittalAffine r c)) in
  (forall r c, (r < 3)%nat -> (c < 2)%nat -> isNaN (A r c) = false) /\
  calculateRAS_perm Math_fround sagittalAffine = [3; 1; 2]%Z /\
  exists rx ry : nat,
    nth rx (calculateRAS_perm Math_fround sagittalAffine) 0%Z = 1%Z /\
    nth ry (calculateRAS_perm Math_fround sagittalAffine) 0%Z = 2%Z /\
    (forall r, (r < 3)%nat -> le (A r 0%nat) (A rx 0%nat) = true).
Proof.
  cbv zeta.
  assert (H : forall r c, (r < 3)%nat -> (c < 2)%nat ->
            isNaN (Math_fround (Math_abs (mat_get sagittalAffine r c)))
            = false).
  { intros r c Hr Hc. revert r Hr. apply lt3_cases;
      (destruct c as [|[|c]]; [vm_compute; reflexivity
                              |vm_compute; reflexivity|lia]). }
  split; [exact H|]. split; [vm_compute; reflexivity|].
  destruct (calculateRAS_dominant_axis Math_fround sagittalAffine H)
    as (rx & ry & _ & _ & _ & H1 & H2 & H3 & _).
  exists rx, ry. auto.
Defined.

End OrientationFacts.

(** ** Further properties of the calibration *)

Module CalibrationFacts.
Import JS JSFacts JSOrder JSOrderFacts NVImage NVImageFacts Samples.

Lemma scan_default_inv l : forall st m M (pre : list number),
  mn st = Num m -> mx st = Num M ->
  isNaN m = false -> isNaN M = false -> In m pre -> In M pre ->
  (forall v, In v pre -> isNaN v = false -> le m v = true /\ le v M = true) ->
  exists m' M',
    mn (fold_left (scanStep false) l st) = Num m' /\
    mx (fold_left (scanStep false) l st) = Num M' /\
    isNaN m' = false /\ isNaN M' = false /\
    In m' (pre ++ l) /\ In M' (pre ++ l) /\
    (forall v, In v (pre ++ l) -> isNaN v = false ->
       le m' v = true /\ le v M' = true).
Proof.
  induction l as [|x l IH]; intros st m M pre Hm HM Nm NM Im IM Hb;
    cbn [fold_left].
  - exists m, M. rewrite app_nil_r. auto 10.
  - replace (pre ++ x :: l) with ((pre ++ [x]) ++ l)
      by (rewrite <- app_assoc; reflexivity).
    unfold scanStep at 2 4. destruct (isNaN x) eqn:Nx.
    + apply (IH _ m M); cbn [mn mx]; auto using in_or_app.
      intros v Hv Nv. apply in_app_or in Hv as [Hv|[<-|[]]]; [auto|congruence].
    + rewrite andb_false_r, Hm, HM. cbn [toNumber].
      destruct (Math_min_spec x m Nx Nm) as (Hin & Nmin & L1 & L2).
      destruct (Math_max_spec x M Nx NM) as (Hax & Nmax & L3 & L4).
      apply (IH _ (Math_min x m) (Math_max x M)); cbn [mn mx]; auto.
      * apply in_or_app. destruct Hin as [->| ->]; cbn; auto.
      * apply in_or_app. destruct Hax as [->| ->]; cbn; auto.
      * intros v Hv Nv. apply in_app_or in Hv as [Hv|[<-|[]]].
        -- destruct (Hb v Hv Nv) as [B1 B2].
           split; [apply (le_trans _ m)|apply (le_trans _ M)]; assumption.
        -- auto.
Qed.

(** X8. With [ignoreZeroVoxels] off and a first voxel that is not NaN, the
    scan of [calMinMax] is right: the raw minimum and maximum are voxels
    of the image, they are not NaN, and every voxel that is not NaN lies
    between them; NaN voxels elsewhere are skipped. *)
Theorem scanVoxels_bounds_all :
  forall (x0 : number) (t : list number),
    isNaN x0 = false ->
    let img := x0 :: t in
    let s := scanVoxels false img in
    exists m M,
      mn s = Num m /\ mx s = Num M /\
      isNaN m = false /\ isNaN M = false /\ In m img /\ In M img /\
      (forall v, In v img -> isNaN v = false ->
         le m v = true /\ le v M = true).
Proof.
  intros x0 t N0 img s. subst s img. unfold scanVoxels.
  cbn [array_get nth_error].
  destruct (scan_default_inv (x0 :: t) (BuildScan (Num x0) (Num x0) 0 0)
              x0 x0 [x0]) as (m & M & H1 & H2 & H3 & H4 & H5 & H6 & H7);
    cbn [mn mx]; auto using in_eq.
  - intros v [<-|[]] _. split; apply le_refl; assumption.
  - exists m, M. repeat split; try assumption.
    + destruct H5 as [<-|H5]; [apply in_eq|exact H5].
    + destruct H6 as [<-|H6]; [apply in_eq|exact H6].
    + apply H7; [right; assumption|assumption].
    + apply H7; [right; assumption|assumption].
Qed.

(** The voxels 3, NaN, -2, 0, 9: the minimum is -2 and the maximum 9. *)
Lemma scanVoxels_bounds_all_witness :
  isNaN (ofZ 3) = false /\
  exists m M,
    mn (scanVoxels false mixedVoxels) = Num m /\
    mx (scanVoxels false mixedVoxels) = Num M /\
    m = ofZ (-2) /\ M = ofZ 9 /\
    (forall v, In v mixedVoxels -> isNaN v = false ->
       le m v = true /\ le v M = true).
Proof.
  assert (H : isNaN (ofZ 3) = false) by reflexivity.
  split; [exact H|].
  destruct (scanVoxels_bounds_all (ofZ 3) [NaN; ofZ (-2); zero; ofZ 9] H)
    as (m & M & H1 & H2 & _ & _ & _ & _ & H3).
  exists m, M. repeat split; try assumption.
  - vm_compute. vm_compute in H1. congruence.
  - vm_compute. vm_compute in H2. congruence.
  - apply H3; assumption.
  - apply H3; assumption.
Defined.

Lemma scan_NaN_seed b l : forall st,
  mn st = Num NaN -> mx st = Num NaN ->
  mn (fold_left (scanStep b) l st) = Num NaN /\
  mx (fold_left (scanStep b) l st) = Num NaN.
Proof.
  induction l as [|x l IH]; intros st Hm HM; cbn [fold_left]; [auto|].
  apply IH; unfold scanStep; destruct (isNaN x) eqn:Nx; cbn [mn mx];
    try assumption;
    destruct (strict_eq x zero && b); cbn [mn mx]; try assumption;
    rewrite ?Hm, ?HM; cbn [toNumber]; unfold Math_min, Math_max;
    rewrite Nx; reflexivity.
Qed.

Lemma mul_NaN_l x : mul NaN x = NaN.
Proof. reflexivity. Qed.

Lemma add_NaN_l x : add NaN x = NaN.
Proof. reflexivity. Qed.

(** X9. A NaN in the first voxel poisons the calibration: the scan seeds its
    minimum and maximum with it and [Math.min] and [Math.max] keep it, so
    on the scan path [calMinMax] (which returns, given enough fuel) sets
    all six of [cal_min], [cal_max], [robust_min], [robust_max],
    [global_min], [global_max] to NaN, whatever the other voxels are. *)
Theorem calMinMax_first_voxel_NaN :
  forall (colormap : String.string -> option (value * value))
         (this : Image) (t : list number),
    trustsHeader this = false ->
    value_loose_neq (fst (colormapBounds colormap this))
      (snd (colormapBounds colormap this)) = false ->
    (exists fuel r, calMinMax colormap fuel this (NaN :: t) = Some r) /\
    forall fuel this' r l,
      calMinMax colormap fuel this (NaN :: t) = Some (this', r, l) ->
      r = [Num NaN; Num NaN; Num NaN; Num NaN] /\
      cal_min this' = Num NaN /\ cal_max this' = Num NaN /\
      robust_min this' = Num NaN /\ robust_max this' = Num NaN /\
      global_min this' = Num NaN /\ global_max this' = Num NaN.
Proof.
  intros colormap this t Htrust Hcm. split.
  { destruct (calMinMax_terminates colormap this (NaN :: t)) as (fuel0 & H).
    destruct (H fuel0 (Nat.le_refl _)) as (r & E). eauto. }
  intros fuel this' r l. unfold calMinMax. rewrite Htrust.
  destruct (colormapBounds colormap this) as [cmMin cmMax].
  cbn [fst snd] in Hcm. rewrite Hcm.
  destruct (scan_NaN_seed (ignoreZeroVoxels this) (NaN :: t)
              (BuildScan (Num NaN) (Num NaN) 0 0) eq_refl eq_refl) as [Hm HM].
  change (fold_left (scanStep (ignoreZeroVoxels this)) (NaN :: t)
            (BuildScan (Num NaN) (Num NaN) 0 0))
    with (scanVoxels (ignoreZeroVoxels this) (NaN :: t)) in Hm, HM.
  rewrite Hm, HM.
  unfold intensityRaw2Scaled at 1 2. cbn [toNumber].
  rewrite !mul_NaN_l, !add_NaN_l.
  cbn [ignoreZeroVoxels percentileFrac set_hdr hdr].
  destruct (lt _ one || _).
  - intros E. inversion E; subst. repeat split.
  - unfold robustBins.
    destruct (walkLo _ _ _ _ _); [|discriminate].
    destruct (walkHi _ _ _ _ _); [|discriminate].
    match goal with
    | |- context [if ?c then spread ?f ?h ?a ?b else _] =>
        destruct (if c then spread f h a b else Some (a, b)) as [[lo hi]|]
    end; [|discriminate].
    rewrite !add_NaN_r.
    unfold intensityRaw2Scaled. cbn [toNumber].
    rewrite !mul_NaN_l, !add_NaN_l.
    replace (ge _ NaN) with false by (destruct (Header.cal_min _); reflexivity).
    rewrite andb_false_r. cbn [andb].
    intros E. inversion E; subst. repeat split.
Qed.

(** The voxels NaN, 1, 2 under the colour map gray. *)
Lemma calMinMax_first_voxel_NaN_witness :
  let this := imageOf plainHeader default_percentileFrac false false in
  (trustsHeader this = false /\
   value_loose_neq (fst (colormapBounds noBounds this))
     (snd (colormapBounds noBounds this)) = false) /\
  exists this' l,
    calMinMax noBounds 0 this nanFirst =
      Some (this', [Num NaN; Num NaN; Num NaN; Num NaN], l) /\
    cal_min this' = Num NaN /\ cal_max this' = Num NaN.
Proof.
  cbv zeta.
  set (this := imageOf plainHeader default_percentileFrac false false).
  assert (H1 : trustsHeader this = false) by reflexivity.
  assert (H2 : value_loose_neq (fst (colormapBounds noBounds this))
                 (snd (colormapBounds noBounds this)) = false) by reflexivity.
  split; [split; assumption|].
  destruct (calMinMax_first_voxel_NaN noBounds this [one; two] H1 H2)
    as [_ H].
  destruct (calMinMax noBounds 0 this nanFirst) as [[[this' r] l]|] eqn:E.
  - destruct (H 0%nat this' r l E) as (-> & C1 & C2 & _).
    exists this', l. repeat split; assumption.
  - vm_compute in E. discriminate E.
Defined.

Lemma buildHistogram_step_undefined b (hist : gmap Z number) mn scl :
  (if b && value_strict_eq Undefined (Num zero) then hist
   else if isNaN (toNumber Undefined) then hist
   else hist_incr hist (Math_round (mul (sub (toNumber Undefined) mn) scl)))
  = hist.
Proof. destruct b; reflexivity. Qed.

(** X10. The loops that fill the histogram run [i] up to [nVox] included, one
    index past the end of the voxel array.  The read there is [undefined],
    which is not 0 and is NaN as a number, so the iteration is skipped: the
    histogram is the one of the loop bounded by [i < nVox], for both
    settings of [ignoreZeroVoxels]. *)
Theorem buildHistogram_overrun_harmless :
  forall (ignoreZeroVoxels : bool) (img : list number) (mn scl : number),
    buildHistogram ignoreZeroVoxels img mn scl =
    fold_left
      (fun hist i =>
         let v := array_get img i in
         if ignoreZeroVoxels && value_strict_eq v (Num zero) then hist
         else if isNaN (toNumber v) then hist
         else hist_incr hist (Math_round (mul (sub (toNumber v) mn) scl)))
      (seq 0 (List.length img)) hist_init.
Proof.
  intros b img mn scl. unfold buildHistogram.
  rewrite Nat.add_1_r, seq_S, fold_left_app. cbn [fold_left Nat.add].
  assert (E : array_get img (List.length img) = Undefined).
  { unfold array_get.
    replace (nth_error img (List.length img)) with (@None number);
      [reflexivity|].
    symmetry. apply nth_error_None. lia. }
  cbv zeta. rewrite E. apply buildHistogram_step_undefined.
Qed.

Section Paths.
Variable colormap : String.string -> option (value * value).

(** X11. Whenever [calMinMax] returns, the array it returns has four entries,
    the first two being the [cal_min] and [cal_max] it has set, and
    [robust_min] and [robust_max] equal them; the last two entries are the
    [global_min] and [global_max] of the image unless the bounds came from
    the colour map, in which case they repeat the bounds and the two
    fields are not written. *)
Theorem calMinMax_result_consistent :
  forall (fuel : nat) (this : Image) (img : list number)
         (this' : Image) (r : list value) (l : list String.string),
    calMinMax colormap fuel this img = Some (this', r, l) ->
    robust_min this' = cal_min this' /\
    robust_max this' = cal_max this' /\
    exists g1 g2,
      r = [cal_min this'; cal_max this'; g1; g2] /\
      ((g1 = global_min this' /\ g2 = global_max this') \/
       (g1 = cal_min this' /\ g2 = cal_max this' /\
        global_min this' = global_min this /\
        global_max this' = global_max this)).
Proof.
  intros fuel this img this' r l. unfold calMinMax.
  repeat match goal with
         | |- context [let '(_, _) := ?x in _] => destruct x
         | |- context [match ?x with Some _ => _ | None => _ end] => destruct x
         | |- context [if ?c then _ else _] => destruct c
         end; intros H; inversion H; subst; cbn;
    (split; [reflexivity|]); (split; [reflexivity|]);
    do 2 eexists; (split; [reflexivity|]); auto.
Qed.

Lemma calMinMax_fields :
  forall (fuel : nat) (this : Image) (img : list number)
         (this' : Image) (r : list value) (l : list String.string),
    calMinMax colormap fuel this img = Some (this', r, l) ->
    name this' = name this /\ id this' = id this /\
    colorMap this' = colorMap this /\ opacity this' = opacity this /\
    percentileFrac this' = percentileFrac this /\
    ignoreZeroVoxels this' = ignoreZeroVoxels this /\
    trustCalMinMax this' = trustCalMinMax this /\
    visible this' = visible this /\
    NVImage.img this' = NVImage.img this /\ ras this' = ras this /\
    (hdr this' = hdr this \/
     strict_eq (Header.scl_slope (hdr this)) zero = true /\
     hdr this' = Header.set_scl_slope (hdr this) one).
Proof.
  intros fuel this img this' r l. unfold calMinMax, intensityRaw2Scaled.
  assert (Done : forall (c : Image) x y,
            (Some (c, x, y) = Some (this', r, l) ->
             name c = name this -> id c = id this ->
             colorMap c = colorMap this -> opacity c = opacity this ->
             percentileFrac c = percentileFrac this ->
             ignoreZeroVoxels c = ignoreZeroVoxels this ->
             trustCalMinMax c = trustCalMinMax this ->
             visible c = visible this ->
             NVImage.img c = NVImage.img this -> ras c = ras this ->
             (hdr c = hdr this \/
              strict_eq (Header.scl_slope (hdr this)) zero = true /\
              hdr c = Header.set_scl_slope (hdr this) one) ->
             name this' = name this /\ id this' = id this /\
             colorMap this' = colorMap this /\ opacity this' = opacity this /\
             percentileFrac this' = percentileFrac this /\
             ignoreZeroVoxels this' = ignoreZeroVoxels this /\
             trustCalMinMax this' = trustCalMinMax this /\
             visible this' = visible this /\
             NVImage.img this' = NVImage.img this /\ ras this' = ras this /\
             (hdr this' = hdr this \/
              strict_eq (Header.scl_slope (hdr this)) zero = true /\
              hdr this' = Header.set_scl_slope (hdr this) one))).
  { intros c x y E. inversion E; subst. auto 20. }
  destruct (trustsHeader this);
    [intros H; apply (Done _ _ _ H); auto|].
  destruct (colormapBounds colormap this) as [cmMin cmMax].
  destruct (value_loose_neq cmMin cmMax);
    [intros H; apply (Done _ _ _ H); auto|].
  destruct (strict_eq (Header.scl_slope (hdr this)) zero) eqn:E0;
    cbn [Header.scl_slope Header.set_scl_slope Header.scl_inter];
    rewrite ?E0;
    change (strict_eq one zero) with false; cbn iota;
    cbn [Header.scl_slope Header.set_scl_slope Header.scl_inter];
    (destruct (lt _ one || _);
     [intros H; apply (Done _ _ _ H); auto|]);
    (destruct (robustBins _ _ _ _ _ _) as [[rawLo rawHi]|]; [|discriminate]);
    cbn [Header.scl_slope Header.set_scl_slope Header.scl_inter
         Header.cal_min Header.cal_max];
    rewrite ?E0; change (strict_eq one zero) with false; cbn iota;
    (destruct (_ && _ && _));
    intros H; apply (Done _ _ _ H); auto.
Qed.

(** X12. [calMinMax] writes nothing but the six calibration fields and, when
    [scl_slope] is 0, the slope of the header, which becomes 1: the name,
    the identifier, the display settings, the voxel array and the
    orientation of the image are as before, and so is every other field of
    the header. *)
Theorem calMinMax_frame :
  forall (fuel : nat) (this : Image) (img : list number)
         (this' : Image) (r : list value) (l : list String.string),
    calMinMax colormap fuel this img = Some (this', r, l) ->
    name this' = name this /\ id this' = id this /\
    colorMap this' = colorMap this /\ opacity this' = opacity this /\
    percentileFrac this' = percentileFrac this /\
    ignoreZeroVoxels this' = ignoreZeroVoxels this /\
    trustCalMinMax this' = trustCalMinMax this /\
    visible this' = visible this /\
    NVImage.img this' = NVImage.img this /\ ras this' = ras this /\
    (hdr this' = hdr this \/
     strict_eq (Header.scl_slope (hdr this)) zero = true /\
     hdr this' = Header.set_scl_slope (hdr this) one).
Proof. exact calMinMax_fields. Qed.

End Paths.

(** Fifty voxels 0, 1, ..., 49 take the histogram path. *)
Lemma calMinMax_result_consistent_witness :
  let this := imageOf plainHeader default_percentileFrac false false in
  exists this' g1 g2 l,
    calMinMax noBounds 2000 this ramp =
      Some (this', [cal_min this'; cal_max this'; g1; g2], l) /\
    robust_min this' = cal_min this' /\ robust_max this' = cal_max this' /\
    cal_min this' = Num zero /\ cal_max this' = Num (ofZ 49) /\
    g1 = Num zero /\ g2 = Num (ofZ 49).
Proof.
  cbv zeta.
  set (this := imageOf plainHeader default_percentileFrac false false).
  destruct (calMinMax noBounds 2000 this ramp) as [[[this' r] l]|] eqn:E.
  - destruct (calMinMax_result_consistent noBounds _ _ _ _ _ _ E)
      as (H1 & H2 & g1 & g2 & -> & _).
    exists this', g1, g2, l. split; [reflexivity|].
    split; [exact H1|]. split; [exact H2|].
    vm_compute in E. inversion E; subst. repeat split.
  - vm_compute in E. discriminate E.
Defined.

Lemma calMinMax_frame_witness :
  let this := imageOf plainHeader default_percentileFrac false false in
  exists this' r l,
    calMinMax noBounds 2000 this ramp = Some (this', r, l) /\
    colorMap this' = "gray"%string /\ img this' = 1%positive /\
    hdr this' = plainHeader.
Proof.
  cbv zeta.
  set (this := imageOf plainHeader default_percentileFrac false false).
  destruct (calMinMax noBounds 2000 this ramp) as [[[this' r] l]|] eqn:E.
  - destruct (calMinMax_frame noBounds _ _ _ _ _ _ E)
      as (_ & _ & H3 & _ & _ & _ & _ & _ & H9 & _ & [H11|[H11 _]]).
    + exists this', r, l. repeat split; assumption.
    + vm_compute in H11. discriminate H11.
  - vm_compute in E. discriminate E.
Defined.

End CalibrationFacts.

(** ** Further properties of [clone], [zeroImage] and [zerosLike] *)

Module CopyFacts.
Import JS JSFacts NVImage NVImageFacts CalibrationFacts Loading Samples.

Section Copies.
Variable stored : number -> number.
Variable mat4_invert mat4_multiply : glmat -> glmat -> glmat.
Variable colormap : String.string -> option (value * value).


Lemma elements_fill_zero buf :
  elements (fill_zero buf) = replicate (List.length (elements buf)) zero /\
  elementTypeOf (fill_zero buf) = elementTypeOf buf.
Proof.
  assert (H : forall n, map ofZ (replicate n 0%Z) = replicate n zero).
  { induction n as [|n IH]; cbn; [reflexivity|]. rewrite IH. reflexivity. }
  destruct buf; cbn [fill_zero elements elementTypeOf];
    rewrite ?H, ?length_map; split; reflexivity.
Qed.

(** X14. [zerosLike] is [clone] followed by a fill with zeros.  It returns for
    every image that has a voxel array (given enough fuel); the image it
    returns is field for field the clone, so that its calibration range is
    the one [clone] computed from the voxels of the original and not the
    range of the zeros it now holds; and its voxel array has the element
    type and the length of the original, every element being 0. *)
Theorem zerosLike_is_zeroed_clone :
  forall (nvImage : Image) (s : store) (buf : TypedArray),
    s !! img nvImage = Some buf ->
    (exists fuel zeroClone s',
       zerosLike stored mat4_invert mat4_multiply colormap fuel nvImage s
         = Some (zeroClone, s')) /\
    forall fuel zeroClone s',
      zerosLike stored mat4_invert mat4_multiply colormap fuel nvImage s
        = Some (zeroClone, s') ->
      exists s1 zeros,
        clone stored mat4_invert mat4_multiply colormap fuel nvImage s
          = Some (zeroClone, s1) /\
        s' = <[img zeroClone := zeros]> s1 /\
        s' !! img zeroClone = Some zeros /\
        elementTypeOf zeros = elementTypeOf buf /\
        elements zeros = replicate (List.length (elements buf)) zero.
Proof.
  intros nvImage s buf Hbuf. split.
  - destruct (clone_returns stored mat4_invert mat4_multiply colormap
                nvImage s buf Hbuf) as (fuel0 & H).
    destruct (H fuel0 (Nat.le_refl _)) as (c & s1 & E).
    destruct (clone_store _ _ _ _ _ _ _ _ _ E) as (b & _ & _ & ->).
    exists fuel0, c. eexists. unfold zerosLike, zeroImage. rewrite E.
    rewrite lookup_insert_eq. reflexivity.
  - intros fuel z s' H. unfold zerosLike in H.
    destruct (clone _ _ _ _ _ _ _) as [[c s1]|] eqn:E; [|discriminate].
    unfold zeroImage in H.
    destruct (clone_store _ _ _ _ _ _ _ _ _ E) as (b & Hb & _ & ->).
    rewrite lookup_insert_eq in H. inversion H; subst.
    rewrite Hbuf in Hb. inversion Hb; subst b.
    exists (<[img z := buf]> s), (fill_zero buf).
    split; [reflexivity|]. split; [reflexivity|].
    split; [apply lookup_insert_eq|].
    destruct (elements_fill_zero buf). auto.
Qed.

End Copies.


Lemma zerosLike_is_zeroed_clone_witness :
  someStore !! img someImage = Some (Uint8Array [10; 20; 30; 40]%Z) /\
  exists zeroClone s',
    zerosLike (fun x => x) (fun out _ => out) (fun a _ => a) (fun _ => None)
      2000 someImage someStore = Some (zeroClone, s') /\
    exists zeros,
      s' !! img zeroClone = Some zeros /\
      elements zeros = [zero; zero; zero; zero] /\
      cal_max zeroClone = Num (ofZ 40).
Proof.
  assert (H0 : someStore !! img someImage
               = Some (Uint8Array [10; 20; 30; 40]%Z)) by reflexivity.
  split; [exact H0|].
  destruct (zerosLike_is_zeroed_clone (fun x => x) (fun out _ => out)
              (fun a _ => a) (fun _ => None) someImage someStore _ H0)
    as [_ H].
  destruct (zerosLike (fun x => x) (fun out _ => out) (fun a _ => a)
              (fun _ => None) 2000 someImage someStore) as [[z s']|] eqn:E.
  - exists z, s'. split; [reflexivity|].
    destruct (H 2000%nat z s' E) as (s1 & zeros & _ & _ & H3 & _ & H5).
    exists zeros. split; [exact H3|]. split; [exact H5|].
    vm_compute in E. inversion E; subst. reflexivity.
  - vm_compute in E. discriminate E.
Defined.

End CopyFacts.

(** ** Properties of the voxel look-up *)

Module QueryFacts.
Import JS JSFacts NVImage NVImageFacts Query.

Lemma mul_comm x y : mul x y = mul y x.
Proof.
  unfold mul, SFmul.
  destruct x as [sx|sx| |sx mx ex], y as [sy|sy| |sy my ey];
    rewrite ?(xorb_comm sx sy), ?(Pos.mul_comm mx my), ?(Z.add_comm ex ey);
    reflexivity.
Qed.

Lemma typed_get_undefined a k :
  typed_get a k = Undefined <->
  forall i, toZ k = Some i ->
    ~ (0 <= i < Z.of_nat (List.length (elements a)))%Z.
Proof.
  unfold typed_get. destruct (toZ k) as [i|]; [|split; [discriminate|auto]].
  destruct (Z.leb_spec 0 i),
    (Z.ltb_spec i (Z.of_nat (List.length (elements a))));
    cbn [andb]; try (split; [intros _ j [= <-]; lia|reflexivity]).
  split.
  - unfold array_get.
    destruct (nth_error (elements a) (Z.to_nat i)) eqn:E; [discriminate|].
    apply nth_error_None in E. lia.
  - intros Hall. exfalso. apply (Hall i eq_refl). lia.
Qed.

Section MethodFacts.
Variable numBitsPerVoxel : Header.t -> value.

(** X15. [getValue] on an image of a scalar datatype that has a voxel array
    never throws.  It reads the voxel at the linear index
    [x + y * nx + z * nx * ny] and has no bounds check on the coordinates:
    when that number is not an integer index of the voxel array the read
    is [undefined] and the value returned is NaN; when it is, the value is
    the voxel scaled by [scl_slope] and [scl_inter], the very number
    [intensityRaw2Scaled] computes for that voxel as soon as the slope is
    not 0. *)
Theorem getValue_scalar :
  forall (this : Image) (s : store) (buf : TypedArray) (x y z : number),
    s !! img this = Some buf ->
    Header.datatypeCode (hdr this) <> DT_RGBA32 ->
    Header.datatypeCode (hdr this) <> DT_RGB ->
    let nx := toNumber (array_get (Header.dims (hdr this)) 1) in
    let ny := toNumber (array_get (Header.dims (hdr this)) 2) in
    let i := add (add x (mul y nx)) (mul (mul z nx) ny) in
    (exists r, getValue numBitsPerVoxel this s x y z = Some r) /\
    ((forall k, toZ i = Some k ->
        ~ (0 <= k < Z.of_nat (List.length (elements buf)))%Z) ->
     getValue numBitsPerVoxel this s x y z = Some NaN) /\
    (forall k v,
       toZ i = Some k -> nth_error (elements buf) (Z.to_nat k) = Some v ->
       (0 <= k)%Z ->
       getValue numBitsPerVoxel this s x y z =
         Some (add (mul (Header.scl_slope (hdr this)) v)
                 (Header.scl_inter (hdr this))) /\
       (strict_eq (Header.scl_slope (hdr this)) zero = false ->
        getValue numBitsPerVoxel this s x y z =
          Some (snd (intensityRaw2Scaled (hdr this) (Num v))))).
Proof.
  intros this s buf x y z Hbuf H1 H2 nx ny i.
  assert (E : getValue numBitsPerVoxel this s x y z =
              Some (add (mul (Header.scl_slope (hdr this))
                           (toNumber (typed_get buf i)))
                      (Header.scl_inter (hdr this)))).
  { unfold getValue. rewrite Hbuf.
    destruct (Z.eqb_spec (Header.datatypeCode (hdr this)) DT_RGBA32);
      [contradiction|].
    destruct (Z.eqb_spec (Header.datatypeCode (hdr this)) DT_RGB);
      [contradiction|].
    reflexivity. }
  split; [eauto|]. split.
  - intros Hout. rewrite E.
    rewrite (proj2 (typed_get_undefined buf i) Hout). cbn [toNumber].
    destruct (Header.scl_slope (hdr this)); reflexivity.
  - intros k v Hk Hv Hpos. rewrite E.
    assert (Hlt : (Z.to_nat k < List.length (elements buf))%nat)
      by (apply nth_error_Some; congruence).
    assert (G : typed_get buf i = Num v).
    { unfold typed_get. rewrite Hk.
      destruct (Z.leb_spec 0 k); [|lia].
      destruct (Z.ltb_spec k (Z.of_nat (List.length (elements buf)))); [|lia].
      cbn [andb]. unfold array_get. rewrite Hv. reflexivity. }
    rewrite G. cbn [toNumber]. split; [reflexivity|].
    intros Hs. unfold intensityRaw2Scaled. rewrite Hs. cbn [snd toNumber].
    rewrite (mul_comm v). reflexivity.
Qed.

End MethodFacts.

(** The voxel (1, 1, 0) of the 2x2 image [someImage] is the fourth one. *)
Lemma getValue_scalar_witness :
  (someStore !! img someImage = Some (Uint8Array [10; 20; 30; 40]%Z) /\
   Header.datatypeCode (hdr someImage) <> DT_RGBA32 /\
   Header.datatypeCode (hdr someImage) <> DT_RGB) /\
  getValue (fun _ => Num eight) someImage someStore one one zero
    = Some (ofZ 40) /\
  getValue (fun _ => Num eight) someImage someStore two one zero = Some NaN.
Proof.
  assert (H0 : someStore !! img someImage
               = Some (Uint8Array [10; 20; 30; 40]%Z)) by reflexivity.
  assert (H1 : Header.datatypeCode (hdr someImage) <> DT_RGBA32)
    by (vm_compute; discriminate).
  assert (H2 : Header.datatypeCode (hdr someImage) <> DT_RGB)
    by (vm_compute; discriminate).
  split; [auto|]. split.
  - destruct (getValue_scalar (fun _ => Num eight) someImage someStore _
                one one zero H0 H1 H2) as (_ & _ & H).
    destruct (H 3%Z (ofZ 40)) as [E _];
      [vm_compute; reflexivity|vm_compute; reflexivity|lia|].
    rewrite E. vm_compute. reflexivity.
  - destruct (getValue_scalar (fun _ => Num eight) someImage someStore _
                two one zero H0 H1 H2) as (_ & H & _).
    apply H. intros k Hk. vm_compute in Hk. inversion Hk; subst.
    vm_compute. intros [_ C]. discriminate C.
Defined.

Lemma number_eq_dec (x y : number) : {x = y} + {x <> y}.
Proof.
  decide equality; try apply Bool.bool_dec; try apply Z.eq_dec;
    apply Pos.eq_dec.
Defined.

(** X16. The luminance weights 0.21, 0.72 and 0.07 leave every gray level as it
    is: for a voxel whose red, green and blue bytes are equal, the value
    [getValue] computes for an RGB or RGBA32 image is that byte. *)
Theorem luminance_gray :
  forall v : Z,
    (0 <= v <= 255)%Z ->
    luminance (ofZ v) (ofZ v) (ofZ v) = ofZ v.
Proof.
  intros v Hv.
  assert (H : forallb
                (fun n => let g := ofZ (Z.of_nat n) in
                          if number_eq_dec (luminance g g g) g
                          then true else false)
                (seq 0 256) = true) by (vm_compute; reflexivity).
  rewrite forallb_forall in H.
  specialize (H (Z.to_nat v)). rewrite Z2Nat.id in H by lia. cbv zeta in H.
  destruct (number_eq_dec _ _) as [E|]; [exact E|].
  discriminate H. apply in_seq. lia.
Qed.

Lemma luminance_gray_witness :
  (0 <= 128 <= 255)%Z /\
  luminance (ofZ 128) (ofZ 128) (ofZ 128) = ofZ 128.
Proof.
  assert (H : (0 <= 128 <= 255)%Z) by lia.
  split; [exact H|]. exact (luminance_gray 128 H).
Defined.

End QueryFacts.

(** ** Properties of the constructor and of the loaders *)

Module LoadingFacts.
Import JS JSFacts NVImage NVImageFacts ConstructorFacts CalibrationFacts.
Import Loading Samples.

Lemma split_nonempty sep s : split sep s <> [].
Proof.
  destruct s as [|c s]; cbn; [discriminate|].
  destruct (Ascii.eqb c sep); [discriminate|].
  destruct (split sep s); discriminate.
Qed.

Lemma split_concat sep s :
  String.concat (String sep EmptyString) (split sep s) = s.
Proof.
  induction s as [|c s IH]; [reflexivity|]. cbn [split].
  destruct (Ascii.eqb_spec c sep) as [->|Hne].
  - pose proof (split_nonempty sep s) as Hn.
    destruct (split sep s) as [|p ps]; [congruence|].
    cbn [String.concat] in *. cbn. rewrite IH. reflexivity.
  - pose proof (split_nonempty sep s) as Hn.
    destruct (split sep s) as [|p ps]; [congruence|].
    destruct ps as [|q qs].
    + cbn in *. rewrite IH. reflexivity.
    + change (String c (p ++ String.concat (String sep EmptyString)
                              (EmptyString :: q :: qs)) = String c s).
      f_equal. exact IH.
Qed.

Lemma split_no_sep sep s :
  Forall (fun part => ~ In sep (list_ascii_of_string part)) (split sep s).
Proof.
  induction s as [|c s IH]; cbn [split].
  - constructor; [intros []|constructor].
  - destruct (Ascii.eqb_spec c sep) as [->|Hne].
    + constructor; [intros []|exact IH].
    + destruct (split sep s) as [|p ps].
      * constructor; [|constructor]. cbn. intros [E|[]]. congruence.
      * inversion IH; subst. constructor; [|assumption].
        cbn. intros [E|E]; [congruence|contradiction].
Qed.

Lemma append_assoc (a b c : String.string) :
  ((a ++ b) ++ c = a ++ (b ++ c))%string.
Proof.
  induction a as [|x a IH]; [reflexivity|].
  change (String x ((a ++ b) ++ c) = String x (a ++ (b ++ c)))%string.
  f_equal. exact IH.
Qed.

Lemma append_nil_r (a : String.string) : (a ++ "" = a)%string.
Proof.
  induction a as [|x a IH]; [reflexivity|].
  change (String x (a ++ "") = String x a)%string. f_equal. exact IH.
Qed.

Lemma concat_last sep parts :
  parts <> [] ->
  exists prefix,
    String.concat sep parts = (prefix ++ List.last parts EmptyString)%string /\
    (prefix = EmptyString \/ exists p, prefix = (p ++ sep)%string).
Proof.
  induction parts as [|x parts IH]; intros Hne; [congruence|].
  destruct parts as [|y parts].
  - exists EmptyString. cbn. auto.
  - destruct IH as (prefix & E & Hp); [discriminate|].
    exists (x ++ sep ++ prefix)%string. split.
    + change (String.concat sep (x :: y :: parts))
        with (x ++ sep ++ String.concat sep (y :: parts))%string.
      rewrite E. change (List.last (x :: y :: parts) EmptyString)
        with (List.last (y :: parts) EmptyString).
      rewrite !append_assoc. reflexivity.
    + right. destruct Hp as [->|(p & ->)].
      * exists x. rewrite append_nil_r. reflexivity.
      * exists (x ++ sep ++ p)%string. rewrite !append_assoc. reflexivity.
Qed.

Lemma resolveAffine_ok Math_pow useQ hdr :
  isAffineOK (Header.affine (fst (resolveAffine Math_pow useQ hdr))) = true.
Proof.
  unfold resolveAffine.
  destruct (chooseAffine Math_pow useQ (fixScaling hdr)) as [h l1].
  unfold repairAffine.
  destruct (isAffineOK (Header.affine h)) eqn:E; cbn [negb fst].
  - exact E.
  - cbn. apply diagonalAffine_ok; apply usableSpacing_ok.
Qed.

Lemma clampOpacity_le opacity : gt (clampOpacity opacity) one = false.
Proof.
  unfold clampOpacity. destruct (gt opacity one) eqn:E; [reflexivity|exact E].
Qed.

Section LoaderFacts.

Variable Math_pow : number -> number -> number.
Variable stored : number -> number.
Variable mat4_invert mat4_multiply : glmat -> glmat -> glmat.
Variable colormap : String.string -> option (value * value).
Variable mat4_transpose : glmat -> glmat -> glmat.
Variable vec4_transformMat4 vec3_subtract : glmat -> glmat -> glmat -> glmat.
Variable vec3_angle : glmat -> glmat -> number.
Variable DataBuffer : Type.
Variable nifti_readHeader : DataBuffer -> outcome (option Header.t).
Variable nifti_isCompressed : DataBuffer -> outcome bool.
Variable nifti_decompress : DataBuffer -> outcome DataBuffer.
Variable nifti_readImage : Header.t -> DataBuffer -> outcome ArrayBuffer.
Variable uuidv4 : String.string.
Variable fetch : String.string -> outcome (Response DataBuffer).
Variable File : Type.
Variable FileReader_readAsArrayBuffer : File -> DataBuffer + String.string.

Local Abbreviation new :=
  (NVImage_new Math_pow stored mat4_invert mat4_multiply colormap
     mat4_transpose vec4_transformMat4 vec3_subtract vec3_angle DataBuffer
     nifti_readHeader nifti_isCompressed nifti_decompress nifti_readImage
     uuidv4).

Local Abbreviation raw :=
  (readImage DataBuffer nifti_isCompressed nifti_decompress nifti_readImage).

(** The constructor when the switch throws. *)
Lemma NVImage_new_switch_throws fuel s dataBuffer name colorMap opacity trust
  frac ignoreZero visible useQ hdr0 imgRaw e :
  nifti_readHeader dataBuffer = Returned (Some hdr0) ->
  raw (fst (resolveAffine Math_pow useQ hdr0)) dataBuffer = Returned imgRaw ->
  convertVoxels (Header.datatypeCode hdr0) imgRaw = Thrown e ->
  new fuel s dataBuffer name colorMap opacity trust frac ignoreZero visible
    useQ =
  Some (Thrown e, map Debug (snd (resolveAffine Math_pow useQ hdr0))).
Proof.
  intros Hh Hr Hc. unfold NVImage_new. rewrite Hh.
  destruct (resolveAffine_scl Math_pow useQ hdr0) as (_ & _ & Hcode & _).
  destruct (resolveAffine Math_pow useQ hdr0) as [h log1]. cbn [fst snd] in *.
  rewrite Hr, Hcode, Hc. reflexivity.
Qed.

(** The constructor when the switch returns. *)
Lemma NVImage_new_switch_returns s dataBuffer name colorMap opacity trust
  frac ignoreZero visible useQ hdr0 imgRaw voxels code :
  nifti_readHeader dataBuffer = Returned (Some hdr0) ->
  raw (fst (resolveAffine Math_pow useQ hdr0)) dataBuffer = Returned imgRaw ->
  convertVoxels (Header.datatypeCode hdr0) imgRaw = Returned (voxels, code) ->
  exists fuel0, forall fuel, (fuel0 <= fuel)%nat ->
    exists this s' log,
      new fuel s dataBuffer name colorMap opacity trust frac ignoreZero
        visible useQ = Some (Returned (this, s'), log).
Proof.
  intros Hh Hr Hc. unfold NVImage_new. rewrite Hh.
  destruct (resolveAffine_scl Math_pow useQ hdr0) as (_ & _ & Hcode & _).
  destruct (resolveAffine Math_pow useQ hdr0) as [h log1]. cbn [fst snd] in *.
  rewrite Hr, Hcode, Hc.
  match goal with
  | |- context [calMinMax _ _ ?c ?i] =>
      destruct (calMinMax_terminates colormap c i) as (fuel0 & H)
  end.
  exists fuel0. intros fuel Hf.
  destruct (H fuel Hf) as ([[c r] l] & ->). eauto.
Qed.

(** X17. What the constructor on a data buffer throws, and when.  It throws
    what the reader throws from [readHeader], [isCompressed], [decompress]
    or [readImage]; a [TypeError] when the reader finds no header; the
    string of the [default] case when the datatype of the header is not
    one of the eleven the switch knows; and a [RangeError] when the
    datatype is known and the byte length of the raw image is no multiple
    of the size of its elements.  By then it has logged the lines of the
    affine resolution and nothing else.  In every other case it returns,
    given enough fuel for the loops of [calMinMax]. *)
Theorem NVImage_new_outcome :
  forall (s : store) (dataBuffer : DataBuffer) (name colorMap : String.string)
         (opacity : number) (trustCalMinMax : bool) (percentileFrac : number)
         (ignoreZeroVoxels visible useQFormNotSForm : bool),
    let run fuel :=
      NVImage_new Math_pow stored mat4_invert mat4_multiply colormap
        mat4_transpose vec4_transformMat4 vec3_subtract vec3_angle
        DataBuffer nifti_readHeader nifti_isCompressed nifti_decompress
        nifti_readImage uuidv4 fuel s dataBuffer name colorMap opacity
        trustCalMinMax percentileFrac ignoreZeroVoxels visible
        useQFormNotSForm in
    match nifti_readHeader dataBuffer with
    | Thrown e => forall fuel, run fuel = Some (Thrown e, [])
    | Returned None => forall fuel, run fuel = Some (Thrown TypeError, [])
    | Returned (Some hdr0) =>
        let code := Header.datatypeCode hdr0 in
        let resolved := resolveAffine Math_pow useQFormNotSForm hdr0 in
        let logged := map Debug (snd resolved) in
        match
          readImage DataBuffer nifti_isCompressed nifti_decompress
            nifti_readImage (fst resolved) dataBuffer
        with
        | Thrown e => forall fuel, run fuel = Some (Thrown e, logged)
        | Returned imgRaw =>
            let size := elementSize code in
            (~ In code supportedDatatypes ->
             forall fuel,
               run fuel = Some (Thrown (UnsupportedDatatype code), logged)) /\
            (In code supportedDatatypes ->
             (List.length imgRaw mod size <> 0)%nat ->
             forall fuel, run fuel = Some (Thrown RangeError, logged)) /\
            (In code supportedDatatypes ->
             (List.length imgRaw mod size = 0)%nat ->
             exists fuel0, forall fuel, (fuel0 <= fuel)%nat ->
               exists this s' log,
                 run fuel = Some (Returned (this, s'), log))
        end
    end.
Proof.
  intros s dataBuffer name colorMap opacity trust frac ignoreZero visible
    useQ run.
  destruct (nifti_readHeader dataBuffer) as [[hdr0|]|e] eqn:Hh.
  - cbv zeta.
    destruct (raw (fst (resolveAffine Math_pow useQ hdr0)) dataBuffer)
      as [imgRaw|e] eqn:Hr.
    + destruct (convertVoxels_throws (Header.datatypeCode hdr0) imgRaw)
        as (T1 & T2 & T3).
      split; [|split].
      * intros Hc fuel. subst run.
        apply (NVImage_new_switch_throws fuel s dataBuffer name colorMap
                 opacity trust frac ignoreZero visible useQ hdr0 imgRaw _
                 Hh Hr (proj2 T1 Hc)).
      * intros Hc Hm fuel. subst run.
        apply (NVImage_new_switch_throws fuel s dataBuffer name colorMap
                 opacity trust frac ignoreZero visible useQ hdr0 imgRaw _
                 Hh Hr (proj2 T2 (conj Hc Hm))).
      * intros Hc Hm.
        destruct (convertVoxels (Header.datatypeCode hdr0) imgRaw)
          as [[voxels code]|e] eqn:EV.
        -- apply (NVImage_new_switch_returns s dataBuffer name colorMap
                    opacity trust frac ignoreZero visible useQ hdr0 imgRaw
                    voxels code Hh Hr EV).
        -- exfalso. destruct (T3 e eq_refl) as [->| ->].
           ++ exact (proj1 T1 eq_refl Hc).
           ++ exact (proj2 (proj1 T2 eq_refl) Hm).
    + intros fuel. subst run. unfold NVImage_new. rewrite Hh.
      destruct (resolveAffine Math_pow useQ hdr0) as [h log1].
      cbn [fst snd] in *. rewrite Hr. reflexivity.
  - intros fuel. subst run. unfold NVImage_new. rewrite Hh. reflexivity.
  - intros fuel. subst run. unfold NVImage_new. rewrite Hh. reflexivity.
Qed.

(** X18. What holds of every image the constructor returns.  The settings are
    the arguments, except that an opacity above 1 is stored as 1.  The
    header has an affine that passes [isAffineOK], a slope that is neither
    NaN nor 0 and an intercept that is not NaN; its datatype code is never
    one of the widened ones and names the element type of the voxel array.
    The orientation is the one [calculateRAS] computes from that header.
    The voxel array is held at a location that was free in the store,
    which is otherwise unchanged. *)
Theorem NVImage_new_invariants :
  forall (fuel : nat) (s : store) (dataBuffer : DataBuffer)
         (name colorMap : String.string) (opacity : number)
         (trustCalMinMax : bool) (percentileFrac : number)
         (ignoreZeroVoxels visible useQFormNotSForm : bool)
         (this : Image) (s' : store) (log : list event),
    NVImage_new Math_pow stored mat4_invert mat4_multiply colormap
      mat4_transpose vec4_transformMat4 vec3_subtract vec3_angle
      DataBuffer nifti_readHeader nifti_isCompressed nifti_decompress
      nifti_readImage uuidv4 fuel s dataBuffer name colorMap opacity
      trustCalMinMax percentileFrac ignoreZeroVoxels visible
      useQFormNotSForm = Some (Returned (this, s'), log) ->
    (NVImage.name this = name /\ id this = uuidv4 /\
     NVImage.colorMap this = colorMap /\
     NVImage.opacity this = clampOpacity opacity /\
     gt (NVImage.opacity this) one = false /\
     NVImage.percentileFrac this = percentileFrac /\
     NVImage.ignoreZeroVoxels this = ignoreZeroVoxels /\
     NVImage.trustCalMinMax this = trustCalMinMax /\
     NVImage.visible this = visible) /\
    (isAffineOK (Header.affine (hdr this)) = true /\
     isNaN (Header.scl_slope (hdr this)) = false /\
     strict_eq (Header.scl_slope (hdr this)) zero = false /\
     isNaN (Header.scl_inter (hdr this)) = false /\
     ~ In (Header.datatypeCode (hdr this))
          [DT_INT8; DT_UINT32; DT_SIGNED_INT; DT_INT64] /\
     ras this =
       Some (calculateRAS stored mat4_invert mat4_multiply (hdr this))) /\
    (s !! img this = None /\
     exists voxels,
       s' = <[img this := voxels]> s /\
       (Header.datatypeCode (hdr this) = elementTypeOf voxels \/
        (Header.datatypeCode (hdr this) = DT_RGB \/
         Header.datatypeCode (hdr this) = DT_RGBA32) /\
        elementTypeOf voxels = DT_UNSIGNED_CHAR)).
Proof.
  intros fuel s dataBuffer name colorMap opacity trust frac ignoreZero visible
    useQ this s' log.
  unfold NVImage_new.
  destruct (nifti_readHeader dataBuffer) as [[hdr0|]|e]; try discriminate.
  pose proof (resolveAffine_ok Math_pow useQ hdr0) as HA.
  destruct (resolveAffine_scl Math_pow useQ hdr0) as (Hs & Hi & _).
  destruct (fixScaling_ok hdr0) as (F1 & F2 & F3). cbv zeta in F1, F2, F3.
  rewrite <- Hs in F1, F2. rewrite <- Hi in F3.
  destruct (resolveAffine Math_pow useQ hdr0) as [h log1].
  cbn [fst snd] in *.
  destruct (raw h dataBuffer) as [imgRaw|e]; [|discriminate].
  match goal with
  | |- context [convertVoxels ?c ?r] =>
      pose proof (convertVoxels_returns c r) as HV;
      destruct (convertVoxels c r) as [[voxels code]|e]; [|discriminate]
  end.
  destruct (HV voxels code eq_refl) as (_ & _ & HV1 & HV2 & _). clear HV.
  cbv zeta.
  generalize (calculateRAS_log stored mat4_invert mat4_multiply mat4_transpose
                vec4_transformMat4 vec3_subtract vec3_angle
                (Header.set_datatypeCode h code)).
  intros log2.
  destruct (calMinMax _ _ _ _) as [[[c r] l]|] eqn:EC; [|discriminate].
  intros [= -> <- <-].
  apply calMinMax_fields in EC. cbn in EC.
  destruct EC as (H1 & H2 & H3 & H4 & H5 & H6 & H7 & H8 & H9 & H10 & H11).
  assert (Hh : hdr this = Header.set_datatypeCode h code).
  { destruct H11 as [H11|[H11 _]]; [exact H11|].
    cbn in H11. congruence. }
  rewrite Hh. cbn [Header.set_datatypeCode Header.affine Header.scl_slope
                   Header.scl_inter Header.datatypeCode].
  split; [|split].
  - rewrite H4. auto 10 using clampOpacity_le.
  - auto 10.
  - rewrite H9. split.
    + apply not_elem_of_dom. apply is_fresh.
    + exists voxels. split; [reflexivity|exact HV2].
Qed.

Lemma NVImage_new_name fuel s dataBuffer name colorMap opacity trust frac
  ignoreZero visible useQ this s' log :
  new fuel s dataBuffer name colorMap opacity trust frac ignoreZero visible
    useQ = Some (Returned (this, s'), log) ->
  NVImage.name this = name.
Proof.
  unfold NVImage_new.
  destruct (nifti_readHeader dataBuffer) as [[hdr0|]|e]; try discriminate.
  destruct (resolveAffine Math_pow useQ hdr0) as [h log1].
  destruct (raw h dataBuffer) as [imgRaw|e]; [|discriminate].
  destruct (convertVoxels _ _) as [[voxels code]|e]; [|discriminate].
  cbv zeta.
  generalize (calculateRAS_log stored mat4_invert mat4_multiply mat4_transpose
                vec4_transformMat4 vec3_subtract vec3_angle
                (Header.set_datatypeCode h code)).
  intros log2.
  destruct (calMinMax _ _ _ _) as [[[c r] l]|] eqn:EC; [|discriminate].
  intros [= -> <- <-].
  apply calMinMax_fields in EC. apply EC.
Qed.

(** X19. [loadFromUrl] names the image after the URL and ignores the name it is
    given: its result is the same for every [name] argument, and an image
    it returns is named by the part of the URL that follows its last
    slash, the whole URL when it has none.  That part contains no slash
    and ends the URL, after nothing or after a slash. *)
Theorem loadFromUrl_name_from_url :
  forall (fuel : nat) (s : store) (url name colorMap : String.string)
         (opacity : number) (trustCalMinMax : bool) (percentileFrac : number)
         (ignoreZeroVoxels visible : bool),
    let load name :=
      loadFromUrl Math_pow stored mat4_invert mat4_multiply colormap
        mat4_transpose vec4_transformMat4 vec3_subtract vec3_angle
        DataBuffer nifti_readHeader nifti_isCompressed nifti_decompress
        nifti_readImage uuidv4 fetch fuel s url name colorMap opacity
        trustCalMinMax percentileFrac ignoreZeroVoxels visible in
    let last := slice_last (split slash url) in
    (forall name', load name' = load name) /\
    (forall image s' events,
       load name = Some (Returned (Some image, s'), events) ->
       NVImage.name image = last) /\
    ~ In slash (list_ascii_of_string last) /\
    exists prefix,
      url = (prefix ++ last)%string /\
      (prefix = EmptyString \/
       exists p, prefix = (p ++ String slash EmptyString)%string).
Proof.
  intros fuel s url name colorMap opacity trust frac ignoreZero visible
    load last.
  split; [reflexivity|]. split; [|split].
  - intros image s' events. subst load. unfold loadFromUrl.
    destruct (fetch url) as [response|e]; [|discriminate].
    destruct (ok response); [|discriminate]. cbn [negb].
    destruct (arrayBuffer response) as [dataBuffer|]; [|discriminate].
    destruct (NVImage_new _ _ _ _ _ _ _ _ _ _ _ _ _ _ _ _ _ _ _ _ _ _ _ _ _
                _)
      as [[[[c s1]|e] l]|] eqn:E; try discriminate.
    intros H. inversion H; subst.
    apply (NVImage_new_name _ _ _ _ _ _ _ _ _ _ _ _ _ _ E).
  - subst last. unfold slice_last.
    pose proof (split_no_sep slash url) as HF.
    pose proof (split_nonempty slash url) as HN.
    rewrite Forall_forall in HF. apply HF.
    destruct (exists_last HN) as (l' & a & ->).
    rewrite last_last. apply in_or_app. right. left. reflexivity.
  - destruct (concat_last (String slash EmptyString) (split slash url)
                (split_nonempty slash url)) as (prefix & E & Hp).
    rewrite split_concat in E. exists prefix. split; assumption.
Qed.

(** X20. [loadFromUrl] and [loadFromFile] differ only in the name and in what
    becomes of an exception.  On the same data buffer and settings, when
    the constructor returns an image, [loadFromUrl] returns it under the
    name taken from the URL and [loadFromFile] under the name it is given;
    when the constructor throws, [loadFromUrl] throws the same exception
    while [loadFromFile] logs it, returns [null] and leaves the store as
    it was. *)
Theorem loaders_agree :
  forall (fuel : nat) (s : store) (url : String.string) (file : File)
         (response : Response DataBuffer) (dataBuffer : DataBuffer)
         (name colorMap : String.string) (opacity : number)
         (trustCalMinMax : bool) (percentileFrac : number)
         (ignoreZeroVoxels visible : bool),
    fetch url = Returned response -> ok response = true ->
    arrayBuffer response = Some dataBuffer ->
    FileReader_readAsArrayBuffer file = inl dataBuffer ->
    let fromUrl :=
      loadFromUrl Math_pow stored mat4_invert mat4_multiply colormap
        mat4_transpose vec4_transformMat4 vec3_subtract vec3_angle
        DataBuffer nifti_readHeader nifti_isCompressed nifti_decompress
        nifti_readImage uuidv4 fetch fuel s url name colorMap opacity
        trustCalMinMax percentileFrac ignoreZeroVoxels visible in
    let fromFile :=
      loadFromFile Math_pow stored mat4_invert mat4_multiply colormap
        mat4_transpose vec4_transformMat4 vec3_subtract vec3_angle
        DataBuffer nifti_readHeader nifti_isCompressed nifti_decompress
        nifti_readImage uuidv4 File FileReader_readAsArrayBuffer fuel s file
        (slice_last (split slash url)) colorMap opacity trustCalMinMax
        percentileFrac ignoreZeroVoxels visible in
    (forall image s' events,
       fromUrl = Some (Returned (Some image, s'), events) <->
       fromFile = Some (Some image, s', events)) /\
    (forall e events,
       fromUrl = Some (Thrown e, events) <->
       fromFile = Some (None, s, events ++ [DebugExn e])) /\
    (fromUrl = None <-> fromFile = None).
Proof.
  intros fuel s url file response dataBuffer name colorMap opacity trust frac
    ignoreZero visible Hf Hok Hb Hr fromUrl fromFile.
  subst fromUrl fromFile. unfold loadFromUrl, loadFromFile, readFileAsync.
  rewrite Hf, Hok, Hb, Hr. cbn [negb].
  destruct (NVImage_new _ _ _ _ _ _ _ _ _ _ _ _ _ _ _ _ _ _ _ _ _ _ _ _ _ _)
    as [[[[c s1]|e0] l]|].
  - split; [|split].
    + intros image s' events. split; intros E; inversion E; reflexivity.
    + intros e events. split; intros E; discriminate E.
    + split; discriminate.
  - split; [|split].
    + intros image s' events. split; intros E; discriminate E.
    + intros e events. split; intros E.
      * inversion E; subst. reflexivity.
      * inversion E as [[E1]]. apply app_inj_tail in E1 as [-> E2].
        inversion E2. reflexivity.
    + split; discriminate.
  - split; [|split].
    + intros image s' events. split; intros E; discriminate E.
    + intros e events. split; intros E; discriminate E.
    + split; reflexivity.
Qed.

End LoaderFacts.

(** The sixteen bytes of [sixteenBytes] as INT8 voxels under the header
    [scannerHeader], constructed with an opacity of 2. *)
Lemma NVImage_new_invariants_witness :
  exists this s' log,
    NVImage_new (fun _ _ => zero) Math_fround keep2 keep2 noBounds keep2
      keep3 keep3 rightAngle ArrayBuffer (readerOf DT_INT8) uncompressed
      decompressed imageOfBuffer "id"%string 0 ∅ sixteenBytes "t1"%string
      "gray"%string two false default_percentileFrac false true false
      = Some (Returned (this, s'), log) /\
    opacity this = one /\
    Header.datatypeCode (hdr this) = DT_SIGNED_SHORT /\
    isAffineOK (Header.affine (hdr this)) = true /\
    s' !! img this =
      Some (Int16Array
              [1; 0; 0; 0; 0; 0; 0; 0; -1; -1; -1; -1; -1; -1; -1; 0]%Z).
Proof.
  destruct (NVImage_new (fun _ _ => zero) Math_fround keep2 keep2 noBounds
      keep2 keep3 keep3 rightAngle ArrayBuffer (readerOf DT_INT8)
      uncompressed decompressed imageOfBuffer "id"%string 0 ∅ sixteenBytes
      "t1"%string "gray"%string two false default_percentileFrac false true
      false)
    as [[[[this s']|e] log]|] eqn:E.
  - exists this, s', log. split; [reflexivity|].
    destruct (NVImage_new_invariants _ _ _ _ _ _ _ _ _ _ _ _ _ _ _ _ _ _ _
                _ _ _ _ _ _ _ _ _ _ E)
      as ((_ & _ & _ & H4 & _) & (H5 & _) & _).
    split; [rewrite H4; reflexivity|].
    split; [|split; [exact H5|]];
      vm_compute in E; inversion E; subst; reflexivity.
  - vm_compute in E. discriminate E.
  - vm_compute in E. discriminate E.
Defined.

(** A buffer of an unsupported datatype, fetched and read from a file. *)
Lemma loaders_agree_witness :
  let response := BuildResponse true "OK"%string (Some sixteenBytes) in
  let fromUrl :=
    loadFromUrl (fun _ _ => zero) Math_fround keep2 keep2 noBounds keep2
      keep3 keep3 rightAngle ArrayBuffer (readerOf 1) uncompressed
      decompressed imageOfBuffer "id"%string (fun _ => Returned response) 0
      ∅ "https://host/dir/t1.nii"%string ""%string "gray"%string one true
      default_percentileFrac false true in
  let fromFile :=
    loadFromFile (fun _ _ => zero) Math_fround keep2 keep2 noBounds keep2
      keep3 keep3 rightAngle ArrayBuffer (readerOf 1) uncompressed
      decompressed imageOfBuffer "id"%string unit
      (fun _ => inl sixteenBytes) 0 ∅ tt "t1.nii"%string "gray"%string one
      true default_percentileFrac false true in
  fromUrl = Some (Thrown (UnsupportedDatatype 1), []) /\
  fromFile = Some (None, ∅, [DebugExn (UnsupportedDatatype 1)]).
Proof.
  cbv zeta.
  set (response := BuildResponse true "OK"%string (Some sixteenBytes)).
  destruct (loaders_agree (fun _ _ => zero) Math_fround keep2 keep2 noBounds
              keep2 keep3 keep3 rightAngle ArrayBuffer (readerOf 1)
              uncompressed decompressed imageOfBuffer "id"%string
              (fun _ => Returned response) unit (fun _ => inl sixteenBytes)
              0 ∅ "https://host/dir/t1.nii"%string tt response sixteenBytes
              ""%string "gray"%string one true default_percentileFrac false
              true eq_refl eq_refl eq_refl eq_refl) as (_ & H & _).
  assert (E : loadFromUrl (fun _ _ => zero) Math_fround keep2 keep2 noBounds
      keep2 keep3 keep3 rightAngle ArrayBuffer (readerOf 1) uncompressed
      decompressed imageOfBuffer "id"%string (fun _ => Returned response) 0
      ∅ "https://host/dir/t1.nii"%string ""%string "gray"%string one true
      default_percentileFrac false true
      = Some (Thrown (UnsupportedDatatype 1), [])) by (vm_compute; reflexivity).
  split; [exact E|].
  apply H in E. exact E.
Defined.

End LoadingFacts.

(** ** Properties of the other shaders *)

Module ShadersFacts.
Import Shader ShaderFacts Shaders.
Local Open Scope Q_scope.

Lemma min_le_l p q : min p q <= p.
Proof. unfold min. destruct (ltb q p) eqn:E; [apply ltb_lt in E|]; lra. Qed.

Lemma min_le_r p q : min p q <= q.
Proof. unfold min. destruct (ltb q p) eqn:E; [|apply ltb_ge in E]; lra. Qed.

Lemma min_cases p q : min p q = p \/ min p q = q.
Proof. unfold min. destruct (ltb q p); auto. Qed.

Lemma max_ge_l p q : p <= max p q.
Proof. unfold max. destruct (ltb p q) eqn:E; [apply ltb_lt in E|]; lra. Qed.

Lemma max_ge_r p q : q <= max p q.
Proof. unfold max. destruct (ltb p q) eqn:E; [|apply ltb_ge in E]; lra. Qed.

Lemma max_cases p q : max p q = p \/ max p q = q.
Proof. unfold max. destruct (ltb p q); auto. Qed.

Lemma min_glb p q m : m <= p -> m <= q -> m <= min p q.
Proof. intros. destruct (min_cases p q) as [-> | ->]; assumption. Qed.

(** The exit of a ray from the slab [0, vs] of one axis. *)
Lemma axis_exit d vs sp :
  0 < vs -> ~ d == 0 -> 0 <= sp <= vs ->
  let tm := max ((1.0 / d) * (vs - sp)) ((1.0 / d) * (0.0 - sp)) in
  0 <= tm /\
  (sp + d * tm == 0 \/ sp + d * tm == vs) /\
  forall t, 0 <= t <= tm -> 0 <= sp + d * t <= vs.
Proof.
  intros Hvs Hd Hsp.
  assert (Hu : d * (1.0 / d) == 1) by (field; exact Hd).
  set (u := 1.0 / d) in *. clearbody u. cbv zeta.
  pose proof (max_ge_l (u * (vs - sp)) (u * (0.0 - sp))) as G1.
  pose proof (max_ge_r (u * (vs - sp)) (u * (0.0 - sp))) as G2.
  pose proof (max_cases (u * (vs - sp)) (u * (0.0 - sp))) as C.
  set (tm := max (u * (vs - sp)) (u * (0.0 - sp))) in *. clearbody tm.
  destruct (Qlt_le_dec 0 d) as [Hpos|Hneg].
  - assert (U : 0 < u) by nra.
    assert (E : tm == u * (vs - sp)) by (destruct C as [-> | ->]; nra).
    split; [nra|]. split; [right; nra|].
    intros t Ht. split; [nra|].
    assert (d * t <= d * tm) by nra. nra.
  - assert (Hneg' : d < 0) by (destruct (Qeq_dec d 0); [contradiction|lra]).
    assert (U : u < 0) by nra.
    assert (E : tm == u * (0.0 - sp)) by (destruct C as [-> | ->]; nra).
    split; [nra|]. split; [left; nra|].
    intros t Ht. split; [|nra].
    assert (d * tm <= d * t) by nra. nra.
Qed.

Lemma eqb_false p q : ~ p == q -> eqb p q = false.
Proof.
  intros H. unfold eqb. destruct (Qeq_bool p q) eqn:E; [|reflexivity].
  exfalso. apply H, Qeq_bool_iff, E.
Qed.

Lemma eqb_zero_false p : ~ p == 0 -> eqb p 0.0 = false.
Proof.
  intros H. apply eqb_false. intros E. apply H. rewrite E. reflexivity.
Qed.

Lemma eqb_false_pos p : 0 < p -> eqb p 0.0 = false.
Proof.
  intros H. apply eqb_zero_false. intros E. rewrite E in H.
  revert H. apply Qle_not_lt. discriminate.
Qed.

(** X21. [GetBackPosition] returns the point where the ray leaves the volume.
    For a start inside the unit cube of texture coordinates, a positive
    scale and a direction with no zero component, it has a result; the
    point returned is again inside the unit cube, it is the start moved
    along the direction by a distance that is not negative, and it lies on
    a face of the cube. *)
Theorem GetBackPosition_on_boundary :
  forall (rayDir volScale start : vec3),
    0 < x volScale -> 0 < y volScale -> 0 < z volScale ->
    ~ x rayDir == 0 -> ~ y rayDir == 0 -> ~ z rayDir == 0 ->
    0 <= x start <= 1 -> 0 <= y start <= 1 -> 0 <= z start <= 1 ->
    exists back,
      GetBackPosition rayDir volScale start = Some back /\
      (0 <= x back <= 1 /\ 0 <= y back <= 1 /\ 0 <= z back <= 1) /\
      (exists t, 0 <= t /\
         x back * x volScale == x start * x volScale + x rayDir * t /\
         y back * y volScale == y start * y volScale + y rayDir * t /\
         z back * z volScale == z start * z volScale + z rayDir * t) /\
      (x back == 0 \/ x back == 1 \/ y back == 0 \/ y back == 1 \/
       z back == 0 \/ z back == 1).
Proof.
  intros [dx dy dz] [sx sy sz] [px py pz] Sx Sy Sz Dx Dy Dz Px Py Pz.
  cbn [x y z] in Sx, Sy, Sz, Dx, Dy, Dz, Px, Py, Pz.
  unfold GetBackPosition. cbn [x y z].
  rewrite (eqb_zero_false dx Dx), (eqb_zero_false dy Dy),
    (eqb_zero_false dz Dz), (eqb_false_pos sx Sx), (eqb_false_pos sy Sy),
    (eqb_false_pos sz Sz).
  cbn [orb]. eexists. split; [reflexivity|].
  match goal with
  | |- (0 <= x ?b <= 1 /\ _) /\ _ => set (back := b)
  end.
  destruct (axis_exit dx sx (px * sx) Sx Dx ltac:(nra)) as (Tx & Fx & Ix).
  destruct (axis_exit dy sy (py * sy) Sy Dy ltac:(nra)) as (Ty & Fy & Iy).
  destruct (axis_exit dz sz (pz * sz) Sz Dz ltac:(nra)) as (Tz & Fz & Iz).
  cbv zeta in *.
  set (tx := max (1.0 / dx * (sx - px * sx)) (1.0 / dx * (0.0 - px * sx))) in *.
  set (ty := max (1.0 / dy * (sy - py * sy)) (1.0 / dy * (0.0 - py * sy))) in *.
  set (tz := max (1.0 / dz * (sz - pz * sz)) (1.0 / dz * (0.0 - pz * sz))) in *.
  set (t := min (min tx ty) (min tx tz)).
  assert (Bx : x back == (px * sx + dx * t) / sx) by reflexivity.
  assert (By : y back == (py * sy + dy * t) / sy) by reflexivity.
  assert (Bz : z back == (pz * sz + dz * t) / sz) by reflexivity.
  clearbody back.
  assert (T0 : 0 <= t) by (subst t; repeat apply min_glb; assumption).
  assert (Tlx : t <= tx).
  { subst t. eapply Qle_trans; [apply min_le_l|apply min_le_l]. }
  assert (Tly : t <= ty).
  { subst t. eapply Qle_trans; [apply min_le_l|apply min_le_r]. }
  assert (Tlz : t <= tz).
  { subst t. eapply Qle_trans; [apply min_le_r|apply min_le_r]. }
  assert (Tc : t = tx \/ t = ty \/ t = tz).
  { subst t. destruct (min_cases (min tx ty) (min tx tz)) as [-> | ->].
    - destruct (min_cases tx ty) as [-> | ->]; auto.
    - destruct (min_cases tx tz) as [-> | ->]; auto. }
  assert (Mx : x back * sx == px * sx + dx * t) by (rewrite Bx; field; lra).
  assert (My : y back * sy == py * sy + dy * t) by (rewrite By; field; lra).
  assert (Mz : z back * sz == pz * sz + dz * t) by (rewrite Bz; field; lra).
  pose proof (Ix t (conj T0 Tlx)) as Rx.
  pose proof (Iy t (conj T0 Tly)) as Ry.
  pose proof (Iz t (conj T0 Tlz)) as Rz.
  split; [|split].
  - repeat split; nra.
  - exists t. auto.
  - clearbody t tx ty tz. destruct Tc as [->|[->| ->]].
    + destruct Fx as [F|F]; [left|right; left]; nra.
    + destruct Fy as [F|F]; [do 2 right; left|do 3 right; left]; nra.
    + destruct Fz as [F|F]; [do 4 right; left|do 5 right]; nra.
Qed.

(** The back position of a ray from the centre of the cube. *)
Lemma GetBackPosition_on_boundary_witness :
  (0 < x unitScale /\ ~ x diagonalDir == 0 /\ 0 <= x cubeCentre <= 1) /\
  exists back,
    GetBackPosition diagonalDir unitScale cubeCentre = Some back /\
    (0 <= x back <= 1 /\ 0 <= y back <= 1 /\ 0 <= z back <= 1) /\
    z back == 1.
Proof.
  assert (S : 0 < 1) by reflexivity.
  assert (D1 : ~ 1 == 0) by discriminate.
  assert (D2 : ~ 2 == 0) by discriminate.
  assert (D4 : ~ 4 == 0) by discriminate.
  assert (P : 0 <= 0.5 <= 1) by (split; discriminate).
  split; [repeat split; try assumption; discriminate|].
  destruct (GetBackPosition_on_boundary diagonalDir unitScale cubeCentre
              S S S D1 D2 D4 P P P) as (back & E & H & _).
  exists back. split; [exact E|]. split; [exact H|].
  vm_compute in E. inversion E. reflexivity.
Defined.

(** X22. With the clip plane enabled and a ray that is not parallel to it,
    [applyClip] restricts the ray to the slab of thickness 2 behind the
    plane: the value returned is the new sample position, the traversal
    length never grows, and every point of the ray whose distance from the
    start lies between the new [samplePos.a] and the new [len] satisfies
    [0 <= dot(clipPlane.xyz, p - 0.5) + clipPlane.a <= 2]. *)
Theorem applyClip_keeps_slab :
  forall (clipPlane : vec4) (dir : vec3) (samplePos : vec4) (len : Q),
    a clipPlane <= 1 ->
    ~ dot dir (xyz clipPlane) == 0 ->
    let '(ret, samplePos', len') := applyClip clipPlane dir samplePos len in
    ret = samplePos' /\ len' <= len /\
    forall t,
      a samplePos' <= t <= len' ->
      let p := add3 (xyz samplePos) (scale3 dir t) in
      0 <= dot (xyz clipPlane) (sub3_scalar p 0.5) + a clipPlane <= 2.
Proof.
  intros [nx ny nz na] [dx dy dz] [px py pz pa] len Hen Hc.
  unfold applyClip, dot, xyz, sub3_scalar, add3, scale3, vec4_of, set_a in *.
  cbn [a r g b x y z] in *.
  replace (ltb 1.0 na) with false by (symmetry; apply ltb_ge; lra).
  replace (eqb (dx * nx + dy * ny + dz * nz) 0.0) with false
    by (symmetry; apply not_true_is_false; intros E;
        apply Qeq_bool_iff in E; apply Hc; rewrite E; reflexivity).
  cbn [orb].
  set (cdot := dx * nx + dy * ny + dz * nz) in *.
  set (k := nx * (px - 0.5) + ny * (py - 0.5) + nz * (pz - 0.5)).
  assert (Hu : cdot * (1 / cdot) == 1) by (field; exact Hc).
  assert (Edis : (- na - k) / cdot == (- na - k) * (1 / cdot))
    by (field; exact Hc).
  assert (Ebf : (- (na - 2.0) - k) / cdot == (- (na - 2.0) - k) * (1 / cdot))
    by (field; exact Hc).
  set (dis := (- na - k) / cdot) in *.
  set (dbf := (- (na - 2.0) - k) / cdot) in *.
  set (u := 1 / cdot) in *.
  assert (P : forall t,
            nx * (px + dx * t - 0.5) + ny * (py + dy * t - 0.5)
            + nz * (pz + dz * t - 0.5) + na == k + na + cdot * t)
    by (intros t; subst k cdot; ring).
  clearbody dis dbf u k cdot.
  destruct (ltb 0.0 cdot) eqn:Ef.
  - apply ltb_lt in Ef. cbn [andb negb orb].
    assert (U : 0 < u) by nra.
    destruct (leb len dis) eqn:El.
    + apply leb_le in El. cbn [a r g b x y z orb andb negb].
      split; [reflexivity|]. split; [lra|]. intros t Ht. lra.
    + apply leb_gt in El. cbn [a r g b x y z orb andb negb].
      split; [reflexivity|].
      pose proof (min_le_l dbf len). pose proof (min_le_r dbf len).
      pose proof (max_ge_l 0.0 dis). pose proof (max_ge_r 0.0 dis).
      split; [lra|]. intros t Ht. cbv zeta. rewrite P.
      assert (cdot * dis <= cdot * t) by nra.
      assert (cdot * t <= cdot * dbf) by nra.
      assert (cdot * dis == - na - k) by (rewrite Edis; nra).
      assert (cdot * dbf == - (na - 2.0) - k) by (rewrite Ebf; nra).
      lra.
  - apply ltb_ge in Ef. cbn [andb negb orb].
    assert (Ef' : cdot < 0) by (destruct (Qeq_dec cdot 0); [contradiction|lra]).
    assert (U : u < 0) by nra.
    destruct (leb dis 0.0) eqn:El.
    + apply leb_le in El. cbn [a r g b x y z orb andb negb].
      split; [reflexivity|]. split; [lra|]. intros t Ht. lra.
    + apply leb_gt in El. cbn [a r g b x y z orb andb negb].
      split; [reflexivity|].
      pose proof (min_le_l dis len). pose proof (min_le_r dis len).
      pose proof (max_ge_l 0.0 dbf). pose proof (max_ge_r 0.0 dbf).
      split; [lra|]. intros t Ht. cbv zeta. rewrite P.
      assert (cdot * t <= cdot * dbf) by nra.
      assert (cdot * dis <= cdot * t) by nra.
      assert (cdot * dis == - na - k) by (rewrite Edis; nra).
      assert (cdot * dbf == - (na - 2.0) - k) by (rewrite Ebf; nra).
      lra.
Qed.

(** A clip plane through the middle of the cube, facing the ray. *)
Lemma applyClip_keeps_slab_witness :
  (a (Vec4 0 0 1 0) <= 1 /\ ~ dot (Vec3 0 0 1) (xyz (Vec4 0 0 1 0)) == 0) /\
  let '(ret, samplePos', len') :=
    applyClip (Vec4 0 0 1 0) (Vec3 0 0 1) (Vec4 0.5 0.5 0 0) 1 in
  a samplePos' == 0.5 /\ len' == 1 /\
  forall t, a samplePos' <= t <= len' ->
    0 <= dot (Vec3 0 0 1)
           (sub3_scalar (add3 (Vec3 0.5 0.5 0) (scale3 (Vec3 0 0 1) t)) 0.5)
         + 0 <= 2.
Proof.
  assert (H1 : a (Vec4 0 0 1 0) <= 1) by discriminate.
  assert (H2 : ~ dot (Vec3 0 0 1) (xyz (Vec4 0 0 1 0)) == 0) by discriminate.
  split; [split; assumption|].
  pose proof (applyClip_keeps_slab (Vec4 0 0 1 0) (Vec3 0 0 1)
                (Vec4 0.5 0.5 0 0) 1 H1 H2) as H.
  destruct (applyClip (Vec4 0 0 1 0) (Vec3 0 0 1) (Vec4 0.5 0.5 0 0) 1)
    as [[ret sp] len'] eqn:E.
  destruct H as (_ & _ & H).
  vm_compute in E. inversion E; subst.
  split; [reflexivity|]. split; [reflexivity|]. exact H.
Defined.

Lemma fastPass_hit :
  forall (tex : vec3 -> vec4) (deltaDirFast : vec4) (len : Q) (fuel : nat)
         (samplePos found : vec4),
    fastPass fuel tex deltaDirFast len samplePos = Some found ->
    exists k : nat,
      found = rayPosition samplePos deltaDirFast k /\
      (forall j, (j < k)%nat ->
         a (rayPosition samplePos deltaDirFast j) <= len /\
         a (tex (xyz (rayPosition samplePos deltaDirFast j))) <= 0.01) /\
      (len < a found \/ 0.01 < a (tex (xyz found))).
Proof.
  intros tex d len. induction fuel as [|fuel IH]; intros p q; [discriminate|].
  cbn [fastPass]. destruct (leb (a p) len) eqn:El.
  - destruct (ltb 0.01 (a (tex (xyz p)))) eqn:Eh.
    + intros [= <-]. exists 0%nat. cbn [rayPosition].
      split; [reflexivity|]. split; [intros j Hj; lia|].
      right. apply ltb_lt. exact Eh.
    + intros H. destruct (IH _ _ H) as (k & -> & Hb & He).
      exists (S k). cbn [rayPosition]. split; [reflexivity|].
      split; [|exact He].
      intros [|j] Hj; cbn [rayPosition].
      * split; [apply leb_le, El|apply ltb_ge, Eh].
      * apply Hb. lia.
  - intros [= <-]. exists 0%nat. cbn [rayPosition].
    split; [reflexivity|]. split; [intros j Hj; lia|].
    left. apply leb_gt. exact El.
Qed.

Lemma fastPass_more_fuel tex d len :
  forall fuel p found,
    fastPass fuel tex d len p = Some found ->
    forall fuel', (fuel <= fuel')%nat ->
      fastPass fuel' tex d len p = Some found.
Proof.
  induction fuel as [|fuel IH]; intros p found; [discriminate|].
  intros H [|fuel'] Hf; [lia|]. cbn [fastPass] in *.
  destruct (leb (a p) len); [|exact H].
  destruct (ltb 0.01 (a (tex (xyz p)))); [exact H|].
  apply (IH _ _ H). lia.
Qed.

(** X23. For a step of positive length the fast pass ends, and it ends at
    the first sample of the ray whose alpha is above 0.01, or at the first
    one past the end of the ray: there is a number [k] of fast steps such
    that the loop, given enough fuel, returns the start moved by [k] steps
    (and returns nothing else, whatever the fuel), every earlier sample
    being within the ray with an alpha of at most 0.01. *)
Theorem fastPass_stops_at_first_hit :
  forall (tex : vec3 -> vec4) (deltaDirFast : vec4) (len : Q)
         (samplePos : vec4),
    0 < a deltaDirFast ->
    exists (k : nat) (found : vec4),
      (exists fuel0, forall fuel, (fuel0 <= fuel)%nat ->
         fastPass fuel tex deltaDirFast len samplePos = Some found) /\
      (forall fuel found',
         fastPass fuel tex deltaDirFast len samplePos = Some found' ->
         found' = found) /\
      found = rayPosition samplePos deltaDirFast k /\
      (forall j, (j < k)%nat ->
         a (rayPosition samplePos deltaDirFast j) <= len /\
         a (tex (xyz (rayPosition samplePos deltaDirFast j))) <= 0.01) /\
      (len < a found \/ 0.01 < a (tex (xyz found))).
Proof.
  intros tex d len p Hd.
  destruct (fastPass_terminates tex d len Hd
              (steps ((len - a p) / a d)) p (steps_bound len (a p) (a d) Hd))
    as (found & Hfound).
  set (n := steps ((len - a p) / a d)) in *.
  pose proof (Hfound (S n) ltac:(lia)) as E.
  destruct (fastPass_hit tex d len (S n) p found E) as (k & Hk & Hb & He).
  exists k, found. split; [|split; [|split; [|split]]]; try assumption.
  - exists (S n). intros fuel Hf. apply Hfound. lia.
  - intros fuel found' E'.
    pose proof (fastPass_more_fuel tex d len fuel p found' E'
                  (Nat.max fuel (S n)) ltac:(lia)) as E1.
    rewrite (Hfound (Nat.max fuel (S n)) ltac:(lia)) in E1.
    congruence.
Qed.

(** A ray that meets the opaque slab at its third fast step. *)
Lemma fastPass_stops_at_first_hit_witness :
  0 < a (Vec4 0 0 0.25 0.25) /\
  exists found,
    fastPass 10 slab (Vec4 0 0 0.25 0.25) 1 (Vec4 0.5 0.5 0 0) = Some found /\
    found = rayPosition (Vec4 0.5 0.5 0 0) (Vec4 0 0 0.25 0.25) 2 /\
    0.01 < a (slab (xyz found)).
Proof.
  assert (Hd : 0 < a (Vec4 0 0 0.25 0.25)) by reflexivity.
  split; [exact Hd|].
  destruct (fastPass_stops_at_first_hit slab (Vec4 0 0 0.25 0.25) 1
              (Vec4 0.5 0.5 0 0) Hd) as (k & found & _ & Hu & _).
  assert (E : fastPass 10 slab (Vec4 0 0 0.25 0.25) 1 (Vec4 0.5 0.5 0 0)
              = Some (rayPosition (Vec4 0.5 0.5 0 0) (Vec4 0 0 0.25 0.25) 2))
    by (vm_compute; reflexivity).
  pose proof (Hu _ _ E) as Hf.
  exists found. rewrite <- Hf. split; [exact E|]. split; reflexivity.
Defined.

Lemma idAlpha_range id : 0 <= idAlpha id <= 1.
Proof.
  unfold idAlpha. change 255%Z with (Z.ones 8). rewrite Z.land_ones by lia.
  pose proof (Z.mod_pos_bound id (2 ^ 8) ltac:(lia)) as [H1 H2].
  assert (L : 0 <= inject_Z (id mod 2 ^ 8)).
  { change 0 with (inject_Z 0). rewrite <- Zle_Qle. exact H1. }
  assert (U : inject_Z (id mod 2 ^ 8) <= 255).
  { change 255 with (inject_Z 255). rewrite <- Zle_Qle. lia. }
  split.
  - apply Qle_shift_div_l; [reflexivity|]. lra.
  - apply Qle_shift_div_r; [reflexivity|]. lra.
Qed.

Lemma idAlpha_mod id id' :
  (id' mod 256 = id mod 256)%Z -> idAlpha id' = idAlpha id.
Proof.
  intros H. unfold idAlpha. change 255%Z with (Z.ones 8).
  rewrite !Z.land_ones by lia. change (2 ^ 8)%Z with 256%Z. rewrite H.
  reflexivity.
Qed.

Lemma pickVolume_first_hit volume id d len :
  forall fuel p fColor,
    pickVolume fuel volume id d len p = Some (Some fColor) ->
    exists k : nat,
      fColor = vec4_of (xyz (rayPosition p d k)) (idAlpha id) /\
      a (rayPosition p d k) <= len /\
      0.01 < a (volume (xyz (rayPosition p d k))) /\
      forall j, (j < k)%nat ->
        a (volume (xyz (rayPosition p d j))) <= 0.01.
Proof.
  induction fuel as [|fuel IH]; intros p c; [discriminate|].
  cbn [pickVolume]. destruct (leb (a p) len) eqn:El; [|discriminate].
  destruct (ltb 0.01 (a (volume (xyz p)))) eqn:Eh.
  - intros [= <-]. exists 0%nat. cbn [rayPosition].
    split; [reflexivity|]. split; [apply leb_le, El|].
    split; [apply ltb_lt, Eh|]. intros j Hj. lia.
  - intros H. destruct (IH _ _ H) as (k & -> & H1 & H2 & H3).
    exists (S k). cbn [rayPosition]. repeat split; try assumption.
    intros [|j] Hj; cbn [rayPosition]; [apply ltb_ge, Eh|apply H3; lia].
Qed.

Lemma pickVolume_id volume id id' d len :
  idAlpha id' = idAlpha id ->
  forall fuel p,
    pickVolume fuel volume id' d len p = pickVolume fuel volume id d len p.
Proof.
  intros H. induction fuel as [|fuel IH]; intros p; [reflexivity|].
  cbn [pickVolume]. rewrite H, IH. reflexivity.
Qed.

(** X24. What the volume-picking shader writes.  The alpha of the colour is the
    identifier of the object reduced modulo 256 and divided by 255, so it
    lies between 0 and 1 and two identifiers that agree modulo 256 give
    the same fragment.  The other three components are the texture
    coordinates of the first sample of the clipped ray, in steps of 1.9
    voxels, at which the volume has an alpha above 0.01; when the volume
    has none and overlays are present, they are the start of the ray, and
    the overlay has such a sample on the unclipped ray. *)
Theorem picking_reports_first_hit :
  forall (clipPlane : vec4) (overlays : Q) (volume overlay : vec3 -> vec4)
         (id : Z) (fuel : nat) (ray : Ray) (fColor : vec4),
    fragVolumePickingMain clipPlane overlays volume overlay id fuel ray
      = Some (Written fColor) ->
    let stepSizeFast := len ray / lenVox ray * 1.9 in
    let deltaDirFast := vec4_of (scale3 (dir ray) stepSizeFast) stepSizeFast in
    let clipped :=
      snd (fst (applyClip clipPlane (dir ray) (vec4_of (start ray) 0.0)
                  (len ray))) in
    a fColor = idAlpha id /\ 0 <= a fColor <= 1 /\
    (forall id', (id' mod 256 = id mod 256)%Z ->
       fragVolumePickingMain clipPlane overlays volume overlay id' fuel ray
         = Some (Written fColor)) /\
    ((exists k : nat,
        xyz fColor = xyz (rayPosition clipped deltaDirFast k) /\
        0.01 < a (volume (xyz fColor)) /\
        forall j, (j < k)%nat ->
          a (volume (xyz (rayPosition clipped deltaDirFast j))) <= 0.01) \/
     (xyz fColor = start ray /\ 1 <= overlays /\
      exists k : nat,
        0.01 < a (overlay (xyz (rayPosition (vec4_of (start ray) 0.0)
                                  deltaDirFast k))))).
Proof.
  intros clipPlane overlays volume overlay id fuel ray fColor H
    stepSizeFast deltaDirFast clipped.
  assert (Hid : forall id', (id' mod 256 = id mod 256)%Z ->
            fragVolumePickingMain clipPlane overlays volume overlay id' fuel ray
            = fragVolumePickingMain clipPlane overlays volume overlay id fuel
                ray).
  { intros id' E. apply idAlpha_mod in E. unfold fragVolumePickingMain.
    destruct (_ || _); [reflexivity|].
    destruct (applyClip _ _ _ _) as [[ret sp] len'].
    rewrite (pickVolume_id volume id id' _ _ E), E. reflexivity. }
  pose proof H as H0.
  unfold fragVolumePickingMain in H.
  destruct (_ || _); [discriminate|].
  subst clipped.
  destruct (applyClip _ _ _ _) as [[ret sp] len']. cbn [fst snd].
  fold stepSizeFast in H. fold deltaDirFast in H.
  destruct (pickVolume _ _ _ _ _ _) as [[c|]|] eqn:EP; [| |discriminate].
  - inversion H; subst c. clear H.
    destruct (pickVolume_first_hit _ _ _ _ _ _ _ EP) as (k & -> & H1 & H2 & H3).
    cbn [a vec4_of]. split; [reflexivity|]. split; [apply idAlpha_range|].
    split; [intros id' E; rewrite (Hid id' E); exact H0|].
    left. exists k. repeat split; assumption.
  - destruct (ltb overlays 1.0) eqn:Eo; [discriminate|].
    destruct (fastPass _ _ _ _ _) as [q|] eqn:EF; [|discriminate].
    destruct (ltb (len ray) (a q)) eqn:El; [discriminate|].
    inversion H; subst fColor. clear H.
    cbn [a vec4_of]. split; [reflexivity|]. split; [apply idAlpha_range|].
    split; [intros id' E; rewrite (Hid id' E); exact H0|].
    right. split; [destruct (start ray); reflexivity|].
    split; [apply ltb_ge in Eo; lra|].
    destruct (fastPass_hit _ _ _ _ _ _ EF) as (k & -> & _ & He).
    exists k. destruct He as [He|He]; [|exact He].
    apply ltb_ge in El. lra.
Qed.

(** A ray towards the opaque slab, picked for the object 259. *)
Lemma picking_reports_first_hit_witness :
  exists fColor,
    fragVolumePickingMain (Vec4 0 0 1 2) 0 slab emptyVolume 259 10 straightRay
      = Some (Written fColor) /\
    a fColor == 3 / 255 /\ z (xyz fColor) == 0.95 /\
    fragVolumePickingMain (Vec4 0 0 1 2) 0 slab emptyVolume 3 10 straightRay
      = Some (Written fColor).
Proof.
  destruct (fragVolumePickingMain (Vec4 0 0 1 2) 0 slab emptyVolume 259 10
              straightRay) as [[fColor| |]|] eqn:E;
    try (vm_compute in E; discriminate E).
  exists fColor. split; [reflexivity|].
  destruct (picking_reports_first_hit _ _ _ _ _ _ _ _ E) as (_ & _ & H & _).
  split; [|split; [|apply H; reflexivity]];
    vm_compute in E; inversion E; subst fColor; reflexivity.
Defined.

(** X25. The slice shader composites the overlay over the volume.  With an
    opacity and an overlay alpha between 0 and 1, the alpha it writes is
    between 0 and 1 and at least the opacity; without overlays the colour
    written is the colour of the volume with the opacity as alpha; with
    overlays the alpha is at least that of the overlay, and under an
    opaque overlay voxel the colour is the colour of the overlay. *)
Theorem fragSlice_composites :
  forall (overlays opacity : Q) (volume overlay : vec3 -> vec4) (texPos : vec3),
    0 <= opacity <= 1 ->
    0 <= a (overlay texPos) <= 1 ->
    let color := fragSliceMain overlays opacity volume overlay texPos in
    (0 <= a color <= 1 /\ opacity <= a color) /\
    (overlays < 1 ->
     r color == r (volume texPos) /\ g color == g (volume texPos) /\
     b color == b (volume texPos) /\ a color == opacity) /\
    (1 <= overlays ->
     a (overlay texPos) <= a color /\
     (a (overlay texPos) == 1 ->
      r color == r (overlay texPos) /\ g color == g (overlay texPos) /\
      b color == b (overlay texPos) /\ a color == 1)).
Proof.
  intros overlays opacity volume overlay texPos Hop Hov color.
  subst color. unfold fragSliceMain, vec4_of, xyz.
  destruct (volume texPos) as [vr vg vb va].
  destruct (ltb overlays 1.0) eqn:Eo.
  - apply ltb_lt in Eo. cbn [a r g b x y z].
    destruct (leb _ 0.0) eqn:Ea; cbn [a r g b].
    + apply leb_le in Ea. split; [lra|]. split; [|lra].
      intros _. repeat split; lra.
    + apply leb_gt in Ea. split; [lra|]. split; [|lra].
      intros _. repeat split; first [lra|field; lra].
  - apply ltb_ge in Eo. destruct (overlay texPos) as [cr cg cb ca].
    cbn [a r g b x y z] in *.
    destruct (leb _ 0.0) eqn:Ea; cbn [a r g b].
    + apply leb_le in Ea. split; [nra|]. split; [lra|].
      intros _. split; [nra|]. intros E. nra.
    + apply leb_gt in Ea. split; [nra|]. split; [lra|].
      intros _. split; [nra|]. intros E.
      repeat split; first [nra|rewrite E; field; lra].
Qed.

(** A half-transparent slice under an opaque overlay voxel. *)
Lemma fragSlice_composites_witness :
  (0 <= 0.5 <= 1 /\ 0 <= a (opaqueVolume cubeCentre) <= 1) /\
  let color := fragSliceMain 1 0.5 emptyVolume opaqueVolume cubeCentre in
  r color == 0.8 /\ a color == 1.
Proof.
  assert (H1 : 0 <= 0.5 <= 1) by (split; discriminate).
  assert (H2 : 0 <= a (opaqueVolume cubeCentre) <= 1) by (split; discriminate).
  split; [split; assumption|].
  destruct (fragSlice_composites 1 0.5 emptyVolume opaqueVolume cubeCentre
              H1 H2) as (_ & _ & H).
  destruct H as (_ & H); [discriminate|].
  destruct H as (Hr & _ & _ & Ha); [reflexivity|].
  split; [exact Hr|exact Ha].
Defined.

Lemma max_eq_l p q : q <= p -> max p q == p.
Proof.
  intros H. pose proof (max_ge_l p q).
  destruct (max_cases p q) as [-> | E]; [reflexivity|]. rewrite E in *. lra.
Qed.

Lemma min_eq_l p q : p <= q -> min p q == p.
Proof.
  intros H. pose proof (min_le_l p q).
  destruct (min_cases p q) as [-> | E]; [reflexivity|]. rewrite E in *. lra.
Qed.

Lemma clamp_inside p lo hi : lo <= p <= hi -> clamp p lo hi == p.
Proof.
  intros H. unfold clamp.
  pose proof (max_eq_l p lo ltac:(lra)) as E.
  rewrite min_eq_l; [exact E|]. lra.
Qed.

(** X26. The [median] of the font shader is the median of its three arguments:
    it is one of them, at least two of them are not above it and at least
    two are not below it.  The fragment written has the colour of the
    font, with its alpha scaled by an opacity between 0 and 1 that is
    exactly one half where the median of the texture is 0.5. *)
Theorem fragFont_median_opacity :
  forall (fontTexture : vec2 -> vec4) (fontColor : vec4)
         (screenPxRange : Q) (vUV : vec2),
    let red := r (fontTexture vUV) in
    let green := g (fontTexture vUV) in
    let blue := b (fontTexture vUV) in
    let m := median red green blue in
    let color := fragFontMain fontTexture fontColor screenPxRange vUV in
    (m = red \/ m = green \/ m = blue) /\
    ((red <= m /\ green <= m) \/ (red <= m /\ blue <= m) \/
     (green <= m /\ blue <= m)) /\
    ((m <= red /\ m <= green) \/ (m <= red /\ m <= blue) \/
     (m <= green /\ m <= blue)) /\
    xyz color = xyz fontColor /\
    exists opacity,
      0 <= opacity <= 1 /\ a color = a fontColor * opacity /\
      (m == 0.5 -> opacity == 0.5).
Proof.
  intros fontTexture fontColor screenPxRange vUV red green blue m color.
  subst color. unfold fragFontMain, xyz, vec4_of.
  cbn [a r g b x y z]. fold red green blue. fold m.
  assert (M : (m = red \/ m = green \/ m = blue) /\
              ((red <= m /\ green <= m) \/ (red <= m /\ blue <= m) \/
               (green <= m /\ blue <= m)) /\
              ((m <= red /\ m <= green) \/ (m <= red /\ m <= blue) \/
               (m <= green /\ m <= blue))).
  { subst m. clearbody red green blue. unfold median.
    pose proof (min_le_l red green). pose proof (min_le_r red green).
    pose proof (max_ge_l red green). pose proof (max_ge_r red green).
    pose proof (min_le_l (max red green) blue).
    pose proof (min_le_r (max red green) blue).
    pose proof (max_ge_l (min red green) (min (max red green) blue)).
    pose proof (max_ge_r (min red green) (min (max red green) blue)).
    repeat match goal with
           | |- context [min ?p ?q] =>
               let E := fresh "E" in
               destruct (min_cases p q) as [E|E]; rewrite E in *; clear E
           | |- context [max ?p ?q] =>
               let E := fresh "E" in
               destruct (max_cases p q) as [E|E]; rewrite E in *; clear E
           | H : context [min ?p ?q] |- _ =>
               let E := fresh "E" in
               destruct (min_cases p q) as [E|E]; rewrite E in *; clear E
           | H : context [max ?p ?q] |- _ =>
               let E := fresh "E" in
               destruct (max_cases p q) as [E|E]; rewrite E in *; clear E
           end;
      (split; [auto|]); split;
      first [left; split; lra|right; left; split; lra
            |right; right; split; lra]. }
  destruct M as (M1 & M2 & M3). repeat (split; [assumption|]).
  split; [destruct fontColor; reflexivity|].
  eexists. split; [|split; [reflexivity|]].
  - unfold clamp.
    pose proof (min_le_r (max (screenPxRange * (m - 0.5) + 0.5) 0.0) 1.0).
    pose proof (max_ge_r (screenPxRange * (m - 0.5) + 0.5) 0.0).
    split; [apply min_glb; lra|lra].
  - intros E. rewrite clamp_inside; [rewrite E; ring|].
    assert (I : screenPxRange * (m - 0.5) + 0.5 == 0.5) by (rewrite E; ring).
    lra.
Qed.

Lemma abs_sym p q : abs (p - q) == abs (q - p).
Proof.
  unfold abs.
  destruct (ltb (p - q) 0.0) eqn:E1; destruct (ltb (q - p) 0.0) eqn:E2;
    rewrite ?ltb_lt, ?ltb_ge in *; lra.
Qed.

Lemma abs_nonneg p : 0 <= abs p.
Proof.
  unfold abs. destruct (ltb p 0.0) eqn:E; rewrite ?ltb_lt, ?ltb_ge in *; lra.
Qed.

Lemma min_sym p q : min p q == min q p.
Proof.
  unfold min.
  destruct (ltb q p) eqn:E1; destruct (ltb p q) eqn:E2;
    rewrite ?ltb_lt, ?ltb_ge in *; lra.
Qed.

Lemma max_compat p q q' : q == q' -> max p q == max p q'.
Proof.
  intros E. unfold max.
  destruct (ltb p q) eqn:E1; destruct (ltb p q') eqn:E2;
    rewrite ?ltb_lt, ?ltb_ge in *; lra.
Qed.

(** X27. The window of the orientation shader.  The scaled intensity is mapped
    linearly, the lower of [cal_min] and [cal_max] to 0, with a width that
    is the distance between them and never less than 0.00001: the
    division is always defined, and exchanging [cal_min] and [cal_max]
    changes nothing, so an inverted range does not invert the colour map.
    When [cal_max] exceeds [cal_min] by at least 0.00001, [cal_min] maps
    to 0 and [cal_max] to 1. *)
Theorem windowed_range :
  forall (scl_slope scl_inter cal_max cal_min raw : Q),
    let f := scl_slope * raw + scl_inter in
    let w := windowed scl_slope scl_inter cal_max cal_min raw in
    w == windowed scl_slope scl_inter cal_min cal_max raw /\
    (exists width,
       0.00001 <= width /\ w * width == f - min cal_min cal_max) /\
    (cal_min + 0.00001 <= cal_max ->
     w == (f - cal_min) / (cal_max - cal_min) /\
     (f == cal_min -> w == 0) /\ (f == cal_max -> w == 1)).
Proof.
  intros s i cmax cmin raw f w. subst w. unfold windowed, mix. fold f.
  clearbody f.
  pose proof (max_ge_l 0.00001 (abs (cmax - cmin))) as W.
  pose proof (max_ge_l 0.00001 (abs (cmin - cmax))) as W'.
  split; [|split].
  - assert (E1 : max 0.00001 (abs (cmax - cmin))
                 == max 0.00001 (abs (cmin - cmax)))
      by (apply max_compat, abs_sym).
    rewrite E1, (min_sym cmin cmax). reflexivity.
  - exists (max 0.00001 (abs (cmax - cmin))). split; [exact W|].
    field. lra.
  - intros H.
    assert (A : abs (cmax - cmin) == cmax - cmin).
    { unfold abs. destruct (ltb (cmax - cmin) 0.0) eqn:E;
        rewrite ?ltb_lt, ?ltb_ge in *; lra. }
    assert (M : max 0.00001 (abs (cmax - cmin)) == cmax - cmin).
    { pose proof (max_ge_r 0.00001 (abs (cmax - cmin))).
      destruct (max_cases 0.00001 (abs (cmax - cmin))) as [E|E];
        rewrite E in *; lra. }
    assert (N : min cmin cmax == cmin) by (apply min_eq_l; lra).
    rewrite M, N. split; [field; lra|]. split; intros E; rewrite E; field; lra.
Qed.

Lemma atlasIndex_bounds :
  forall idx : Z,
    (1 <= idx < 2 ^ 32)%Z ->
    (1 <= atlasIndex idx <= 100)%Z /\
    (atlasIndex idx mod 100 = idx mod 100)%Z /\
    (idx <= 100 -> atlasIndex idx = idx)%Z /\
    (idx + 100 < 2 ^ 32 -> atlasIndex (idx + 100) = atlasIndex idx)%Z /\
    0 < (inject_Z (atlasIndex idx) + 0.5) / 256.0 < 1.
Proof.
  intros idx H. unfold atlasIndex, uint.
  change (1 mod 2 ^ 32)%Z with 1%Z. change (100 mod 2 ^ 32)%Z with 100%Z.
  rewrite (Z.mod_small (idx - 1)) by lia.
  pose proof (Z.mod_pos_bound (idx - 1) 100 ltac:(lia)) as B.
  rewrite (Z.mod_small (_ + 1)) by lia.
  split; [lia|]. split; [|split; [|split]].
  - rewrite Z.add_mod_idemp_l by lia. f_equal. lia.
  - intros Hle. rewrite Z.mod_small by lia. lia.
  - intros Hlt. rewrite (Z.mod_small (idx + 100 - 1)) by lia.
    rewrite (Z.mod_small (_ + 1)) by
      (pose proof (Z.mod_pos_bound (idx + 100 - 1) 100 ltac:(lia)); lia).
    f_equal. replace (idx + 100 - 1)%Z with (idx - 1 + 1 * 100)%Z by lia.
    apply Z.mod_add. lia.
  - set (k := ((idx - 1) mod 100 + 1)%Z) in *.
    assert (K1 : 1 <= inject_Z k)
      by (change 1 with (inject_Z 1); rewrite <- Zle_Qle; lia).
    assert (K2 : inject_Z k <= 100)
      by (change 100 with (inject_Z 100); rewrite <- Zle_Qle; lia).
    split.
    + apply Qlt_shift_div_l; [reflexivity|]. lra.
    + apply Qlt_shift_div_r; [reflexivity|]. lra.
Qed.

(** X28. In the atlas shader a voxel of label 0 is transparent, and so is,
    when outlines are asked for ([xyzFrac.x > 0]), a voxel whose six
    neighbours carry its own label: only the borders of regions are drawn.
    Any other voxel is coloured by its label reduced modulo 100: a label
    between 1 and 2^32 - 1 gives an index between 1 and 100 congruent to
    it modulo 100 (the label itself up to 100), so that labels 100 apart
    are drawn alike; the column of the colour map read for it,
    [(index + 0.5) / 256], lies strictly between 0 and 1, and the colour
    found there is blended over the layers below. *)
Theorem fragOrientAtlas_lookup :
  forall (intensityVol : vec3 -> Z) (colormap : vec2 -> vec4)
         (blend3D : vec3 -> vec4) (coordZ layer numLayers opacity : Q)
         (xyzFrac : vec3) (mtx : mat4) (TexCoord : vec2),
    let at_ (p : vec4) := intensityVol (xyz (vec_mat p mtx)) in
    let tx := x2 TexCoord in
    let ty := y2 TexCoord in
    let centre := at_ (Vec4 tx ty coordZ 1.0) in
    let interior :=
      at_ (Vec4 (tx + x xyzFrac) ty coordZ 1.0) = centre /\
      at_ (Vec4 (tx - x xyzFrac) ty coordZ 1.0) = centre /\
      at_ (Vec4 tx (ty + y xyzFrac) coordZ 1.0) = centre /\
      at_ (Vec4 tx (ty - y xyzFrac) coordZ 1.0) = centre /\
      at_ (Vec4 tx ty (coordZ + z xyzFrac) 1.0) = centre /\
      at_ (Vec4 tx ty (coordZ - z xyzFrac) 1.0) = centre in
    let FragColor :=
      fragOrientAtlasMain intensityVol colormap blend3D coordZ layer
        numLayers opacity xyzFrac mtx TexCoord in
    (centre = 0%Z -> FragColor = Vec4 0.0 0.0 0.0 0.0) /\
    (0 < x xyzFrac -> interior -> FragColor = Vec4 0.0 0.0 0.0 0.0) /\
    ((1 <= centre < 2 ^ 32)%Z -> (x xyzFrac <= 0 \/ ~ interior) ->
     let index := atlasIndex centre in
     let column := (inject_Z index + 0.5) / 256.0 in
     (1 <= index <= 100)%Z /\ (index mod 100 = centre mod 100)%Z /\
     (centre <= 100 -> index = centre)%Z /\
     (centre + 100 < 2 ^ 32 -> atlasIndex (centre + 100) = index)%Z /\
     0 < column < 1 /\
     FragColor =
       layerBlend colormap blend3D coordZ layer numLayers opacity TexCoord
         column).
Proof.
  intros intensityVol colormap blend3D coordZ layer numLayers opacity xyzFrac
    mtx TexCoord at_ tx ty centre interior FragColor.
  subst FragColor interior centre tx ty at_. cbv beta.
  unfold fragOrientAtlasMain.
  set (centre := intensityVol
                   (xyz (vec_mat (Vec4 (x2 TexCoord) (y2 TexCoord) coordZ 1.0)
                           mtx))).
  clearbody centre. split; [|split].
  - intros ->. reflexivity.
  - intros Hx (H1 & H2 & H3 & H4 & H5 & H6).
    destruct (Z.eqb_spec centre (uint 0)); [reflexivity|].
    replace (ltb 0.0 (x xyzFrac)) with true by (symmetry; apply ltb_lt; lra).
    rewrite H1, H2, H3, H4, H5, H6, Z.eqb_refl. reflexivity.
  - intros Hc Hout. cbv zeta.
    destruct (atlasIndex_bounds centre Hc) as (B1 & B2 & B3 & B4 & B5).
    do 5 (split; [assumption|]).
    destruct (Z.eqb_spec centre (uint 0)) as [E|_];
      [change (uint 0) with 0%Z in E; lia|].
    destruct (ltb 0.0 (x xyzFrac)) eqn:Ex; [|reflexivity].
    apply ltb_lt in Ex. destruct Hout as [Hout|Hout]; [lra|].
    match goal with
    | |- (if ?c then _ else _) = _ => destruct c eqn:Ec
    end; [|reflexivity].
    exfalso. apply Hout.
    rewrite !andb_true_iff, !Z.eqb_eq in Ec.
    destruct Ec as (((((-> & ->) & ->) & ->) & ->) & ->). repeat split.
Qed.

Lemma byte_unit (n : Z) : (0 <= n <= 255)%Z -> 0 <= inject_Z n / 255.0 <= 1.
Proof.
  intros [H1 H2].
  assert (L : 0 <= inject_Z n)
    by (change 0 with (inject_Z 0); rewrite <- Zle_Qle; exact H1).
  assert (U : inject_Z n <= 255)
    by (change 255 with (inject_Z 255); rewrite <- Zle_Qle; exact H2).
  split.
  - apply Qle_shift_div_l; [reflexivity|]. lra.
  - apply Qle_shift_div_r; [reflexivity|]. lra.
Qed.

(** X29. The RGB orientation shader on a voxel of four bytes and an opacity
    between 0 and 1: the colour written has its red, green and blue
    between 0 and 1 and an alpha between 0 and the opacity.  Without an
    alpha channel the alpha is the luminance of the colour, whose weights
    0.21, 0.72 and 0.07 add up to 1, times the opacity: a gray voxel gets
    its gray level, a black voxel is transparent. *)
Theorem fragRGBOrient_alpha :
  forall (intensityVol : vec3 -> Z * Z * Z * Z) (coordZ opacity : Q)
         (mtx : mat4) (hasAlpha : bool) (TexCoord : vec2),
    0 <= opacity <= 1 ->
    (forall p,
       let '(red, green, blue, alpha) := intensityVol p in
       (0 <= red <= 255 /\ 0 <= green <= 255 /\ 0 <= blue <= 255 /\
        0 <= alpha <= 255)%Z) ->
    let FragColor :=
      fragRGBOrientMain intensityVol coordZ opacity mtx hasAlpha TexCoord in
    0 <= r FragColor <= 1 /\ 0 <= g FragColor <= 1 /\
    0 <= b FragColor <= 1 /\ 0 <= a FragColor <= opacity /\
    (hasAlpha = false ->
     a FragColor ==
       (0.21 * r FragColor + 0.72 * g FragColor + 0.07 * b FragColor)
       * opacity /\
     (r FragColor == g FragColor -> g FragColor == b FragColor ->
      a FragColor == r FragColor * opacity)).
Proof.
  intros intensityVol coordZ opacity mtx hasAlpha TexCoord Hop Hbytes Frag.
  subst Frag. unfold fragRGBOrientMain.
  match goal with
  | |- context [intensityVol ?p] =>
      specialize (Hbytes p); destruct (intensityVol p) as [[[cr cg] cb] ca]
  end.
  destruct Hbytes as (Hr & Hg & Hb & Ha).
  apply byte_unit in Hr, Hg, Hb, Ha.
  set (R := inject_Z cr / 255.0) in *. set (G := inject_Z cg / 255.0) in *.
  set (B := inject_Z cb / 255.0) in *. set (A := inject_Z ca / 255.0) in *.
  clearbody R G B A.
  destruct hasAlpha; unfold set_a; cbn [negb a r g b].
  - repeat split; first [lra|nra|discriminate].
  - repeat split; first [lra|nra].
Qed.

(** A white voxel without alpha channel, at half opacity. *)
Lemma fragRGBOrient_alpha_witness :
  let vol (_ : vec3) := (255, 255, 255, 0)%Z in
  let m := Mat4 (Vec4 1 0 0 0) (Vec4 0 1 0 0) (Vec4 0 0 1 0) (Vec4 0 0 0 1) in
  0 <= 0.5 <= 1 /\
  a (fragRGBOrientMain vol 0 0.5 m false (Vec2 0 0)) == 0.5.
Proof.
  cbv zeta.
  assert (H1 : 0 <= 0.5 <= 1) by (split; discriminate).
  split; [exact H1|].
  destruct (fragRGBOrient_alpha (fun _ => (255, 255, 255, 0)%Z) 0 0.5
              (Mat4 (Vec4 1 0 0 0) (Vec4 0 1 0 0) (Vec4 0 0 1 0)
                 (Vec4 0 0 0 1)) false (Vec2 0 0) H1)
    as (_ & _ & _ & _ & H).
  - intros p. cbv zeta. lia.
  - destruct (H eq_refl) as [_ H']. rewrite H' by reflexivity. reflexivity.
Defined.

(** X30. The vertex shader of the slices places the unit square on a rectangle
    of the canvas given in pixels.  When the rectangle lies within the
    canvas, a vertex of the unit square gets a position inside the clip
    space, with depth 0 and w 1; its clip coordinates are those of the
    pixel [(left + pos.x * width, top + (1 - pos.y) * height)], the
    vertical axis pointing down in pixels and up in clip space.  The
    texture position holds the slice fraction on the axis the view cuts
    and the vertex on the two others. *)
Theorem vertSlice_position :
  forall (axCorSag : Z) (slice : Q) (canvasWidthHeight : vec2)
         (leftTopWidthHeight : vec4) (pos : vec3),
    0 < x2 canvasWidthHeight -> 0 < y2 canvasWidthHeight ->
    0 <= r leftTopWidthHeight -> 0 <= b leftTopWidthHeight ->
    r leftTopWidthHeight + b leftTopWidthHeight <= x2 canvasWidthHeight ->
    0 <= g leftTopWidthHeight -> 0 <= a leftTopWidthHeight ->
    g leftTopWidthHeight + a leftTopWidthHeight <= y2 canvasWidthHeight ->
    0 <= x pos <= 1 -> 0 <= y pos <= 1 ->
    let '(gl_Position, texPos) :=
      vertSliceMain axCorSag slice canvasWidthHeight leftTopWidthHeight pos in
    (-1 <= r gl_Position <= 1 /\ -1 <= g gl_Position <= 1 /\
     b gl_Position == 0 /\ a gl_Position == 1) /\
    ((r gl_Position + 1) / 2 * x2 canvasWidthHeight ==
       r leftTopWidthHeight + x pos * b leftTopWidthHeight /\
     (1 - g gl_Position) / 2 * y2 canvasWidthHeight ==
       g leftTopWidthHeight + (1 - y pos) * a leftTopWidthHeight) /\
    (texPos = Vec3 (x pos) slice (y pos) /\ axCorSag = 1%Z \/
     texPos = Vec3 slice (x pos) (y pos) /\ axCorSag = 2%Z \/
     texPos = Vec3 (x pos) (y pos) slice /\ axCorSag <> 1%Z /\
     axCorSag <> 2%Z).
Proof.
  intros axCorSag slice [W H] [left top width height] [px py pz].
  cbn [x2 y2 r g b a x y z].
  intros HW HH Hl Hw Hlw Ht Hh Hth Hx Hy.
  unfold vertSliceMain, pixelFrac. cbn [x2 y2 r g b a x y z].
  set (fx := (left + px * width) / W).
  set (fy := (top + (1.0 - py) * height) / H).
  assert (Ex : fx * W == left + px * width) by (subst fx; field; lra).
  assert (Ey : fy * H == top + (1.0 - py) * height) by (subst fy; field; lra).
  assert (Bx : 0 <= fx <= 1).
  { split.
    - subst fx. apply Qle_shift_div_l; [exact HW|]. nra.
    - subst fx. apply Qle_shift_div_r; [exact HW|]. nra. }
  assert (By : 0 <= fy <= 1).
  { split.
    - subst fy. apply Qle_shift_div_l; [exact HH|]. nra.
    - subst fy. apply Qle_shift_div_r; [exact HH|]. nra. }
  clearbody fx fy.
  split; [|split].
  - repeat split; lra.
  - split.
    + assert (E1 : (fx * 2.0 - 1.0 + 1) / 2 == fx) by field.
      rewrite E1. exact Ex.
    + assert (E1 : (1 - ((1.0 - fy) * 2.0 - 1.0)) / 2 == fy) by field.
      rewrite E1, Ey. ring.
  - destruct (Z.eqb_spec axCorSag 1); [left; auto|].
    destruct (Z.eqb_spec axCorSag 2); [right; left; auto|].
    right; right; auto.
Qed.

(** The centre of a rectangle of 400 by 300 pixels at (100, 50) on a
    canvas of 800 by 600, in a coronal view. *)
Lemma vertSlice_position_witness :
  let '(gl_Position, texPos) :=
    vertSliceMain 1 0.3 (Vec2 800 600) (Vec4 100 50 400 300)
      (Vec3 0.5 0.5 0) in
  (-1 <= r gl_Position <= 1 /\ -1 <= g gl_Position <= 1) /\
  r gl_Position == -0.25 /\ g gl_Position == 1 / 3 /\
  texPos = Vec3 0.5 0.3 0.5.
Proof.
  pose proof (vertSlice_position 1 0.3 (Vec2 800 600) (Vec4 100 50 400 300)
                (Vec3 0.5 0.5 0)) as H.
  cbn [x2 y2 r g b a x y z] in H.
  specialize (H ltac:(reflexivity) ltac:(reflexivity) ltac:(discriminate)
                ltac:(discriminate) ltac:(discriminate) ltac:(discriminate)
                ltac:(discriminate) ltac:(discriminate)
                ltac:(split; discriminate) ltac:(split; discriminate)).
  destruct (vertSliceMain 1 0.3 (Vec2 800 600) (Vec4 100 50 400 300)
              (Vec3 0.5 0.5 0)) as [gl texPos] eqn:E.
  destruct H as ((H1 & H2 & _) & _ & _).
  split; [split; assumption|].
  vm_compute in E. inversion E; subst. repeat split.
Defined.

End ShadersFacts.
